(** * QuickMapMaker: binning multi-detector time-ordered data into a sky map

    A shallow embedding of [notebooks/g3mapmaker.py] (class [QuickMapMaker])
    and of [mapmaker/framecounter.py] (class [FrameCounter]).

    Modelling conventions.
    - A Python/NumPy [float] is a real number ([R]), and a statement about a
      computed angle or sum is a statement about its exact value.  Rounding
      is modelled where a rounded value is cut to an integer, which turns a
      last-bit difference into a whole column: the quotients [xlen / res]
      and [ylen / res] of the constructor are rounded to binary64, and
      overflow to an infinity.  NaN and signed zeros are not modelled, nor
      are the infinities or NaN that NumPy produces on dividing by a zero
      decompression gain: what is stated about reconstructed sample values
      is stated for non-zero gains ([finite_gain]).  A NumPy [int] array
      holds [Z].  Memory is not bounded.
    - A Python exception is a value of [exn]; a method that can raise
      returns [exn + A].  [Process] mutates [self] in place, so it returns
      the outcome together with the object as it is left, also when an
      exception escapes.
    - A NumPy 2-D array is a list of rows; [self.det_offset_dict] is a
      [gmap] from detector names to quaternions; [frame["signal"]] is the
      list of its entries in the order in which the mapping lists its keys.
    - The library calls ([np.linspace], [np.histogram2d], [np.arctan2],
      SciPy's [Rotation], the h5py reader) are modelled by what they
      compute and by the exceptions they raise on the inputs this module
      can hand them.
    - Of the plotting only the array and the extent handed to [plt.imshow]
      are kept; what [QuickMapMaker] prints is not modelled. *)

From Stdlib Require Import Reals Lra Lia ZArith.
From stdpp Require Import gmap strings list.

Open Scope R_scope.

(** ** Exceptions and the error monad *)

Inductive exn : Type :=
| ZeroDivisionError
| OverflowError
| ValueError
| IndexError
| OSError
| KeyError (key : string).

Definition bind {A B : Type} (m : exn + A) (k : A -> exn + B) : exn + B :=
  match m with
  | inl e => inl e
  | inr a => k a
  end.

Notation "'let!' x ':=' m 'in' k" := (bind m (fun x => k))
  (at level 10, x pattern, m at level 100, k at level 200).

(** [[f(x) for x in l]] where [f] may raise: the first exception escapes. *)
Fixpoint mapM {A B : Type} (f : A -> exn + B) (l : list A) : exn + list B :=
  match l with
  | [] => inr []
  | x :: l' =>
      let! y := f x in
      let! ys := mapM f l' in
      inr (y :: ys)
  end.

(** ** Quaternions and vectors *)

(** Four floats in the order in which they are stored. *)
Record quat : Type := Quat { q0 : R; q1 : R; q2 : R; q3 : R }.

Record vec3 : Type := Vec3 { vx : R; vy : R; vz : R }.

(** ** SciPy's [Rotation]: unit quaternions stored vector-first (x, y, z, w) *)
Module Rotation.

Definition norm (q : quat) : R :=
  sqrt (q0 q * q0 q + q1 q * q1 q + q2 q * q2 q + q3 q * q3 q).

(** [R.from_quat(q)]: normalises, and refuses a zero quaternion. *)
Definition from_quat (q : quat) : exn + quat :=
  let n := norm q in
  if Req_dec_T n 0 then inl ValueError
  else inr (Quat (q0 q / n) (q1 q / n) (q2 q / n) (q3 q / n)).

(** Hamilton product [p q] on vector-first quaternions. *)
Definition compose_quat (p q : quat) : quat :=
  let '(px, py, pz, pw) := (q0 p, q1 p, q2 p, q3 p) in
  let '(qx, qy, qz, qw) := (q0 q, q1 q, q2 q, q3 q) in
  Quat (pw * qx + qw * px + (py * qz - pz * qy))
       (pw * qy + qw * py + (pz * qx - px * qz))
       (pw * qz + qw * pz + (px * qy - py * qx))
       (pw * qw - (px * qx + py * qy + pz * qz)).

(** [p * q]: the product is normalised again on construction. *)
Definition mul (p q : quat) : exn + quat :=
  from_quat (compose_quat p q).

(** [r.apply(v)]: the rotation matrix of [r] times [v]. *)
Definition apply (r : quat) (v : vec3) : vec3 :=
  let '(x, y, z, w) := (q0 r, q1 r, q2 r, q3 r) in
  let x2 := x * x in let y2 := y * y in
  let z2 := z * z in let w2 := w * w in
  let xy := x * y in let zw := z * w in
  let xz := x * z in let yw := y * w in
  let yz := y * z in let xw := x * w in
  Vec3 ((x2 - y2 - z2 + w2) * vx v + 2 * (xy - zw) * vy v + 2 * (xz + yw) * vz v)
       (2 * (xy + zw) * vx v + (- x2 + y2 - z2 + w2) * vy v + 2 * (yz - xw) * vz v)
       (2 * (xz - yw) * vx v + 2 * (yz + xw) * vy v + (- x2 - y2 + z2 + w2) * vz v).

End Rotation.

(** ** NumPy scalar functions *)

(** [np.degrees] *)
Definition degrees (x : R) : R := x * (180 / PI).

(** [np.arctan2(y, x)] *)
Definition arctan2 (y x : R) : R :=
  if Rlt_dec 0 x then atan (y / x)
  else if Rlt_dec x 0 then
    if Rle_dec 0 y then atan (y / x) + PI else atan (y / x) - PI
  else if Rlt_dec 0 y then PI / 2
  else if Rlt_dec y 0 then - (PI / 2)
  else 0.

(** [np.arcsin] *)
Definition arcsin (x : R) : R := asin x.

(** [x % m] on floats: the remainder takes the sign of the divisor. *)
Definition np_mod (x m : R) : R := x - IZR (Int_part (x / m)) * m.

(** Truncation towards zero, as [int(x)] and [astype(int)] do it on a
    finite float. *)
Definition int_trunc (x : R) : Z :=
  if Rle_dec 0 x then Int_part x else (- Int_part (- x))%Z.

(** [np.linspace(start, stop, num)] with the endpoint included: [num]
    equally spaced values; the last one is [stop] ([linspace_last]). *)
Definition linspace (start stop : R) (num : Z) : exn + list R :=
  if (num <? 0)%Z then inl ValueError
  else
    let n := Z.to_nat num in
    let step := (stop - start) / INR (n - 1) in
    inr (map (fun i : nat => INR i * step + start) (seq 0 n)).

(** [np.zeros((rows, cols))] *)
Definition zeros {A : Type} (zero : A) (rows cols : Z) : exn + list (list A) :=
  if ((rows <? 0) || (cols <? 0))%Z then inl ValueError
  else inr (replicate (Z.to_nat rows) (replicate (Z.to_nat cols) zero)).

(** ** NumPy arrays *)

(** [np.searchsorted(a, v, side='right')] on a sorted [a]: the number of
    leading entries that are [<= v]. *)
Fixpoint searchsorted_right (a : list R) (v : R) : nat :=
  match a with
  | [] => O
  | e :: a' => if Rle_dec e v then S (searchsorted_right a' v) else O
  end.

(** [not np.any(a[:-1] > a[1:])] *)
Fixpoint monotonic (a : list R) : bool :=
  match a with
  | e1 :: a' =>
      match a' with
      | e2 :: _ => if Rlt_dec e2 e1 then false else monotonic a'
      | [] => true
      end
  | [] => true
  end.

(** The bin of [v] among [edges], as [np.histogramdd] computes it: the
    insertion index, moved one bin to the left when [v] sits on the
    rightmost edge; the indices [0] and [len(edges)] are the outliers that
    the final [hist[1:-1]] slice removes. *)
Definition core_bin (edges : list R) (rightmost : R) (v : R) : option nat :=
  let k := searchsorted_right edges v in
  let k := if Req_dec_T v rightmost then pred k else k in
  if (k =? 0)%nat || (length edges <=? k)%nat then None else Some (pred k).

(** [out[i, j] += w] *)
Definition add_at (i j : nat) (w : R) (h : list (list R)) : list (list R) :=
  alter (alter (fun c => c + w) j) i h.

(** One sample (first coordinate, second coordinate, weight) is added to
    its cell, or dropped when it is an outlier in either direction. *)
Definition deposit (xedges yedges : list R) (xlast ylast : R)
    (h : list (list R)) (s : R * R * R) : list (list R) :=
  let '(xv, yv, w) := s in
  match core_bin xedges xlast xv, core_bin yedges ylast yv with
  | Some i, Some j => add_at i j w h
  | _, _ => h
  end.

(** [np.bincount] over the flattened bin numbers, reshaped and with the
    outlier rows and columns removed. *)
Definition bincount2d (xedges yedges : list R) (xlast ylast : R)
    (samples : list (R * R * R)) : list (list R) :=
  foldl (deposit xedges yedges xlast ylast)
        (replicate (pred (length xedges)) (replicate (pred (length yedges)) 0))
        samples.

(** [np.histogram2d(x, y, bins=[xedges, yedges], weights=weights)[0]];
    without weights every sample counts for 1. *)
Definition histogram2d (x y : list R) (xedges yedges : list R)
    (weights : option (list R)) : exn + list (list R) :=
  if negb (length x =? length y)%nat then inl ValueError
  else if negb (monotonic xedges) then inl ValueError
  else if negb (monotonic yedges) then inl ValueError
  else
    match last xedges, last yedges with
    | Some xlast, Some ylast =>
        let w := default (replicate (length x) 1) weights in
        if negb (length w =? length x)%nat then inl ValueError
        else inr (bincount2d xedges yedges xlast ylast (zip (zip x y) w))
    | _, _ => inl IndexError
    end.

(** [a += b] on arrays of one shape. *)
Definition grid_add {A : Type} (add : A -> A -> A) (a b : list (list A))
  : list (list A) :=
  zip_with (zip_with add) a b.

(** [a[mask]] for one row and for the array: the entries under a true
    mask, in row-major order. *)
Fixpoint select_row {A : Type} (row : list A) (m : list bool) : list A :=
  match row, m with
  | x :: row', b :: m' =>
      if b : bool then x :: select_row row' m' else select_row row' m'
  | _, _ => []
  end.

Definition mask_select {A : Type} (a : list (list A)) (mask : list (list bool))
  : list A :=
  concat (zip_with select_row a mask).

(** [a[mask] = vals]: the entries under a true mask are overwritten, in
    row-major order, by the successive values; the values left over are
    handed to the next row. *)
Fixpoint assign_row {A : Type} (row : list A) (m : list bool) (vals : list A)
  : list A * list A :=
  match row, m with
  | x :: row', b :: m' =>
      if b : bool then
        match vals with
        | v :: vals' =>
            let '(r, rest) := assign_row row' m' vals' in (v :: r, rest)
        | [] => (row, [])
        end
      else
        let '(r, rest) := assign_row row' m' vals in (x :: r, rest)
  | _, _ => (row, vals)
  end.

Fixpoint mask_assign {A : Type} (a : list (list A)) (mask : list (list bool))
    (vals : list A) : list (list A) :=
  match a, mask with
  | row :: a', m :: mask' =>
      let '(r, rest) := assign_row row m vals in
      r :: mask_assign a' mask' rest
  | _, _ => a
  end.

(** ** Frames of the host framework *)

Inductive G3FrameType : Type :=
| Timepoint | Housekeeping | Observation | Scan | Map | InstrumentStatus
| Wiring | Calibration | GcpSlow | PipelineInfo | EphemeralData
| LightCurve | Statistics | EndProcessing | NoFrameType.

Global Instance G3FrameType_eq_dec : EqDecision G3FrameType.
Proof. solve_decision. Defined.

(** What [h5py.File(io.BytesIO(blob), "r")] gives for the blob of a
    calibration frame: either the bytes cannot be read as a file with a
    ["focalplane"] table, or the table's ["name"] and ["quat"] columns. *)
Inductive h5file : Type :=
| Unreadable
| FocalPlane (name : list string) (quat_col : list quat).

(** A frame: its type tag and the entries this module reads.  [scalars]
    holds the float entries, among them the decompression parameters. *)
Record G3Frame : Type := {
  type : G3FrameType;
  focalplane : option h5file;
  signal : option (list (string * list R));
  shared_boresight_radec : option (list quat);
  scalars : gmap string R
}.

(** [frame[key]] *)
Definition getitem {A : Type} (key : string) (entry : option A) : exn + A :=
  match entry with
  | Some a => inr a
  | None => inl (KeyError key)
  end.

(** ** The class [QuickMapMaker] *)

Record QuickMapMaker : Type := {
  ra0 : R;
  dec0 : R;
  xlen : R;
  ylen : R;
  res : R;
  nx : Z;
  ny : Z;
  ra_edges : list R;
  dec_edges : list R;
  sky_map : list (list R);
  hits_map : list (list Z);
  det_offset_dict : gmap string quat
}.

Definition set_sky_map (m : list (list R)) (self : QuickMapMaker) : QuickMapMaker :=
  {| ra0 := ra0 self; dec0 := dec0 self; xlen := xlen self; ylen := ylen self;
     res := res self; nx := nx self; ny := ny self;
     ra_edges := ra_edges self; dec_edges := dec_edges self;
     sky_map := m; hits_map := hits_map self;
     det_offset_dict := det_offset_dict self |}.

Definition set_hits_map (m : list (list Z)) (self : QuickMapMaker) : QuickMapMaker :=
  {| ra0 := ra0 self; dec0 := dec0 self; xlen := xlen self; ylen := ylen self;
     res := res self; nx := nx self; ny := ny self;
     ra_edges := ra_edges self; dec_edges := dec_edges self;
     sky_map := sky_map self; hits_map := m;
     det_offset_dict := det_offset_dict self |}.

Definition set_det_offset_dict (d : gmap string quat) (self : QuickMapMaker)
  : QuickMapMaker :=
  {| ra0 := ra0 self; dec0 := dec0 self; xlen := xlen self; ylen := ylen self;
     res := res self; nx := nx self; ny := ny self;
     ra_edges := ra_edges self; dec_edges := dec_edges self;
     sky_map := sky_map self; hits_map := hits_map self;
     det_offset_dict := d |}.

(** *** Python floats: IEEE 754 binary64, rounded to nearest, ties to even *)

(** [2^e] *)
Definition bpow (e : Z) : R := powerRZ 2 e.

(** The integer nearest to [x]; of two that are equally near, the even
    one. *)
Definition round_half_even (x : R) : Z :=
  let n := Int_part x in
  if Rlt_dec (x - IZR n) (1 / 2) then n
  else if Rlt_dec (1 / 2) (x - IZR n) then (n + 1)%Z
  else if Z.even n then n else (n + 1)%Z.

(** The binade of [x <> 0]: the [e] with [2^(e-1) <= |x| < 2^e]
    ([mag_spec]). *)
Definition mag (x : R) : Z := (Int_part (ln (Rabs x) / ln 2) + 1)%Z.

(** The exponent of the last bit that a binary64 number in the binade of
    [x] has: 53 significant bits, and no bit below [2^-1074]. *)
Definition ulp_exponent (x : R) : Z := Z.max (mag x - 53) (-1074).

(** [x] rounded to the nearest multiple of that last bit. *)
Definition round_binary64 (x : R) : R :=
  IZR (round_half_even (x * bpow (- ulp_exponent x))) * bpow (ulp_exponent x).

(** What a float operation returns: a number, or an infinity. *)
Inductive float : Type :=
| Finite (x : R)
| Infinity.

(** The float that an operation returns when its exact result is [x]: [x]
    rounded, or an infinity when the rounded value reaches [2^1024]. *)
Definition to_float (x : R) : float :=
  let r := round_binary64 x in
  if Rlt_dec (Rabs r) (bpow 1024) then Finite r else Infinity.

(** [a / b] on Python floats. *)
Definition truediv (a b : R) : exn + float :=
  if Req_dec_T b 0 then inl ZeroDivisionError else inr (to_float (a / b)).

(** [int(x)] on a Python float. *)
Definition int (x : float) : exn + Z :=
  match x with
  | Finite x => inr (int_trunc x)
  | Infinity => inl OverflowError
  end.

(** [QuickMapMaker.__init__].  The arguments are the floats that are passed
    in: where Python reads a decimal literal such as [0.01], the argument is
    the float nearest to it ([double_0_01]). *)
Definition __init__ (ra0 dec0 xlen ylen res : R) : exn + QuickMapMaker :=
  let! cols := truediv xlen res in
  let! nx := int cols in
  let! rows := truediv ylen res in
  let! ny := int rows in
  let! xs := linspace (- xlen / 2) (xlen / 2) (nx + 1) in
  let ra_edges := map (fun e => e + ra0) xs in
  let! ys := linspace (- ylen / 2) (ylen / 2) (ny + 1) in
  let dec_edges := map (fun e => e + dec0) ys in
  let! sky_map := zeros 0 ny nx in
  let! hits_map := zeros 0%Z ny nx in
  inr {| ra0 := ra0; dec0 := dec0; xlen := xlen; ylen := ylen; res := res;
         nx := nx; ny := ny; ra_edges := ra_edges; dec_edges := dec_edges;
         sky_map := sky_map; hits_map := hits_map; det_offset_dict := ∅ |}.

(** What [Process] hands to [plt.imshow]. *)
Record figure : Type := {
  image : list (list R);
  extent : R * R * R * R
}.

(** One call of [Process]: what it returns or raises, the object as the
    call leaves it, and the map it plots, if any. *)
Record outcome : Type := {
  returned : exn + option G3Frame;
  self_after : QuickMapMaker;
  shown : option figure
}.

Definition z_axis : vec3 := Vec3 0 0 1.

(** [boresight_q[:, [1,2,3,0]]]: scalar-first to vector-first. *)
Definition vector_first (q : quat) : quat := Quat (q1 q) (q2 q) (q3 q) (q0 q).

(** The sky angles of a pointing vector, in degrees. *)
Definition ra_of (v : vec3) : R := np_mod (degrees (arctan2 (vy v) (vx v))) 360.
Definition dec_of (v : vec3) : R := degrees (arcsin (vz v)).

(** The reconstructed signal [y] of detector [kid].  With a gain of 0 the
    code's [y_raw/gain + offset] holds infinities or NaN; the value that
    this definition has there means nothing, and what is stated about
    reconstructed values assumes [finite_gain]. *)
Definition reconstruct (frame : G3Frame) (kid : string) (y_raw : list R) : list R :=
  let gain_key := "compress_signal_" +:+ kid +:+ "_gain" in
  let offset_key := "compress_signal_" +:+ kid +:+ "_offset" in
  match scalars frame !! gain_key, scalars frame !! offset_key with
  | Some gain, Some offset => map (fun v => v / gain + offset) y_raw
  | _, _ => y_raw
  end.

(** [ra_det] and [dec_det] of a detector with offset quaternion [det_q]. *)
Definition detector_radec (boresight_r : list quat) (det_q : quat)
  : exn + (list R * list R) :=
  let! det_r := Rotation.from_quat det_q in
  let! corrected_r := mapM (fun b => Rotation.mul b det_r) boresight_r in
  let det_vectors := map (fun r => Rotation.apply r z_axis) corrected_r in
  inr (map ra_of det_vectors, map dec_of det_vectors).

(** The body of the loop over detectors.  The two in-place updates are
    separate statements, so the object is threaded through them. *)
Definition bin_detector (frame : G3Frame) (boresight_r : list quat)
    (kid : string) (y_raw : list R) (self : QuickMapMaker)
  : (exn + ()) * QuickMapMaker :=
  let y := reconstruct frame kid y_raw in
  match
    (let! det_q := getitem kid (det_offset_dict self !! kid) in
     detector_radec boresight_r det_q)
  with
  | inl e => (inl e, self)
  | inr (ra_det, dec_det) =>
      match histogram2d dec_det ra_det (dec_edges self) (ra_edges self) (Some y) with
      | inl e => (inl e, self)
      | inr hist =>
          let self := set_sky_map (grid_add Rplus (sky_map self) hist) self in
          match histogram2d dec_det ra_det (dec_edges self) (ra_edges self) None with
          | inl e => (inl e, self)
          | inr hits =>
              (inr (),
               set_hits_map
                 (grid_add Z.add (hits_map self) (map (map int_trunc) hits)) self)
          end
      end
  end.

(** [for kid in kids: ...] over the entries of [frame["signal"]], in the
    order in which the mapping lists its keys. *)
Fixpoint scan_loop (frame : G3Frame) (boresight_r : list quat)
    (raw_signal : list (string * list R)) (self : QuickMapMaker)
  : (exn + ()) * QuickMapMaker :=
  match raw_signal with
  | [] => (inr (), self)
  | (kid, y_raw) :: rest =>
      match bin_detector frame boresight_r kid y_raw self with
      | (inl e, self) => (inl e, self)
      | (inr _, self) => scan_loop frame boresight_r rest self
      end
  end.

(** What a scan frame yields before the loop starts. *)
Definition scan_inputs (frame : G3Frame)
  : exn + (list (string * list R) * list quat) :=
  let! raw_signal := getitem "signal" (signal frame) in
  let! boresight_q := getitem "shared_boresight_radec" (shared_boresight_radec frame) in
  let! boresight_r := mapM Rotation.from_quat (map vector_first boresight_q) in
  inr (raw_signal, boresight_r).

(** [{name: quat for name, quat in zip(names, quats)}] *)
Definition dict_of_zip (names : list string) (quats : list quat)
  : gmap string quat :=
  foldl (fun d '(name, quat) => <[name := quat]> d) ∅ (zip names quats).

(** The [with h5py.File(...)] block: the two columns, when readable. *)
Definition load_focalplane (frame : G3Frame) : exn + gmap string quat :=
  let! blob := getitem "focalplane" (focalplane frame) in
  match blob with
  | Unreadable => inl OSError
  | FocalPlane names quats => inr (dict_of_zip names quats)
  end.

Definition zeros_like (a : list (list R)) : list (list R) :=
  map (map (fun _ => 0)) a.

(** [final_map] of the end-of-processing branch. *)
Definition final_map (self : QuickMapMaker) : list (list R) :=
  let hitmask := map (map (fun h => bool_decide (0 < h)%Z)) (hits_map self) in
  mask_assign (zeros_like (sky_map self)) hitmask
              (mask_select (sky_map self) hitmask).

(** [a[0]] and [a[-1]] *)
Definition first_item (a : list R) : exn + R :=
  match head a with Some e => inr e | None => inl IndexError end.
Definition last_item (a : list R) : exn + R :=
  match last a with Some e => inr e | None => inl IndexError end.

Definition map_extent (self : QuickMapMaker) : exn + (R * R * R * R) :=
  let! r0 := first_item (ra_edges self) in
  let! r1 := last_item (ra_edges self) in
  let! d0 := first_item (dec_edges self) in
  let! d1 := last_item (dec_edges self) in
  inr (r0, r1, d0, d1).

(** [QuickMapMaker.Process] *)
Definition Process (self : QuickMapMaker) (frame : G3Frame) : outcome :=
  if decide (type frame = Calibration) then
    match load_focalplane frame with
    | inl e => {| returned := inl e; self_after := self; shown := None |}
    | inr d =>
        {| returned := inr (Some frame);
           self_after := set_det_offset_dict d self; shown := None |}
    end
  else if decide (type frame = Scan) then
    match scan_inputs frame with
    | inl e => {| returned := inl e; self_after := self; shown := None |}
    | inr (raw_signal, boresight_r) =>
        match scan_loop frame boresight_r raw_signal self with
        | (inl e, self) => {| returned := inl e; self_after := self; shown := None |}
        | (inr _, self) =>
            {| returned := inr (Some frame); self_after := self; shown := None |}
        end
    end
  else if decide (type frame = EndProcessing) then
    let final_map := final_map self in
    match map_extent self with
    | inl e => {| returned := inl e; self_after := self; shown := None |}
    | inr extent =>
        {| returned := inr (Some frame); self_after := self;
           shown := Some {| image := final_map; extent := extent |} |}
    end
  else
    {| returned := inr None; self_after := self; shown := None |}.

(** ** The class [FrameCounter] (what it prints is given by [prints] below) *)
Module FrameCounter.

Record t : Type := {
  previous_type : option G3FrameType;
  num_repeats : Z
}.

Definition __init__ : t := {| previous_type := None; num_repeats := 0 |}.

Definition Process (self : t) (frame : G3Frame) : option G3Frame * t :=
  let type := type frame in
  if decide (Some type = previous_type self) then
    (None, {| previous_type := Some type;
              num_repeats := (num_repeats self + 1)%Z |})
  else
    (None, {| previous_type := Some type; num_repeats := 0 |}).

End FrameCounter.

(** ** Auxiliary notions used in the statements *)

(** The squared norm of a quaternion. *)
Definition sumsq (q : quat) : R :=
  q0 q * q0 q + q1 q * q1 q + q2 q * q2 q + q3 q * q3 q.

(** [a[i][j]], when the indices are in range. *)
Definition cell {A : Type} (a : list (list A)) (i j : nat) : option A :=
  a !! i ≫= (fun row => row !! j).

(** [a.shape == (rows, cols)] *)
Definition shape {A : Type} (rows cols : nat) (a : list (list A)) : Prop :=
  length a = rows /\ Forall (fun row => length row = cols) a.

(** The two grids have the shape that the edges give them, as after
    [__init__]. *)
Definition wf (self : QuickMapMaker) : Prop :=
  dec_edges self <> [] /\ ra_edges self <> [] /\
  shape (pred (length (dec_edges self))) (pred (length (ra_edges self)))
        (sky_map self) /\
  shape (pred (length (dec_edges self))) (pred (length (ra_edges self)))
        (hits_map self).

Definition sumZ (l : list Z) : Z := foldr Z.add 0%Z l.

(** [hits_map.sum()] *)
Definition total (a : list (list Z)) : Z := sumZ (map sumZ a).

(** The binning rule in words: [v] falls in bin [i] iff
    [edges[i] <= v < edges[i+1]], the last bin being closed on the right. *)
Definition in_bin (edges : list R) (i : nat) (v : R) : Prop :=
  exists lo hi : R,
    edges !! i = Some lo /\ edges !! S i = Some hi /\ lo <= v /\
    (v < hi \/ (S (S i) = length edges /\ v = hi)).

(** [v] lies within the range that the edges cover. *)
Definition in_range (edges : list R) (v : R) : bool :=
  match head edges, last edges with
  | Some lo, Some hi =>
      bool_decide (2 <= length edges)%nat
      && (if Rle_dec lo v then true else false)
      && (if Rle_dec v hi then true else false)
  | _, _ => false
  end.

(** A sample (first coordinate, second coordinate, weight) inside the grid. *)
Definition sample_in_range (xedges yedges : list R) (s : R * R * R) : Prop :=
  in_range xedges s.1.1 = true /\ in_range yedges s.1.2 = true.

(** An array entry that holds a count. *)
Definition is_count (c : R) : Prop := exists n : nat, c = INR n.

(** How many of the pointings of detector [kid] lie inside the grid. *)
Definition samples_in_range (self : QuickMapMaker) (boresight_r : list quat)
    (kid : string) : nat :=
  match det_offset_dict self !! kid with
  | Some det_q =>
      match detector_radec boresight_r det_q with
      | inr (ra_det, dec_det) =>
          length (filter (fun p : R * R =>
                            in_range (dec_edges self) p.1 = true /\
                            in_range (ra_edges self) p.2 = true)
                         (zip dec_det ra_det))
      | inl _ => O
      end
  | None => O
  end.

(** The pointings of all the detectors of a batch that lie inside the
    grid, detector by detector. *)
Definition batch_in_range (self : QuickMapMaker) (boresight_r : list quat)
    (raw_signal : list (string * list R)) : Z :=
  sumZ (map (fun entry : string * list R =>
               Z.of_nat (samples_in_range self boresight_r entry.1))
            raw_signal).

(** The decompression of detector [kid] does not divide by zero.  With a
    gain of 0 NumPy's [y_raw/gain + offset] holds infinities or NaN, and
    raises nothing; these are not real numbers, so what is stated about the
    values of [reconstruct] is stated for frames with this property. *)
Definition finite_gain (frame : G3Frame) (kid : string) : Prop :=
  forall gain offset : R,
    scalars frame !! ("compress_signal_" +:+ kid +:+ "_gain") = Some gain ->
    scalars frame !! ("compress_signal_" +:+ kid +:+ "_offset") = Some offset ->
    gain <> 0.

(** No detector of the batch is decompressed with a zero gain. *)
Definition finite_gains (frame : G3Frame) (raw_signal : list (string * list R))
  : Prop :=
  Forall (fun entry : string * list R => finite_gain frame entry.1) raw_signal.

(** Every reconstructed sample value of the batch is non-negative. *)
Definition nonneg_signal (frame : G3Frame) (raw_signal : list (string * list R))
  : Prop :=
  Forall (fun entry : string * list R =>
            Forall (fun v => 0 <= v) (reconstruct frame entry.1 entry.2))
         raw_signal.

(** ** A small concrete map maker, used for the examples

    A 2 x 2 grid of half-degree pixels centred on (ra, dec) = (0, 90), the
    direction in which an unrotated detector points. *)

(** The identity rotation, vector-first and scalar-first. *)
Definition identity_quat : quat := Quat 0 0 0 1.
Definition identity_boresight : quat := Quat 1 0 0 0.

(** The map maker with calibration table [table], and with sum [s] and hit
    count [h] in the pixel that contains (0, 90). *)
Definition polar_maker (table : gmap string quat) (s : R) (h : Z)
  : QuickMapMaker :=
  {| ra0 := 0; dec0 := 90; xlen := 1; ylen := 1; res := 1 / 2;
     nx := 2; ny := 2;
     ra_edges := [- (1 / 2); 0; 1 / 2];
     dec_edges := [179 / 2; 90; 181 / 2];
     sky_map := [[0; 0]; [0; s]];
     hits_map := [[0; 0]; [0; h]]%Z;
     det_offset_dict := table |}.

(** A scan frame with one boresight sample, the identity. *)
Definition polar_scan (raw_signal : list (string * list R)) : G3Frame :=
  {| type := Scan; focalplane := None; signal := Some raw_signal;
     shared_boresight_radec := Some [identity_boresight];
     scalars := ∅ |}.

(** The same frame when the signal of detector ["A"] is compressed with the
    given gain and offset. *)
Definition compressed_scan (raw_signal : list (string * list R))
    (gain offset : R) : G3Frame :=
  {| type := Scan; focalplane := None; signal := Some raw_signal;
     shared_boresight_radec := Some [identity_boresight];
     scalars := {["compress_signal_A_gain" := gain;
                  "compress_signal_A_offset" := offset]} |}.

(** A scan frame whose signal mapping is empty and which has no boresight
    entry. *)
Definition empty_scan_without_boresight : G3Frame :=
  {| type := Scan; focalplane := None; signal := Some [];
     shared_boresight_radec := None; scalars := ∅ |}.

(** A frame that carries only its type. *)
Definition bare_frame (t : G3FrameType) : G3Frame :=
  {| type := t; focalplane := None; signal := None;
     shared_boresight_radec := None; scalars := ∅ |}.

(** A calibration frame with a readable table. *)
Definition calibration_frame (names : list string) (quats : list quat)
  : G3Frame :=
  {| type := Calibration; focalplane := Some (FocalPlane names quats);
     signal := None; shared_boresight_radec := None; scalars := ∅ |}.

(** The concrete map maker before any scan, calibrated for detector ["A"]
    only, and a batch that also carries the uncalibrated detector ["B"]. *)
Definition calibrated_maker : QuickMapMaker :=
  polar_maker {["A" := identity_quat]} 0 0.

Definition mixed_scan : G3Frame := polar_scan [("A", [5]); ("B", [7])].

(** A batch with one sample of value [w] of detector ["A"]. *)
Definition single_scan (w : R) : G3Frame := polar_scan [("A", [w])].


(** A calibration frame whose blob cannot be read. *)
Definition unreadable_frame : G3Frame :=
  {| type := Calibration; focalplane := Some Unreadable;
     signal := None; shared_boresight_radec := None; scalars := ∅ |}.

(** The pointing vector in the words of the specification: the boresight
    rotation after the detector's offset rotation, applied to (0, 0, 1). *)
Definition boresight_after_offset (boresight offset : quat) : vec3 :=
  (Rotation.apply boresight ∘ Rotation.apply offset) z_axis.

(** The squared length of a vector. *)
Definition norm2 (v : vec3) : R := vx v * vx v + vy v * vy v + vz v * vz v.

(** What a rotation is, independently of quaternions: [v] turned by [angle]
    about the unit vector [axis], counter-clockwise for an observer towards
    whom the axis points (Rodrigues' formula
    [v cos a + (axis x v) sin a + axis (axis . v) (1 - cos a)]). *)
Definition rotate_about (axis : vec3) (angle : R) (v : vec3) : vec3 :=
  let dot := vx axis * vx v + vy axis * vy v + vz axis * vz v in
  Vec3 (vx v * cos angle + (vy axis * vz v - vz axis * vy v) * sin angle
        + vx axis * dot * (1 - cos angle))
       (vy v * cos angle + (vz axis * vx v - vx axis * vz v) * sin angle
        + vy axis * dot * (1 - cos angle))
       (vz v * cos angle + (vx axis * vy v - vy axis * vx v) * sin angle
        + vz axis * dot * (1 - cos angle)).

(** The unit quaternion, vector-first, that stands for that rotation. *)
Definition axis_angle (axis : vec3) (angle : R) : quat :=
  Quat (vx axis * sin (angle / 2)) (vy axis * sin (angle / 2))
       (vz axis * sin (angle / 2)) (cos (angle / 2)).

Definition x_axis : vec3 := Vec3 1 0 0.

(** A boresight sample that is a quarter turn about the z axis
    (scalar-first, not normalised), and a calibration quaternion that is a
    quarter turn about the x axis (vector-first, not normalised). *)
Definition quarter_turn_z_boresight : quat := Quat 1 0 0 1.
Definition quarter_turn_x_offset : quat := Quat 1 0 0 1.

(** A scan frame with that one boresight sample. *)
Definition turned_scan (raw_signal : list (string * list R)) : G3Frame :=
  {| type := Scan; focalplane := None; signal := Some raw_signal;
     shared_boresight_radec := Some [quarter_turn_z_boresight];
     scalars := ∅ |}.

(** The scenario of the specification: a 2 x 2 grid of half-degree pixels
    centred on (ra, dec) = (0, 0). *)
Definition equator_maker (table : gmap string quat) (s : R) (h : Z)
  : QuickMapMaker :=
  {| ra0 := 0; dec0 := 0; xlen := 1; ylen := 1; res := 1 / 2;
     nx := 2; ny := 2;
     ra_edges := [- (1 / 2); 0; 1 / 2];
     dec_edges := [- (1 / 2); 0; 1 / 2];
     sky_map := [[0; 0]; [0; s]];
     hits_map := [[0; 0]; [0; h]]%Z;
     det_offset_dict := table |}.

(** A quarter turn about the y axis, scalar-first and not normalised: it
    takes (0, 0, 1) to (1, 0, 0). *)
Definition quarter_turn_boresight : quat := Quat 1 0 1 0.

(** A scan frame with that one boresight sample. *)
Definition equator_scan (raw_signal : list (string * list R)) : G3Frame :=
  {| type := Scan; focalplane := None; signal := Some raw_signal;
     shared_boresight_radec := Some [quarter_turn_boresight];
     scalars := ∅ |}.

(** ** Notions used in the further properties *)

(** The object after [Process] has been called on the frames of a stream,
    one after the other, whatever each call returned or raised. *)
Definition process_all (self : QuickMapMaker) (frames : list G3Frame)
  : QuickMapMaker :=
  foldl (fun s frame => self_after (Process s frame)) self frames.

(** Sample [s] lands in pixel [(i, j)]. *)
Definition lands (xedges yedges : list R) (xlast ylast : R) (i j : nat)
    (s : R * R * R) : bool :=
  match core_bin xedges xlast s.1.1, core_bin yedges ylast s.1.2 with
  | Some i', Some j' => (i =? i')%nat && (j =? j')%nat
  | _, _ => false
  end.

(** The sum of the weights of the samples that land in pixel [(i, j)]. *)
Definition pixel_weight (xedges yedges : list R) (xlast ylast : R) (i j : nat)
    (samples : list (R * R * R)) : R :=
  foldr (fun s acc => (if lands xedges yedges xlast ylast i j s then s.2 else 0)
                      + acc) 0 samples.

(** The number of the samples that land in pixel [(i, j)]. *)
Definition pixel_count (xedges yedges : list R) (xlast ylast : R) (i j : nat)
    (samples : list (R * R * R)) : nat :=
  length (filter (fun s => lands xedges yedges xlast ylast i j s = true) samples).

(** No pixel has a negative hit count, and a pixel without hits has sum 0. *)
Definition unhit_is_zero (self : QuickMapMaker) : Prop :=
  forall i j h s,
    cell (hits_map self) i j = Some h -> cell (sky_map self) i j = Some s ->
    (0 <= h)%Z /\ (h = 0%Z -> s = 0).

(** [k * q], component by component. *)
Definition scale_quat (k : R) (q : quat) : quat :=
  Quat (k * q0 q) (k * q1 q) (k * q2 q) (k * q3 q).

(** The number of leading frames of [frames] that have type [t]. *)
Fixpoint run_length (t : G3FrameType) (frames : list G3Frame) : nat :=
  match frames with
  | f :: frames' =>
      if decide (type f = t) then S (run_length t frames') else O
  | [] => O
  end.

(** The number of frames of type [t] that end the stream [frames]. *)
Definition trailing_run (t : G3FrameType) (frames : list G3Frame) : nat :=
  run_length t (reverse frames).

(** The counter after [FrameCounter.Process] has been called on the frames
    of a stream, one after the other. *)
Definition count_all (self : FrameCounter.t) (frames : list G3Frame)
  : FrameCounter.t :=
  foldl (fun s frame => (FrameCounter.Process s frame).2) self frames.

(** What one call of [FrameCounter.Process] writes to the terminal: an empty
    line ([print()]), or the frame type followed by a carriage return, with
    the text [(x n)] after it when a count is given. *)
Inductive printed : Type :=
  | EmptyLine
  | TypeLine (t : G3FrameType) (times : option Z).

(** The output of [FrameCounter.Process self frame]; the count is printed
    after [num_repeats] has been incremented. *)
Definition prints (self : FrameCounter.t) (frame : G3Frame) : list printed :=
  let type := type frame in
  if decide (Some type = FrameCounter.previous_type self) then
    [TypeLine type (Some (FrameCounter.num_repeats self + 1 + 1)%Z)]
  else
    EmptyLine :: TypeLine type None ::
      (if decide (type = EndProcessing) then [EmptyLine] else []).

(** A stream for the concrete map maker: calibration, one scan, the end. *)
Definition polar_stream : list G3Frame :=
  [calibration_frame ["A"] [identity_quat]; single_scan 5;
   bare_frame EndProcessing].

(** The concrete map maker calibrated for the detectors ["A"] and ["B"]. *)
Definition two_detector_maker : QuickMapMaker :=
  polar_maker {["A" := identity_quat; "B" := identity_quat]} 0 0.

(** The float nearest to 0.01, the default resolution: [0.01] as Python
    reads it. *)
Definition double_0_01 : R := 5764607523034235 / 576460752303423488.

(** The floats nearest to 0.3 and to 0.1. *)
Definition double_0_3 : R := 5404319552844595 / 18014398509481984.
Definition double_0_1 : R := 7205759403792794 / 72057594037927936.

(** Evaluates the integer expressions under [IZR]. *)
Ltac eval_IZR :=
  repeat match goal with
    | |- context [IZR ?z] =>
        lazymatch z with
        | Z0 => fail | Zpos _ => fail | Zneg _ => fail
        | _ => let z' := eval vm_compute in z in
               progress change (IZR z) with (IZR z')
        end
    end.

(** Settles the comparisons between numerals that a concrete run meets. *)
Ltac decide_reals :=
  repeat match goal with
    | |- context [Rle_dec ?a ?b] =>
        destruct (Rle_dec a b); [try (exfalso; lra)|try (exfalso; lra)]
    | |- context [Rlt_dec ?a ?b] =>
        destruct (Rlt_dec a b); [try (exfalso; lra)|try (exfalso; lra)]
    | |- context [Req_dec_T ?a ?b] =>
        destruct (Req_dec_T a b); [try (exfalso; lra)|try (exfalso; lra)]
    end.

(** * Properties *)

(** ** Real-number helpers *)

Lemma np_mod_bounds (x m : R) : 0 < m -> 0 <= np_mod x m < m.
Proof.
  intros Hm. unfold np_mod.
  destruct (base_Int_part (x / m)) as [Hlo Hhi].
  assert (Hx : x = x / m * m) by (field; lra).
  set (k := IZR (Int_part (x / m))) in *.
  split.
  - assert (k * m <= x / m * m) by (apply Rmult_le_compat_r; lra). lra.
  - assert (x / m * m < (k + 1) * m) by (apply Rmult_lt_compat_r; lra). lra.
Qed.

Lemma np_mod_shift (x m : R) : exists k : Z, np_mod x m = x + m * IZR k.
Proof.
  exists (- Int_part (x / m))%Z. unfold np_mod. rewrite opp_IZR. ring.
Qed.

Lemma Int_part_IZR (z : Z) : Int_part (IZR z) = z.
Proof. symmetry. apply Int_part_spec. lra. Qed.

Lemma int_trunc_IZR (z : Z) : int_trunc (IZR z) = z.
Proof.
  unfold int_trunc. destruct (Rle_dec 0 (IZR z)).
  - apply Int_part_IZR.
  - rewrite <- opp_IZR, Int_part_IZR. lia.
Qed.

Lemma int_trunc_INR (n : nat) : int_trunc (INR n) = Z.of_nat n.
Proof. rewrite INR_IZR_INZ. apply int_trunc_IZR. Qed.

Lemma hyp_pos (t : R) : 0 < sqrt (1 + t²).
Proof. apply sqrt_lt_R0. unfold Rsqr. nra. Qed.

Lemma radius_pos (x y : R) : 0 < x -> sqrt (x * x + y * y) = x * sqrt (1 + (y / x)²).
Proof.
  intros Hx. pose proof (hyp_pos (y / x)) as Hh.
  apply sqrt_lem_1; [nra|nra|].
  replace (x * sqrt (1 + (y / x)²) * (x * sqrt (1 + (y / x)²)))
    with (x * x * (sqrt (1 + (y / x)²) * sqrt (1 + (y / x)²))) by ring.
  rewrite sqrt_sqrt by (unfold Rsqr; nra). unfold Rsqr. field. lra.
Qed.

Lemma radius_neg (x y : R) : x < 0 -> sqrt (x * x + y * y) = - x * sqrt (1 + (y / x)²).
Proof.
  intros Hx. pose proof (hyp_pos (y / x)) as Hh.
  apply sqrt_lem_1; [nra|nra|].
  replace (- x * sqrt (1 + (y / x)²) * (- x * sqrt (1 + (y / x)²)))
    with (x * x * (sqrt (1 + (y / x)²) * sqrt (1 + (y / x)²))) by ring.
  rewrite sqrt_sqrt by (unfold Rsqr; nra). unfold Rsqr. field. lra.
Qed.

(** [arctan2 y x] is the angle of the point (x, y), in (-pi, pi]. *)
Lemma arctan2_angle (y x : R) :
  x <> 0 \/ y <> 0 ->
  sqrt (x * x + y * y) * cos (arctan2 y x) = x /\
  sqrt (x * x + y * y) * sin (arctan2 y x) = y /\
  - PI < arctan2 y x <= PI.
Proof.
  intros Hxy. unfold arctan2.
  pose proof PI_RGT_0 as Hpi.
  pose proof (atan_bound (y / x)) as Hb.
  pose proof (hyp_pos (y / x)) as Hh.
  destruct (Rlt_dec 0 x) as [Hx|Hx].
  - rewrite radius_pos, cos_atan, sin_atan by exact Hx.
    repeat split; try lra; field; lra.
  - destruct (Rlt_dec x 0) as [Hx'|Hx'].
    + destruct (Rle_dec 0 y) as [Hy|Hy].
      * rewrite radius_neg, neg_cos, neg_sin, cos_atan, sin_atan by exact Hx'.
        split; [field; lra|]. split; [field; lra|].
        assert (atan (y / x) <= 0); [|lra].
        destruct (Req_dec y 0) as [->|Hy0].
        -- unfold Rdiv. rewrite Rmult_0_l, atan_0. lra.
        -- left. rewrite <- atan_0. apply atan_increasing.
           apply Rmult_lt_reg_r with (- x); [lra|].
           replace (y / x * - x) with (- y) by (field; lra). lra.
      * unfold Rminus. rewrite radius_neg by exact Hx'.
        replace (atan (y / x) + - PI) with (- (- atan (y / x) + PI)) by ring.
        rewrite cos_neg, sin_neg, neg_cos, neg_sin, cos_neg, sin_neg, cos_atan, sin_atan.
        split; [field; lra|]. split; [field; lra|].
        assert (0 < atan (y / x)); [|lra].
        rewrite <- atan_0. apply atan_increasing.
        apply Rmult_lt_reg_r with (- x); [lra|].
        replace (y / x * - x) with (- y) by (field; lra). lra.
    + assert (x = 0) by lra. subst x.
      destruct (Rlt_dec 0 y) as [Hy|Hy].
      * replace (0 * 0 + y * y) with (y * y) by ring.
        rewrite sqrt_square, cos_PI2, sin_PI2 by lra. repeat split; lra.
      * destruct (Rlt_dec y 0) as [Hy'|Hy'].
        -- replace (0 * 0 + y * y) with (- y * - y) by ring.
           rewrite sqrt_square, cos_neg, sin_neg, cos_PI2, sin_PI2 by lra.
           repeat split; lra.
        -- exfalso. destruct Hxy; lra.
Qed.

(** ** Python floats *)

Lemma bpow_pos (e : Z) : 0 < bpow e.
Proof. apply powerRZ_lt. lra. Qed.

Lemma bpow_add (a b : Z) : bpow (a + b) = bpow a * bpow b.
Proof. apply powerRZ_add. lra. Qed.

Lemma bpow_0 : bpow 0 = 1.
Proof. reflexivity. Qed.

Lemma bpow_opp (a : Z) : bpow (- a) = / bpow a.
Proof. apply powerRZ_neg'. Qed.

Lemma bpow_cancel (a : Z) : bpow (- a) * bpow a = 1.
Proof. rewrite <- bpow_add. replace (- a + a)%Z with 0%Z by lia. reflexivity. Qed.

Lemma bpow_IZR (k : Z) : (0 <= k)%Z -> bpow k = IZR (2 ^ k).
Proof.
  intros Hk. unfold bpow. rewrite <- (Z2Nat.id k Hk) at 1.
  rewrite <- pow_powerRZ, pow_IZR, Z2Nat.id by exact Hk. reflexivity.
Qed.

Lemma bpow_neg_IZR (k : Z) : (0 <= k)%Z -> bpow (- k) = / IZR (2 ^ k).
Proof. intros Hk. rewrite bpow_opp, bpow_IZR by exact Hk. reflexivity. Qed.

Lemma bpow_lt (a b : Z) : (a < b)%Z -> bpow a < bpow b.
Proof.
  intros H. unfold bpow. rewrite !powerRZ_Rpower by lra.
  apply Rpower_lt; [lra|]. apply IZR_lt, H.
Qed.

Lemma bpow_le (a b : Z) : (a <= b)%Z -> bpow a <= bpow b.
Proof.
  intros H. destruct (Z.eq_dec a b) as [->|Hn]; [lra|].
  left. apply bpow_lt. lia.
Qed.

Lemma bpow_lt_inv (a b : Z) : bpow a < bpow b -> (a < b)%Z.
Proof.
  intros H. destruct (Z_lt_le_dec a b) as [|Hle]; [assumption|].
  apply bpow_le in Hle. lra.
Qed.

(** The nearest integer. *)

Lemma Rabs_le_inv (a b : R) : Rabs a <= b -> - b <= a <= b.
Proof. unfold Rabs. destruct (Rcase_abs a); lra. Qed.

Lemma Rabs_lt_inv (a b : R) : Rabs a < b -> - b < a < b.
Proof. unfold Rabs. destruct (Rcase_abs a); lra. Qed.

Lemma round_half_even_error (x : R) :
  Rabs (IZR (round_half_even x) - x) <= 1 / 2.
Proof.
  unfold round_half_even. destruct (base_Int_part x) as [Hlo Hhi].
  set (n := Int_part x) in *.
  destruct (Rlt_dec (x - IZR n) (1 / 2)) as [H1|H1].
  - apply Rabs_le. lra.
  - destruct (Rlt_dec (1 / 2) (x - IZR n)) as [H2|H2].
    + rewrite plus_IZR. apply Rabs_le. lra.
    + destruct (Z.even n); [|rewrite plus_IZR]; apply Rabs_le; lra.
Qed.

Lemma round_half_even_near (x : R) (n : Z) :
  Rabs (x - IZR n) < 1 / 2 -> round_half_even x = n.
Proof.
  intros H. apply Rabs_lt_inv in H.
  pose proof (round_half_even_error x) as He.
  apply Rabs_le_inv in He.
  apply Z.le_antisymm.
  - apply Z.lt_succ_r, lt_IZR. rewrite succ_IZR. lra.
  - apply Z.lt_succ_r, lt_IZR. rewrite succ_IZR. lra.
Qed.

Lemma round_half_even_IZR (n : Z) : round_half_even (IZR n) = n.
Proof.
  apply round_half_even_near. replace (IZR n - IZR n) with 0 by ring.
  rewrite Rabs_R0. lra.
Qed.

Lemma round_half_even_ge (x : R) (n : Z) :
  IZR n <= x -> (n <= round_half_even x)%Z.
Proof.
  intros H. unfold round_half_even. destruct (base_Int_part x) as [Hlo Hhi].
  assert (Hn : (n <= Int_part x)%Z).
  { apply Z.lt_succ_r, lt_IZR. rewrite succ_IZR. lra. }
  set (k := Int_part x) in *.
  destruct (Rlt_dec (x - IZR k) (1 / 2)); [exact Hn|].
  destruct (Rlt_dec (1 / 2) (x - IZR k)); [lia|].
  destruct (Z.even k); lia.
Qed.

Lemma round_half_even_le (x : R) (n : Z) :
  x <= IZR n -> (round_half_even x <= n)%Z.
Proof.
  intros H. unfold round_half_even. destruct (base_Int_part x) as [Hlo Hhi].
  set (k := Int_part x) in *.
  assert (Hk : (k <= n)%Z) by (apply le_IZR; lra).
  destruct (Rlt_dec (x - IZR k) (1 / 2)) as [H1|H1]; [exact Hk|].
  assert (Hk' : (k + 1 <= n)%Z).
  { apply Z.lt_succ_r, lt_IZR. rewrite succ_IZR, plus_IZR. lra. }
  destruct (Rlt_dec (1 / 2) (x - IZR k)); [exact Hk'|].
  destruct (Z.even k); lia.
Qed.

(** The binade. *)

Lemma ln2_pos : 0 < ln 2.
Proof. pose proof ln_lt_2. lra. Qed.

Lemma mag_spec (x : R) :
  x <> 0 -> bpow (mag x - 1) <= Rabs x < bpow (mag x).
Proof.
  intros Hx. pose proof (Rabs_pos_lt x Hx) as Ha. pose proof ln2_pos as H2.
  unfold mag. destruct (base_Int_part (ln (Rabs x) / ln 2)) as [Hlo Hhi].
  set (f := Int_part (ln (Rabs x) / ln 2)) in *.
  replace (f + 1 - 1)%Z with f by lia.
  assert (Ex : Rabs x = Rpower 2 (ln (Rabs x) / ln 2)).
  { unfold Rpower. replace (ln (Rabs x) / ln 2 * ln 2) with (ln (Rabs x))
      by (field; lra). symmetry. apply exp_ln, Ha. }
  unfold bpow. rewrite !powerRZ_Rpower by lra. rewrite Ex at 1 2. split.
  - apply Rle_Rpower; lra.
  - apply Rpower_lt; [lra|]. rewrite plus_IZR. lra.
Qed.

Lemma mag_unique (x : R) (e : Z) :
  bpow (e - 1) <= Rabs x < bpow e -> mag x = e.
Proof.
  intros [Hlo Hhi].
  assert (Hx : x <> 0).
  { intros ->. rewrite Rabs_R0 in Hlo. pose proof (bpow_pos (e - 1)). lra. }
  destruct (mag_spec x Hx) as [Mlo Mhi].
  assert (H1 : (e - 1 < mag x)%Z) by (apply bpow_lt_inv; lra).
  assert (H2 : (mag x - 1 < e)%Z) by (apply bpow_lt_inv; lra).
  lia.
Qed.

(** Rounding to binary64. *)

Lemma round_binary64_0 : round_binary64 0 = 0.
Proof.
  unfold round_binary64. rewrite Rmult_0_l.
  change 0 with (IZR 0) at 1. rewrite round_half_even_IZR. simpl. ring.
Qed.

Lemma scaled_bpow (x : R) (a : Z) : x * bpow (- a) * bpow a = x.
Proof. rewrite Rmult_assoc, bpow_cancel. ring. Qed.

Lemma IZR_bpow (m k u : Z) :
  (u <= k)%Z -> IZR m * bpow k * bpow (- u) = IZR (m * 2 ^ (k - u)).
Proof.
  intros H. rewrite mult_IZR, <- bpow_IZR by lia.
  replace (k - u)%Z with (k + - u)%Z by lia. rewrite bpow_add. ring.
Qed.

(** A number with at most 53 significant bits, none below [2^-1074], is
    a float: rounding leaves it as it is. *)
Lemma round_binary64_float (m k : Z) :
  (Z.abs m < 2 ^ 53)%Z -> (-1074 <= k)%Z ->
  round_binary64 (IZR m * bpow k) = IZR m * bpow k.
Proof.
  intros Hm Hk. destruct (Z.eq_dec m 0%Z) as [->|Hm0].
  { rewrite Rmult_0_l. apply round_binary64_0. }
  set (x := IZR m * bpow k).
  assert (Hx : x <> 0).
  { unfold x. apply Rmult_integral_contrapositive_currified.
    - intros E. apply eq_IZR in E. contradiction.
    - pose proof (bpow_pos k). lra. }
  destruct (mag_spec x Hx) as [Mlo _].
  assert (Hu : (ulp_exponent x <= k)%Z).
  { unfold ulp_exponent. apply Z.max_lub; [|exact Hk].
    assert (H : (mag x - 1 < 53 + k)%Z); [|lia].
    apply bpow_lt_inv. eapply Rle_lt_trans; [exact Mlo|].
    unfold x. rewrite Rabs_mult, (Rabs_pos_eq (bpow k)), bpow_add
      by (left; apply bpow_pos).
    apply Rmult_lt_compat_r; [apply bpow_pos|].
    rewrite bpow_IZR, <- abs_IZR by lia. apply IZR_lt, Hm. }
  unfold round_binary64. fold x. set (u := ulp_exponent x) in *.
  unfold x at 1. rewrite (IZR_bpow m k u Hu), round_half_even_IZR.
  rewrite <- (IZR_bpow m k u Hu). apply scaled_bpow.
Qed.

Lemma round_binary64_IZR (n : Z) :
  (Z.abs n < 2 ^ 53)%Z -> round_binary64 (IZR n) = IZR n.
Proof.
  intros Hn. pose proof (round_binary64_float n 0 Hn ltac:(lia)) as H.
  rewrite bpow_0, Rmult_1_r in H. exact H.
Qed.

Lemma round_binary64_nonneg (x : R) : 0 <= x -> 0 <= round_binary64 x.
Proof.
  intros Hx. unfold round_binary64.
  apply Rmult_le_pos; [|left; apply bpow_pos].
  apply IZR_le, round_half_even_ge.
  apply Rmult_le_pos; [exact Hx|left; apply bpow_pos].
Qed.

(** Rounding does not cross a power of two. *)
Lemma round_binary64_ge_bpow (x : R) (k : Z) :
  (-1074 <= k)%Z -> bpow k <= x -> bpow k <= round_binary64 x.
Proof.
  intros Hk Hx. pose proof (bpow_pos k) as Hp.
  assert (Hx0 : x <> 0) by lra.
  destruct (mag_spec x Hx0) as [Mlo Mhi]. rewrite Rabs_pos_eq in Mlo, Mhi by lra.
  assert (He : (k < mag x)%Z) by (apply bpow_lt_inv; lra).
  assert (Hu : (ulp_exponent x <= mag x - 1)%Z).
  { unfold ulp_exponent. lia. }
  apply Rle_trans with (bpow (mag x - 1)); [apply bpow_le; lia|].
  unfold round_binary64. set (u := ulp_exponent x) in *.
  rewrite <- (scaled_bpow (bpow (mag x - 1)) u).
  apply Rmult_le_compat_r; [left; apply bpow_pos|].
  pose proof (IZR_bpow 1 (mag x - 1) u Hu) as E. rewrite Rmult_1_l in E.
  rewrite E. apply IZR_le, round_half_even_ge. rewrite <- E.
  apply Rmult_le_compat_r; [left; apply bpow_pos|exact Mlo].
Qed.

Lemma round_binary64_le_bpow (x : R) (k : Z) :
  (-1074 <= k)%Z -> 0 <= x <= bpow k -> round_binary64 x <= bpow k.
Proof.
  intros Hk [Hx0 Hx]. pose proof (bpow_pos k) as Hp.
  destruct (Req_dec x 0) as [->|Hn]; [rewrite round_binary64_0; lra|].
  destruct (mag_spec x Hn) as [Mlo Mhi]. rewrite Rabs_pos_eq in Mlo, Mhi by lra.
  assert (He : (mag x - 1 <= k)%Z).
  { destruct (Z_le_gt_dec (mag x - 1) k) as [|Hgt]; [assumption|].
    assert (bpow k < bpow (mag x - 1)) by (apply bpow_lt; lia). lra. }
  assert (Hu : (ulp_exponent x <= k)%Z) by (unfold ulp_exponent; lia).
  unfold round_binary64. set (u := ulp_exponent x) in *.
  rewrite <- (scaled_bpow (bpow k) u).
  apply Rmult_le_compat_r; [left; apply bpow_pos|].
  pose proof (IZR_bpow 1 k u Hu) as E. rewrite Rmult_1_l in E.
  rewrite E. apply IZR_le, round_half_even_le. rewrite <- E.
  apply Rmult_le_compat_r; [left; apply bpow_pos|exact Hx].
Qed.

(** The relative error of rounding a number in the normal range is at most
    [2^-53]. *)
Lemma round_binary64_error (x : R) :
  bpow (-1022) <= x -> Rabs (round_binary64 x - x) <= x * bpow (-53).
Proof.
  intros Hx. pose proof (bpow_pos (-1022)) as Hp.
  assert (Hx0 : x <> 0) by lra.
  destruct (mag_spec x Hx0) as [Mlo Mhi]. rewrite Rabs_pos_eq in Mlo, Mhi by lra.
  assert (He : (-1022 < mag x)%Z) by (apply bpow_lt_inv; lra).
  assert (Hu : ulp_exponent x = (mag x - 53)%Z) by (unfold ulp_exponent; lia).
  unfold round_binary64. rewrite Hu. set (u := (mag x - 53)%Z).
  pose proof (round_half_even_error (x * bpow (- u))) as Herr.
  set (n := IZR (round_half_even (x * bpow (- u)))) in *.
  replace (n * bpow u - x) with ((n - x * bpow (- u)) * bpow u)
    by (rewrite Rmult_minus_distr_r, scaled_bpow; reflexivity).
  rewrite Rabs_mult, (Rabs_pos_eq (bpow u)) by (left; apply bpow_pos).
  apply Rle_trans with (1 / 2 * bpow u).
  { apply Rmult_le_compat_r; [left; apply bpow_pos|exact Herr]. }
  apply Rle_trans with (bpow (mag x - 1) * bpow (-53)).
  - replace (mag x - 1)%Z with (u + 52)%Z by (unfold u; lia).
    replace (bpow (-53)) with (/ IZR (2 ^ 53))
      by (symmetry; apply (bpow_neg_IZR 53); lia).
    rewrite bpow_add, (bpow_IZR 52) by lia.
    pose proof (bpow_pos u). simpl. lra.
  - apply Rmult_le_compat_r; [left; apply bpow_pos|exact Mlo].
Qed.

(** Rounding, computed: the binade of [x] and the multiple of its last bit
    that is nearest to it. *)
Lemma round_binary64_near (x : R) (e m : Z) :
  bpow (e - 1) <= Rabs x < bpow e -> (-1074 <= e - 53)%Z ->
  Rabs (x * bpow (53 - e) - IZR m) < 1 / 2 ->
  round_binary64 x = IZR m * bpow (e - 53).
Proof.
  intros Hb He Hm. unfold round_binary64, ulp_exponent.
  rewrite (mag_unique x e Hb), Z.max_l by lia.
  replace (- (e - 53))%Z with (53 - e)%Z by lia.
  rewrite (round_half_even_near _ m Hm). reflexivity.
Qed.

Lemma to_float_inv (x r : R) :
  to_float x = Finite r -> r = round_binary64 x /\ Rabs r < bpow 1024.
Proof.
  unfold to_float. destruct (Rlt_dec _ _) as [H|]; [|discriminate].
  intros [= <-]. auto.
Qed.

Lemma to_float_small (x : R) :
  0 <= x <= bpow 1023 -> to_float x = Finite (round_binary64 x).
Proof.
  intros Hx. unfold to_float.
  pose proof (round_binary64_nonneg x (proj1 Hx)) as H0.
  pose proof (round_binary64_le_bpow x 1023 ltac:(lia) Hx) as H1.
  pose proof (bpow_lt 1023 1024 ltac:(lia)) as H2.
  destruct (Rlt_dec _ _) as [|Hn]; [reflexivity|].
  exfalso. apply Hn. rewrite Rabs_pos_eq; lra.
Qed.

Lemma to_float_IZR (n : Z) : (0 <= n < 2 ^ 53)%Z -> to_float (IZR n) = Finite (IZR n).
Proof.
  intros Hn. rewrite to_float_small.
  - rewrite round_binary64_IZR by lia. reflexivity.
  - split; [apply IZR_le; lia|].
    apply Rle_trans with (bpow 53); [|apply bpow_le; lia].
    rewrite bpow_IZR by lia. apply IZR_le. lia.
Qed.

(** With the default arguments [xlen = 1.0] and [res = 0.01] the quotient
    that Python computes is 100, though the exact quotient of the two
    floats lies below 100. *)
Example default_quotient :
  to_float (1 / double_0_01) = Finite 100 /\ Int_part (1 / double_0_01) = 99%Z.
Proof.
  assert (Hq : 1 / double_0_01 = 576460752303423488 / 5764607523034235)
    by (unfold double_0_01; field).
  split.
  - assert (Hr : round_binary64 (1 / double_0_01) = 100).
    { rewrite (round_binary64_near _ 7 (100 * 2 ^ 46)).
      - replace (bpow (7 - 53)) with (/ IZR (2 ^ 46))
          by (symmetry; apply (bpow_neg_IZR 46); lia).
        eval_IZR. field.
      - rewrite Hq, Rabs_pos_eq by lra.
        rewrite !bpow_IZR by lia. eval_IZR. lra.
      - lia.
      - rewrite Hq, bpow_IZR by lia. eval_IZR. apply Rabs_def1; lra. }
    unfold to_float. rewrite Hr.
    destruct (Rlt_dec _ _) as [|Hn]; [reflexivity|].
    exfalso. apply Hn. rewrite Rabs_pos_eq by lra.
    apply Rlt_le_trans with (bpow 7); [rewrite bpow_IZR by lia; eval_IZR; lra|].
    apply bpow_le. lia.
  - symmetry. apply Int_part_spec. rewrite Hq. lra.
Qed.

(** [0.3 / 0.1] is the float just below 3, so that [int] gives 2. *)
Example quotient_0_3_by_0_1 :
  to_float (double_0_3 / double_0_1) = Finite (3 - bpow (-51)) /\
  int_trunc (3 - bpow (-51)) = 2%Z.
Proof.
  assert (Hb : bpow (-51) = / 2251799813685248)
    by (apply (bpow_neg_IZR 51); lia).
  assert (Hq : double_0_3 / double_0_1
               = 21617278211378380 / 7205759403792794)
    by (unfold double_0_3, double_0_1; field).
  split.
  - assert (Hr : round_binary64 (double_0_3 / double_0_1) = 3 - bpow (-51)).
    { rewrite (round_binary64_near _ 2 6755399441055743).
      - change (2 - 53)%Z with (-51)%Z. rewrite Hb. field.
      - rewrite Hq, Rabs_pos_eq by lra.
        rewrite !bpow_IZR by lia. eval_IZR. lra.
      - lia.
      - rewrite Hq, bpow_IZR by lia. eval_IZR. apply Rabs_def1; lra. }
    unfold to_float. rewrite Hr, Hb.
    destruct (Rlt_dec _ _) as [|Hn]; [reflexivity|].
    exfalso. apply Hn. rewrite Rabs_pos_eq by lra.
    apply Rlt_le_trans with (bpow 2); [rewrite bpow_IZR by lia; eval_IZR; lra|].
    apply bpow_le. lia.
  - rewrite Hb. unfold int_trunc.
    destruct (Rle_dec 0 (3 - / 2251799813685248)) as [_|Hn]; [|exfalso; lra].
    symmetry. apply Int_part_spec. lra.
Qed.

(** ** Rotations *)

Lemma sumsq_nonneg (q : quat) : 0 <= sumsq q.
Proof. unfold sumsq. nra. Qed.

Lemma norm_sumsq (q : quat) : Rotation.norm q * Rotation.norm q = sumsq q.
Proof. apply sqrt_sqrt, sumsq_nonneg. Qed.

Lemma norm_nonneg (q : quat) : 0 <= Rotation.norm q.
Proof. apply sqrt_pos. Qed.

Lemma norm_vector_first (q : quat) :
  Rotation.norm (vector_first q) = Rotation.norm q.
Proof. unfold Rotation.norm, vector_first. simpl. f_equal. ring. Qed.

Lemma norm_unit_iff (q : quat) : Rotation.norm q = 1 <-> sumsq q = 1.
Proof.
  split; intros H.
  - rewrite <- norm_sumsq, H. ring.
  - unfold Rotation.norm. fold (sumsq q). rewrite H. apply sqrt_1.
Qed.

Lemma from_quat_ok (q : quat) :
  Rotation.norm q <> 0 ->
  exists r, Rotation.from_quat q = inr r /\ Rotation.norm r = 1.
Proof.
  intros Hn. unfold Rotation.from_quat.
  destruct (Req_dec_T (Rotation.norm q) 0) as [E|_]; [contradiction|].
  eexists. split; [reflexivity|].
  apply norm_unit_iff. unfold sumsq. simpl.
  pose proof (norm_sumsq q) as Hs. unfold sumsq in Hs.
  set (n := Rotation.norm q) in *.
  replace (q0 q / n * (q0 q / n) + q1 q / n * (q1 q / n) + q2 q / n * (q2 q / n)
           + q3 q / n * (q3 q / n))
    with ((q0 q * q0 q + q1 q * q1 q + q2 q * q2 q + q3 q * q3 q) / (n * n))
    by (field; exact Hn).
  rewrite <- Hs. field. exact Hn.
Qed.

Lemma from_quat_inv (q r : quat) :
  Rotation.from_quat q = inr r -> Rotation.norm q <> 0 /\ Rotation.norm r = 1.
Proof.
  intros H.
  assert (Hn : Rotation.norm q <> 0).
  { unfold Rotation.from_quat in H.
    destruct (Req_dec_T (Rotation.norm q) 0); [discriminate|assumption]. }
  split; [exact Hn|].
  destruct (from_quat_ok q Hn) as (r' & Hr & Hu). congruence.
Qed.

Lemma from_quat_unit (q : quat) :
  Rotation.norm q = 1 -> Rotation.from_quat q = inr q.
Proof.
  intros H. unfold Rotation.from_quat. rewrite H.
  destruct (Req_dec_T 1 0) as [E|_]; [lra|].
  destruct q as [a b c d]. simpl. f_equal. f_equal; field.
Qed.

Lemma sumsq_compose (p q : quat) :
  sumsq (Rotation.compose_quat p q) = sumsq p * sumsq q.
Proof. unfold sumsq, Rotation.compose_quat. simpl. ring. Qed.

Lemma compose_unit (p q : quat) :
  Rotation.norm p = 1 -> Rotation.norm q = 1 ->
  Rotation.norm (Rotation.compose_quat p q) = 1.
Proof.
  rewrite !norm_unit_iff, sumsq_compose. intros -> ->. ring.
Qed.

Lemma mul_unit (p q : quat) :
  Rotation.norm p = 1 -> Rotation.norm q = 1 ->
  Rotation.mul p q = inr (Rotation.compose_quat p q).
Proof. intros Hp Hq. apply from_quat_unit, compose_unit; assumption. Qed.

(** The matrix of a product is the product of the matrices. *)
Lemma apply_compose (p q : quat) (v : vec3) :
  Rotation.apply (Rotation.compose_quat p q) v
  = Rotation.apply p (Rotation.apply q v).
Proof.
  unfold Rotation.apply, Rotation.compose_quat. simpl. f_equal; ring.
Qed.

(** ** Binning *)

Lemma monotonic_tail (e : R) (a : list R) :
  monotonic (e :: a) = true -> monotonic a = true.
Proof.
  destruct a as [|e2 a]; [reflexivity|].
  simpl. destruct (Rlt_dec e2 e); [discriminate|auto].
Qed.

Lemma monotonic_head (e : R) (a : list R) (j : nat) (y : R) :
  monotonic (e :: a) = true -> a !! j = Some y -> e <= y.
Proof.
  revert e j. induction a as [|e2 a IH]; intros e j Hm Hj; [discriminate|].
  assert (He : e <= e2).
  { simpl in Hm. destruct (Rlt_dec e2 e); [discriminate|lra]. }
  destruct j as [|j]; simpl in Hj.
  - injection Hj as <-. exact He.
  - apply monotonic_tail in Hm. pose proof (IH e2 j Hm Hj). lra.
Qed.

Lemma monotonic_le (a : list R) (i j : nat) (x y : R) :
  monotonic a = true -> (i <= j)%nat ->
  a !! i = Some x -> a !! j = Some y -> x <= y.
Proof.
  revert i j. induction a as [|e a IH]; intros i j Hm Hij Hi Hj; [discriminate|].
  destruct i as [|i], j as [|j]; simpl in Hi, Hj.
  - injection Hi as <-. injection Hj as <-. lra.
  - injection Hi as <-. eapply monotonic_head; eauto.
  - lia.
  - apply (IH i j); eauto using monotonic_tail. lia.
Qed.

Lemma searchsorted_right_le (a : list R) (v : R) :
  (searchsorted_right a v <= length a)%nat.
Proof.
  induction a as [|e a IH]; simpl; [lia|].
  destruct (Rle_dec e v); simpl; lia.
Qed.

Lemma searchsorted_right_below (a : list R) (v : R) (j : nat) (e : R) :
  (j < searchsorted_right a v)%nat -> a !! j = Some e -> e <= v.
Proof.
  revert j. induction a as [|x a IH]; intros j Hj He; simpl in *; [lia|].
  destruct (Rle_dec x v); [|lia].
  destruct j as [|j]; simpl in He.
  - injection He as <-. assumption.
  - apply (IH j); [lia|assumption].
Qed.

Lemma searchsorted_right_above (a : list R) (v : R) (e : R) :
  a !! searchsorted_right a v = Some e -> v < e.
Proof.
  induction a as [|x a IH]; simpl; [discriminate|].
  destruct (Rle_dec x v); simpl; [assumption|].
  intros [= <-]. lra.
Qed.

Lemma searchsorted_right_unique (a : list R) (v : R) (n : nat) :
  (n <= length a)%nat ->
  (forall j e, (j < n)%nat -> a !! j = Some e -> e <= v) ->
  (forall e, a !! n = Some e -> v < e) ->
  searchsorted_right a v = n.
Proof.
  revert n. induction a as [|x a IH]; intros n Hn Hlo Hhi; simpl in *.
  - lia.
  - destruct (Rle_dec x v) as [Hx|Hx].
    + destruct n as [|n].
      * specialize (Hhi x eq_refl). lra.
      * f_equal. apply IH; [lia| |].
        -- intros j e Hj He. apply (Hlo (S j) e); [lia|exact He].
        -- intros e He. apply Hhi. exact He.
    + destruct n as [|n]; [reflexivity|].
      exfalso. apply Hx. apply (Hlo O x); [lia|reflexivity].
Qed.

Lemma searchsorted_right_all (a : list R) (v l : R) :
  monotonic a = true -> last a = Some l -> l <= v ->
  searchsorted_right a v = length a.
Proof.
  intros Hm Hl Hv. apply searchsorted_right_unique.
  - lia.
  - intros j e Hj He.
    rewrite last_lookup in Hl.
    assert (e <= l); [|lra].
    apply (monotonic_le a j (pred (length a))); auto. lia.
  - intros e He. apply lookup_lt_Some in He. lia.
Qed.

(** The code's bin is the bin of the binning rule. *)
Lemma core_bin_in_bin (edges : list R) (l v : R) (i : nat) :
  monotonic edges = true -> last edges = Some l ->
  core_bin edges l v = Some i <-> in_bin edges i v.
Proof.
  intros Hm Hl. pose proof Hl as Hl'. rewrite last_lookup in Hl'.
  assert (Hlen : (0 < length edges)%nat) by (apply lookup_lt_Some in Hl'; lia).
  unfold core_bin, in_bin. split.
  - destruct (Req_dec_T v l) as [->|Hne].
    + rewrite (searchsorted_right_all edges l l) by (auto; lra).
      destruct (Nat.eqb_spec (pred (length edges)) 0); simpl; [discriminate|].
      destruct (Nat.leb_spec (length edges) (pred (length edges))); simpl;
        [discriminate|].
      intros [= <-].
      destruct (lookup_lt_is_Some_2 edges (pred (pred (length edges))))
        as [lo Hlo]; [lia|].
      exists lo, l. replace (S (pred (pred (length edges))))
        with (pred (length edges)) by lia.
      repeat split; auto.
      * apply (monotonic_le edges (pred (pred (length edges)))
                 (pred (length edges))); auto. lia.
      * right. split; [lia|reflexivity].
    + set (k := searchsorted_right edges v).
      destruct (Nat.eqb_spec k 0); simpl; [discriminate|].
      destruct (Nat.leb_spec (length edges) k); simpl; [discriminate|].
      intros [= <-].
      destruct (lookup_lt_is_Some_2 edges (pred k)) as [lo Hlo]; [lia|].
      destruct (lookup_lt_is_Some_2 edges k) as [hi Hhi]; [lia|].
      exists lo, hi. replace (S (pred k)) with k by lia.
      repeat split; auto.
      * apply (searchsorted_right_below edges v (pred k)); auto. fold k. lia.
      * left. apply (searchsorted_right_above edges v hi). exact Hhi.
  - intros (lo & hi & Hlo & Hhi & Hle & Hcase).
    pose proof (lookup_lt_Some _ _ _ Hhi) as Hi.
    destruct Hcase as [Hlt|[Hend ->]].
    + assert (Hk : searchsorted_right edges v = S i).
      { apply searchsorted_right_unique; [lia| |].
        - intros j e Hj He. assert (e <= lo); [|lra].
          apply (monotonic_le edges j i); auto. lia.
        - intros e He. rewrite Hhi in He. injection He as <-. exact Hlt. }
      assert (Hvl : v <> l).
      { assert (hi <= l); [|lra].
        apply (monotonic_le edges (S i) (pred (length edges))); auto. lia. }
      destruct (Req_dec_T v l); [contradiction|]. rewrite Hk.
      assert (S i <> length edges).
      { intros E. pose proof (searchsorted_right_above edges v) as Ha.
        rewrite Hk in Ha. specialize (Ha hi Hhi).
        rewrite E in Hi. lia. }
      destruct (Nat.eqb_spec (S i) 0); [lia|].
      destruct (Nat.leb_spec (length edges) (S i)); [lia|]. reflexivity.
    + assert (Hhl : hi = l).
      { replace (S i) with (pred (length edges)) in Hhi by lia. congruence. }
      subst hi. destruct (Req_dec_T l l); [|contradiction].
      rewrite (searchsorted_right_all edges l l) by (auto; lra).
      destruct (Nat.eqb_spec (pred (length edges)) 0); [lia|].
      destruct (Nat.leb_spec (length edges) (pred (length edges))); [lia|].
      simpl. f_equal. lia.
Qed.

Lemma searchsorted_right_pos (e : R) (a : list R) (v : R) :
  (0 < searchsorted_right (e :: a) v)%nat <-> e <= v.
Proof. simpl. destruct (Rle_dec e v); split; intros; try lia; tauto. Qed.

(** A value has a bin exactly when it lies within the edges' range. *)
Lemma core_bin_in_range (edges : list R) (l v : R) :
  monotonic edges = true -> last edges = Some l ->
  is_Some (core_bin edges l v) <-> in_range edges v = true.
Proof.
  intros Hm Hl. pose proof Hl as Hl'. rewrite last_lookup in Hl'.
  destruct edges as [|e0 edges]; [discriminate|].
  unfold in_range. rewrite Hl. cbn [head].
  assert (He0 : e0 <= l).
  { apply (monotonic_le (e0 :: edges) O (pred (length (e0 :: edges)))); auto.
    lia. }
  unfold core_bin.
  destruct (Req_dec_T v l) as [->|Hne].
  - rewrite (searchsorted_right_all (e0 :: edges) l l) by (auto; lra).
    destruct (Rle_dec e0 l); [|contradiction].
    destruct (Rle_dec l l); [|lra].
    rewrite !andb_true_r.
    assert (Hpos : (0 < length (e0 :: edges))%nat) by (simpl; lia).
    destruct (Nat.eqb_spec (pred (length (e0 :: edges))) 0) as [E|E]; cbn [orb].
    + split; [intros [? ?]; discriminate|].
      rewrite bool_decide_eq_true. lia.
    + destruct (Nat.leb_spec (length (e0 :: edges)) (pred (length (e0 :: edges))));
        [lia|].
      split; [|eauto]. intros _. apply bool_decide_eq_true. lia.
  - set (k := searchsorted_right (e0 :: edges) v).
    pose proof (searchsorted_right_pos e0 edges v) as Hpos. fold k in Hpos.
    pose proof (searchsorted_right_le (e0 :: edges) v) as Hle. fold k in Hle.
    assert (Hlt : (k < length (e0 :: edges))%nat <-> v < l).
    { split.
      - intros Hk. destruct (Rlt_dec v l) as [|Hge]; [assumption|].
        exfalso. unfold k in Hk.
        rewrite (searchsorted_right_all (e0 :: edges) v l) in Hk; auto; lra || lia.
      - intros Hv. destruct (decide (k < length (e0 :: edges))%nat); [assumption|].
        exfalso. assert (l <= v); [|lra].
        apply (searchsorted_right_below (e0 :: edges) v
                 (pred (length (e0 :: edges)))); auto.
        fold k. cbn [length] in *. lia. }
    destruct (Nat.eqb_spec k 0) as [Hk0|Hk0]; cbn [orb].
    + split; [intros [? ?]; discriminate|].
      destruct (Rle_dec e0 v) as [r|]; [|rewrite andb_false_r; discriminate].
      apply Hpos in r. lia.
    + destruct (Nat.leb_spec (length (e0 :: edges)) k) as [Hkl|Hkl].
      * split; [intros [? ?]; discriminate|].
        destruct (Rle_dec v l); [|rewrite andb_false_r; discriminate].
        assert (Hv : v < l) by lra. apply Hlt in Hv. lia.
      * split; [|eauto]. intros _.
        destruct (Rle_dec e0 v) as [|Hn]; [|exfalso; apply Hn, Hpos; lia].
        assert (v < l) by (apply Hlt; lia).
        destruct (Rle_dec v l); [|lra].
        rewrite !andb_true_r. apply bool_decide_eq_true.
        cbn [length] in *. lia.
Qed.

Lemma core_bin_lt (edges : list R) (l v : R) (i : nat) :
  core_bin edges l v = Some i -> (i < pred (length edges))%nat.
Proof.
  unfold core_bin.
  set (k := if Req_dec_T v l then _ else _).
  destruct (Nat.eqb_spec k 0); simpl; [discriminate|].
  destruct (Nat.leb_spec (length edges) k); simpl; [discriminate|].
  intros [= <-]. lia.
Qed.

(** ** Accumulation into the grids *)

Lemma add_at_shape (rows cols i j : nat) (w : R) (h : list (list R)) :
  shape rows cols h -> shape rows cols (add_at i j w h).
Proof.
  intros [Hr Hc]. split.
  - unfold add_at. rewrite length_alter. exact Hr.
  - unfold add_at. apply Forall_alter; [exact Hc|].
    intros row _ Hrow. rewrite length_alter. exact Hrow.
Qed.

Lemma add_at_Forall (P : R -> Prop) (i j : nat) (w : R) (h : list (list R)) :
  (forall c, P c -> P (c + w)) ->
  Forall (Forall P) h -> Forall (Forall P) (add_at i j w h).
Proof.
  intros HP Hh. unfold add_at. apply Forall_alter; [exact Hh|].
  intros row _ Hrow. apply Forall_alter; [exact Hrow|].
  intros c _ Hc. apply HP, Hc.
Qed.

Lemma zero_grid_shape (rows cols : nat) :
  shape rows cols (replicate rows (replicate cols 0)).
Proof.
  split; [apply length_replicate|].
  apply Forall_replicate, length_replicate.
Qed.

Lemma zero_grid_Forall (P : R -> Prop) (rows cols : nat) :
  P 0 -> Forall (Forall P) (replicate rows (replicate cols 0)).
Proof. intros H0. apply Forall_replicate, Forall_replicate, H0. Qed.

Lemma deposit_shape (xe ye : list R) (xl yl : R) (rows cols : nat)
    (h : list (list R)) (s : R * R * R) :
  shape rows cols h -> shape rows cols (deposit xe ye xl yl h s).
Proof.
  intros Hh. destruct s as [[xv yv] w]. unfold deposit.
  destruct (core_bin xe xl xv), (core_bin ye yl yv); auto using add_at_shape.
Qed.

Lemma foldl_deposit_shape (xe ye : list R) (xl yl : R) (rows cols : nat)
    (samples : list (R * R * R)) (h : list (list R)) :
  shape rows cols h ->
  shape rows cols (foldl (deposit xe ye xl yl) h samples).
Proof.
  revert h. induction samples as [|s samples IH]; intros h Hh; simpl; [exact Hh|].
  apply IH, deposit_shape, Hh.
Qed.

Lemma bincount2d_shape (xe ye : list R) (xl yl : R) (samples : list (R * R * R)) :
  shape (pred (length xe)) (pred (length ye)) (bincount2d xe ye xl yl samples).
Proof. apply foldl_deposit_shape, zero_grid_shape. Qed.

Lemma foldl_deposit_Forall (P : R -> Prop) (xe ye : list R) (xl yl : R)
    (samples : list (R * R * R)) (h : list (list R)) :
  Forall (fun s : R * R * R => forall c, P c -> P (c + s.2)) samples ->
  Forall (Forall P) h ->
  Forall (Forall P) (foldl (deposit xe ye xl yl) h samples).
Proof.
  revert h. induction samples as [|s samples IH]; intros h Hs Hh; simpl;
    [exact Hh|].
  inversion Hs as [|? ? Hs1 Hs2]; subst.
  apply IH; [exact Hs2|].
  destruct s as [[xv yv] w]. unfold deposit.
  destruct (core_bin xe xl xv), (core_bin ye yl yv); auto using add_at_Forall.
Qed.

(** Samples outside the grid leave the histogram as it is. *)
Lemma foldl_deposit_filter (xe ye : list R) (xl yl : R)
    (samples : list (R * R * R)) (h : list (list R)) :
  monotonic xe = true -> monotonic ye = true ->
  last xe = Some xl -> last ye = Some yl ->
  foldl (deposit xe ye xl yl) h samples
  = foldl (deposit xe ye xl yl) h (filter (sample_in_range xe ye) samples).
Proof.
  intros Hmx Hmy Hlx Hly. revert h.
  induction samples as [|s samples IH]; intros h; [reflexivity|].
  rewrite filter_cons. destruct (decide (sample_in_range xe ye s)) as [Hin|Hout].
  - simpl. apply IH.
  - simpl. rewrite <- IH. f_equal.
    destruct s as [[xv yv] w]. unfold deposit.
    destruct (core_bin xe xl xv) as [i|] eqn:Ex; [|reflexivity].
    destruct (core_bin ye yl yv) as [j|] eqn:Ey; [|reflexivity].
    exfalso. apply Hout. split; simpl.
    + apply (proj1 (core_bin_in_range xe xl xv Hmx Hlx)). rewrite Ex. eauto.
    + apply (proj1 (core_bin_in_range ye yl yv Hmy Hly)). rewrite Ey. eauto.
Qed.

Lemma sumZ_map_alter {A : Type} (g : A -> Z) (f : A -> A) (l : list A)
    (j : nat) (x : A) :
  l !! j = Some x ->
  sumZ (map g (alter f j l)) = (sumZ (map g l) - g x + g (f x))%Z.
Proof.
  revert j. induction l as [|y l IH]; intros j Hj; [discriminate|].
  destruct j as [|j]; simpl in Hj.
  - injection Hj as ->. unfold sumZ. simpl. lia.
  - specialize (IH j Hj). unfold sumZ in *.
    change (alter f (S j) (y :: l)) with (y :: alter f j l).
    cbn [map foldr]. rewrite IH. lia.
Qed.

Lemma total_trunc_add_at (rows cols i j : nat) (h : list (list R)) :
  shape rows cols h -> Forall (Forall is_count) h ->
  (i < rows)%nat -> (j < cols)%nat ->
  total (map (map int_trunc) (add_at i j 1 h))
  = (total (map (map int_trunc) h) + 1)%Z.
Proof.
  intros [Hr Hc] Hn Hi Hj.
  destruct (lookup_lt_is_Some_2 h i) as [row Hrow]; [lia|].
  assert (Hlen : length row = cols).
  { rewrite Forall_lookup in Hc. apply (Hc i row Hrow). }
  destruct (lookup_lt_is_Some_2 row j) as [c Hcell]; [lia|].
  assert (Hcnt : is_count c).
  { rewrite Forall_lookup in Hn. specialize (Hn i row Hrow).
    rewrite Forall_lookup in Hn. apply (Hn j c Hcell). }
  unfold total, add_at. rewrite !List.map_map.
  rewrite (sumZ_map_alter _ _ h i row Hrow).
  rewrite (sumZ_map_alter _ _ row j c Hcell).
  destruct Hcnt as [n ->].
  replace (INR n + 1) with (INR (S n)) by (rewrite S_INR; ring).
  rewrite !int_trunc_INR. lia.
Qed.

Lemma is_count_succ (c : R) : is_count c -> is_count (c + 1).
Proof. intros [n ->]. exists (S n). rewrite S_INR. reflexivity. Qed.

Lemma is_count_zero : is_count 0.
Proof. exists O. reflexivity. Qed.

(** With unit weights the histogram's total grows by one per sample that
    lies inside the grid. *)
Lemma foldl_deposit_total (xe ye : list R) (xl yl : R)
    (samples : list (R * R * R)) (h : list (list R)) :
  monotonic xe = true -> monotonic ye = true ->
  last xe = Some xl -> last ye = Some yl ->
  shape (pred (length xe)) (pred (length ye)) h ->
  Forall (Forall is_count) h ->
  Forall (fun s : R * R * R => s.2 = 1) samples ->
  total (map (map int_trunc) (foldl (deposit xe ye xl yl) h samples))
  = (total (map (map int_trunc) h)
     + Z.of_nat (length (filter (sample_in_range xe ye) samples)))%Z.
Proof.
  intros Hmx Hmy Hlx Hly. revert h.
  induction samples as [|s samples IH]; intros h Hsh Hcnt Hw.
  - simpl. lia.
  - inversion Hw as [|? ? Hw1 Hw2]; subst.
    destruct s as [[xv yv] w]. simpl in Hw1. subst w.
    cbn [foldl]. rewrite filter_cons.
    pose proof (core_bin_in_range xe xl xv Hmx Hlx) as Hx.
    pose proof (core_bin_in_range ye yl yv Hmy Hly) as Hy.
    unfold deposit at 2.
    destruct (core_bin xe xl xv) as [i|] eqn:Ex.
    + destruct (core_bin ye yl yv) as [j|] eqn:Ey.
      * rewrite IH; auto using add_at_shape.
        2:{ apply add_at_Forall; [apply is_count_succ|exact Hcnt]. }
        rewrite (total_trunc_add_at _ _ i j h Hsh Hcnt)
          by eauto using core_bin_lt.
        destruct (decide (sample_in_range xe ye (xv, yv, 1))) as [|Hn].
        -- cbn [length]. lia.
        -- exfalso. apply Hn. split; simpl; [apply Hx|apply Hy]; eauto.
      * rewrite IH; auto.
        destruct (decide (sample_in_range xe ye (xv, yv, 1))) as [[_ Hin]|];
          [|reflexivity].
        apply Hy in Hin. destruct Hin; discriminate.
    + rewrite IH; auto.
      destruct (decide (sample_in_range xe ye (xv, yv, 1))) as [[Hin _]|];
        [|reflexivity].
      apply Hx in Hin. destruct Hin; discriminate.
Qed.

Lemma histogram2d_inr (x y xe ye : list R) (weights : option (list R))
    (hist : list (list R)) :
  histogram2d x y xe ye weights = inr hist ->
  length x = length y /\ monotonic xe = true /\ monotonic ye = true /\
  exists xl yl, last xe = Some xl /\ last ye = Some yl /\
    length (default (replicate (length x) 1) weights) = length x /\
    hist = bincount2d xe ye xl yl
             (zip (zip x y) (default (replicate (length x) 1) weights)).
Proof.
  unfold histogram2d.
  destruct (Nat.eqb_spec (length x) (length y)); simpl; [|discriminate].
  destruct (monotonic xe); simpl; [|discriminate].
  destruct (monotonic ye); simpl; [|discriminate].
  destruct (last xe) as [xl|]; [|discriminate].
  destruct (last ye) as [yl|]; [|discriminate].
  destruct (Nat.eqb_spec (length (default (replicate (length x) 1) weights))
              (length x)); simpl; [|discriminate].
  intros [= <-]. repeat split; auto. exists xl, yl. auto.
Qed.

(** The unweighted call succeeds whenever the weighted one did. *)
Lemma histogram2d_unweighted (x y xe ye : list R) (w : list R)
    (hist : list (list R)) :
  histogram2d x y xe ye (Some w) = inr hist ->
  exists xl yl, last xe = Some xl /\ last ye = Some yl /\
    histogram2d x y xe ye None
    = inr (bincount2d xe ye xl yl (zip (zip x y) (replicate (length x) 1))).
Proof.
  intros H. apply histogram2d_inr in H.
  destruct H as (Hxy & Hmx & Hmy & xl & yl & Hlx & Hly & _ & _).
  exists xl, yl. repeat split; auto.
  unfold histogram2d. rewrite Hxy, Nat.eqb_refl, Hmx, Hmy, Hlx, Hly. simpl.
  rewrite length_replicate, Nat.eqb_refl. reflexivity.
Qed.

(** ** Adding one grid to another *)

Lemma grid_add_shape {A : Type} (add : A -> A -> A) (rows cols : nat)
    (a b : list (list A)) :
  shape rows cols a -> shape rows cols b -> shape rows cols (grid_add add a b).
Proof.
  intros [Ha1 Ha2] [Hb1 Hb2]. unfold grid_add. split.
  - rewrite length_zip_with. lia.
  - apply Forall_lookup. intros i row Hrow.
    apply lookup_zip_with_Some in Hrow as (ra & rb & -> & Hra & Hrb).
    rewrite Forall_lookup in Ha2, Hb2.
    rewrite length_zip_with, (Ha2 i ra Hra), (Hb2 i rb Hrb). lia.
Qed.

Lemma cell_grid_add {A : Type} (add : A -> A -> A) (a b : list (list A))
    (i j : nat) :
  cell (grid_add add a b) i j
  = match cell a i j, cell b i j with
    | Some x, Some y => Some (add x y)
    | _, _ => None
    end.
Proof.
  unfold cell, grid_add. rewrite lookup_zip_with.
  destruct (a !! i) as [ra|]; simpl; [|reflexivity].
  destruct (b !! i) as [rb|]; simpl.
  - rewrite lookup_zip_with.
    destruct (ra !! j); simpl; [|reflexivity].
    destruct (rb !! j); reflexivity.
  - destruct (ra !! j); reflexivity.
Qed.

Lemma cell_Some_shape {A : Type} (rows cols : nat) (a : list (list A))
    (i j : nat) :
  shape rows cols a ->
  is_Some (cell a i j) <-> (i < rows)%nat /\ (j < cols)%nat.
Proof.
  intros [Hr Hc]. unfold cell. rewrite Forall_lookup in Hc. split.
  - intros [x Hx]. destruct (a !! i) as [row|] eqn:E; [|discriminate].
    simpl in Hx. pose proof (lookup_lt_Some _ _ _ E).
    pose proof (lookup_lt_Some _ _ _ Hx). rewrite (Hc i row E) in *. lia.
  - intros [Hi Hj].
    destruct (lookup_lt_is_Some_2 a i) as [row E]; [lia|].
    rewrite E. simpl. apply lookup_lt_is_Some_2. rewrite (Hc i row E). lia.
Qed.

Lemma sumZ_zip_with_add (a b : list Z) :
  length a = length b ->
  sumZ (zip_with Z.add a b) = (sumZ a + sumZ b)%Z.
Proof.
  revert b. induction a as [|x a IH]; intros [|y b] Hl; try discriminate.
  - reflexivity.
  - injection Hl as Hl. specialize (IH b Hl). unfold sumZ in *. simpl.
    rewrite IH. lia.
Qed.

Lemma total_grid_add (rows cols : nat) (a b : list (list Z)) :
  shape rows cols a -> shape rows cols b ->
  total (grid_add Z.add a b) = (total a + total b)%Z.
Proof.
  intros [Ha1 Ha2] [Hb1 Hb2]. unfold total, grid_add. subst rows.
  revert b Hb1 Hb2. induction Ha2 as [|ra a Hra Ha IH]; intros [|rb b] Hb1 Hb2;
    try discriminate.
  - reflexivity.
  - inversion Hb2; subst. injection Hb1 as Hb1.
    specialize (IH b Hb1 ltac:(assumption)).
    unfold sumZ in *. simpl. fold (sumZ (zip_with Z.add ra rb)).
    rewrite sumZ_zip_with_add by congruence.
    unfold sumZ. rewrite IH. lia.
Qed.

Lemma trunc_shape (rows cols : nat) (h : list (list R)) :
  shape rows cols h -> shape rows cols (map (map int_trunc) h).
Proof.
  intros [Hr Hc]. split.
  - rewrite length_map. exact Hr.
  - apply List.Forall_map. eapply Forall_impl; [exact Hc|].
    intros row Hrow. simpl. rewrite length_map. exact Hrow.
Qed.

(** ** One detector *)

Lemma detector_radec_length (br : list quat) (det_q : quat) (ra dec : list R) :
  detector_radec br det_q = inr (ra, dec) -> length ra = length dec.
Proof.
  unfold detector_radec.
  destruct (Rotation.from_quat det_q) as [|det_r]; [discriminate|]. simpl.
  destruct (mapM _ br) as [|cr]; [discriminate|]. simpl.
  intros [= <- <-]. rewrite !length_map. reflexivity.
Qed.

(** What a successful pass through the loop body has done. *)
Lemma bin_detector_inr (frame : G3Frame) (br : list quat) (kid : string)
    (y_raw : list R) (self self' : QuickMapMaker) :
  bin_detector frame br kid y_raw self = (inr (), self') ->
  exists det_q ra dec dl rl,
    det_offset_dict self !! kid = Some det_q /\
    detector_radec br det_q = inr (ra, dec) /\
    monotonic (dec_edges self) = true /\ monotonic (ra_edges self) = true /\
    last (dec_edges self) = Some dl /\ last (ra_edges self) = Some rl /\
    length (reconstruct frame kid y_raw) = length dec /\
    self' =
      set_hits_map
        (grid_add Z.add (hits_map self)
           (map (map int_trunc)
              (bincount2d (dec_edges self) (ra_edges self) dl rl
                 (zip (zip dec ra) (replicate (length dec) 1)))))
        (set_sky_map
           (grid_add Rplus (sky_map self)
              (bincount2d (dec_edges self) (ra_edges self) dl rl
                 (zip (zip dec ra) (reconstruct frame kid y_raw))))
           self).
Proof.
  unfold bin_detector.
  destruct (det_offset_dict self !! kid) as [det_q|]; simpl; [|discriminate].
  destruct (detector_radec br det_q) as [|[ra dec]] eqn:Erd; [discriminate|].
  destruct (histogram2d dec ra (dec_edges self) (ra_edges self)
              (Some (reconstruct frame kid y_raw))) as [|hist] eqn:Eh;
    [discriminate|].
  destruct (histogram2d_unweighted _ _ _ _ _ _ Eh) as (dl & rl & Hdl & Hrl & Eu).
  apply histogram2d_inr in Eh.
  destruct Eh as (Hlen & Hmd & Hmr & dl' & rl' & Hdl' & Hrl' & Hw & ->).
  assert (dl' = dl) by congruence. assert (rl' = rl) by congruence. subst.
  cbn [set_sky_map dec_edges ra_edges]. rewrite Eu.
  intros [= <-]. exists det_q, ra, dec, dl, rl.
  repeat split; auto.
Qed.

(** A pass that raises has changed nothing. *)
Lemma bin_detector_inl (frame : G3Frame) (br : list quat) (kid : string)
    (y_raw : list R) (self self' : QuickMapMaker) (e : exn) :
  bin_detector frame br kid y_raw self = (inl e, self') -> self' = self.
Proof.
  unfold bin_detector.
  destruct (let! det_q := _ in _) as [|[ra dec]]; [congruence|].
  destruct (histogram2d dec ra (dec_edges self) (ra_edges self)
              (Some (reconstruct frame kid y_raw))) as [|hist] eqn:Eh;
    [congruence|].
  destruct (histogram2d_unweighted _ _ _ _ _ _ Eh) as (dl & rl & _ & _ & Eu).
  cbn [set_sky_map dec_edges ra_edges]. rewrite Eu. discriminate.
Qed.

Lemma bin_detector_unknown (frame : G3Frame) (br : list quat) (kid : string)
    (y_raw : list R) (self : QuickMapMaker) :
  det_offset_dict self !! kid = None ->
  bin_detector frame br kid y_raw self = (inl (KeyError kid), self).
Proof. intros H. unfold bin_detector. rewrite H. reflexivity. Qed.

Lemma filter_unit_weights (xe ye : list R) (l : list (R * R)) :
  length (filter (sample_in_range xe ye) (zip l (replicate (length l) 1)))
  = length (filter (fun p : R * R =>
                      in_range xe p.1 = true /\ in_range ye p.2 = true) l).
Proof.
  induction l as [|p l IH]; [reflexivity|].
  cbn [length replicate zip zip_with]. rewrite !filter_cons.
  unfold sample_in_range at 1. cbn [fst snd].
  destruct (decide (in_range xe p.1 = true /\ in_range ye p.2 = true));
    cbn [length]; rewrite IH; reflexivity.
Qed.

Lemma bin_detector_wf (frame : G3Frame) (br : list quat) (kid : string)
    (y_raw : list R) (self self' : QuickMapMaker) (r : exn + ()) :
  wf self -> bin_detector frame br kid y_raw self = (r, self') ->
  wf self' /\ dec_edges self' = dec_edges self /\
  ra_edges self' = ra_edges self /\
  det_offset_dict self' = det_offset_dict self.
Proof.
  intros Hwf H. destruct r as [e|[]].
  - apply bin_detector_inl in H. subst. auto.
  - apply bin_detector_inr in H.
    destruct H as (det_q & ra & dec & dl & rl & _ & _ & _ & _ & _ & _ & _ & ->).
    destruct Hwf as (Hd & Hr & Hsky & Hhits).
    split; [|simpl; auto].
    unfold wf. simpl. split; [exact Hd|]. split; [exact Hr|]. split.
    + apply grid_add_shape; [exact Hsky|apply bincount2d_shape].
    + apply grid_add_shape; [exact Hhits|apply trunc_shape, bincount2d_shape].
Qed.

Lemma int_trunc_0 : int_trunc 0 = 0%Z.
Proof. exact (int_trunc_IZR 0). Qed.

Lemma sumZ_trunc_zeros (cols : nat) :
  sumZ (map int_trunc (replicate cols 0)) = 0%Z.
Proof.
  induction cols as [|m IH]; [reflexivity|].
  unfold sumZ in *. cbn [replicate map foldr]. rewrite IH, int_trunc_0.
  reflexivity.
Qed.

Lemma total_trunc_zeros (rows cols : nat) :
  total (map (map int_trunc) (replicate rows (replicate cols 0))) = 0%Z.
Proof.
  unfold total. induction rows as [|n IH]; [reflexivity|].
  cbn [replicate map]. unfold sumZ at 1. cbn [foldr].
  fold (sumZ (map sumZ (map (map int_trunc) (replicate n (replicate cols 0))))).
  rewrite IH, sumZ_trunc_zeros. reflexivity.
Qed.

(** Conservation of hits for one detector. *)
Lemma bin_detector_total (frame : G3Frame) (br : list quat) (kid : string)
    (y_raw : list R) (self self' : QuickMapMaker) :
  wf self -> bin_detector frame br kid y_raw self = (inr (), self') ->
  total (hits_map self')
  = (total (hits_map self) + Z.of_nat (samples_in_range self br kid))%Z.
Proof.
  intros Hwf H. apply bin_detector_inr in H.
  destruct H as (det_q & ra & dec & dl & rl & Hq & Hrd & Hmd & Hmr & Hdl & Hrl
                 & _ & ->).
  destruct Hwf as (_ & _ & _ & Hhits). cbn [set_hits_map hits_map].
  rewrite (total_grid_add _ _ _ _ Hhits)
    by apply trunc_shape, bincount2d_shape.
  f_equal. unfold bincount2d.
  rewrite foldl_deposit_total; auto using zero_grid_shape.
  - rewrite total_trunc_zeros, Z.add_0_l.
    unfold samples_in_range. rewrite Hq, Hrd.
    replace (length dec) with (length (zip dec ra)).
    + rewrite filter_unit_weights. reflexivity.
    + rewrite length_zip. apply detector_radec_length in Hrd. lia.
  - apply zero_grid_Forall, is_count_zero.
  - apply Forall_lookup. intros i s Hs.
    apply lookup_zip_with_Some in Hs as (p & w & -> & _ & Hw).
    apply lookup_replicate in Hw as [-> _]. reflexivity.
Qed.

Lemma cell_Forall {A : Type} (P : A -> Prop) (a : list (list A)) (i j : nat)
    (x : A) :
  Forall (Forall P) a -> cell a i j = Some x -> P x.
Proof.
  intros Ha Hx. unfold cell in Hx.
  destruct (a !! i) as [row|] eqn:E; [|discriminate]. simpl in Hx.
  rewrite Forall_lookup in Ha. specialize (Ha i row E).
  rewrite Forall_lookup in Ha. exact (Ha j x Hx).
Qed.

Lemma cell_trunc (h : list (list R)) (i j : nat) :
  cell (map (map int_trunc) h) i j = int_trunc <$> cell h i j.
Proof.
  unfold cell. revert i. induction h as [|row h IH]; intros [|i]; simpl; auto.
  clear IH. revert j. induction row as [|c row IH]; intros [|j]; simpl; auto.
Qed.

Lemma bincount2d_counts (xe ye : list R) (xl yl : R) (l : list (R * R)) :
  Forall (Forall is_count)
    (bincount2d xe ye xl yl (zip l (replicate (length l) 1))).
Proof.
  apply foldl_deposit_Forall; [|apply zero_grid_Forall, is_count_zero].
  apply Forall_lookup. intros i s Hs.
  apply lookup_zip_with_Some in Hs as (p & w & -> & _ & Hw).
  apply lookup_replicate in Hw as [-> _]. simpl. apply is_count_succ.
Qed.

Lemma bincount2d_nonneg (xe ye : list R) (xl yl : R) (l : list (R * R))
    (w : list R) :
  Forall (fun v => 0 <= v) w ->
  Forall (Forall (fun c => 0 <= c)) (bincount2d xe ye xl yl (zip l w)).
Proof.
  intros Hw. apply foldl_deposit_Forall; [|apply zero_grid_Forall; lra].
  apply Forall_lookup. intros i s Hs.
  apply lookup_zip_with_Some in Hs as (p & v & -> & _ & Hv).
  rewrite Forall_lookup in Hw. specialize (Hw i v Hv). simpl. intros c Hc. lra.
Qed.

(** No pixel loses hits when a detector is binned. *)
Lemma bin_detector_hits_mono (frame : G3Frame) (br : list quat) (kid : string)
    (y_raw : list R) (self self' : QuickMapMaker) (i j : nat) (h : Z) :
  wf self -> bin_detector frame br kid y_raw self = (inr (), self') ->
  cell (hits_map self) i j = Some h ->
  exists h', cell (hits_map self') i j = Some h' /\ (h <= h')%Z.
Proof.
  intros Hwf H Hc. apply bin_detector_inr in H.
  destruct H as (det_q & ra & dec & dl & rl & _ & Hrd & _ & _ & _ & _ & _ & ->).
  destruct Hwf as (_ & _ & _ & Hhits). cbn [set_hits_map hits_map].
  rewrite cell_grid_add, Hc, cell_trunc.
  set (hist := bincount2d _ _ _ _ _).
  assert (Hsh : shape (pred (length (dec_edges self)))
                  (pred (length (ra_edges self))) hist)
    by apply bincount2d_shape.
  destruct (proj2 (cell_Some_shape _ _ hist i j Hsh)) as [c Hcell].
  { apply (cell_Some_shape _ _ (hits_map self) i j Hhits). eauto. }
  rewrite Hcell. simpl. eexists. split; [reflexivity|].
  assert (Hcnt : is_count c).
  { apply (cell_Forall is_count hist i j c); [|exact Hcell].
    unfold hist. replace (length dec) with (length (zip dec ra)).
    - apply bincount2d_counts.
    - rewrite length_zip. apply detector_radec_length in Hrd. lia. }
  destruct Hcnt as [n ->]. rewrite int_trunc_INR. lia.
Qed.

(** No pixel's sum decreases when the binned values are non-negative. *)
Lemma bin_detector_sky_mono (frame : G3Frame) (br : list quat) (kid : string)
    (y_raw : list R) (self self' : QuickMapMaker) (i j : nat) (s : R) :
  wf self -> bin_detector frame br kid y_raw self = (inr (), self') ->
  Forall (fun v => 0 <= v) (reconstruct frame kid y_raw) ->
  cell (sky_map self) i j = Some s ->
  exists s', cell (sky_map self') i j = Some s' /\ s <= s'.
Proof.
  intros Hwf H Hy Hc. apply bin_detector_inr in H.
  destruct H as (det_q & ra & dec & dl & rl & _ & Hrd & _ & _ & _ & _ & _ & ->).
  destruct Hwf as (_ & _ & Hsky & _). cbn [set_hits_map set_sky_map sky_map].
  rewrite cell_grid_add, Hc.
  set (hist := bincount2d _ _ _ _ _).
  assert (Hsh : shape (pred (length (dec_edges self)))
                  (pred (length (ra_edges self))) hist)
    by apply bincount2d_shape.
  destruct (proj2 (cell_Some_shape _ _ hist i j Hsh)) as [c Hcell].
  { apply (cell_Some_shape _ _ (sky_map self) i j Hsky). eauto. }
  rewrite Hcell. eexists. split; [reflexivity|].
  assert (0 <= c); [|lra].
  apply (cell_Forall (fun c => 0 <= c) hist i j c); [|exact Hcell].
  apply bincount2d_nonneg, Hy.
Qed.

(** ** The loop over the detectors *)

Lemma scan_loop_app (frame : G3Frame) (br : list quat)
    (pre rest : list (string * list R)) (self : QuickMapMaker) :
  scan_loop frame br (pre ++ rest) self
  = match scan_loop frame br pre self with
    | (inl e, self') => (inl e, self')
    | (inr _, self') => scan_loop frame br rest self'
    end.
Proof.
  revert self. induction pre as [|[kid y] pre IH]; intros self; [reflexivity|].
  simpl. destruct (bin_detector frame br kid y self) as [[e|u] self'];
    [reflexivity|apply IH].
Qed.

Lemma scan_loop_wf (frame : G3Frame) (br : list quat)
    (raw : list (string * list R)) (self self' : QuickMapMaker) (r : exn + ()) :
  wf self -> scan_loop frame br raw self = (r, self') ->
  wf self' /\ dec_edges self' = dec_edges self /\
  ra_edges self' = ra_edges self /\
  det_offset_dict self' = det_offset_dict self.
Proof.
  revert self. induction raw as [|[kid y] raw IH]; intros self Hwf H; simpl in H.
  - injection H as _ <-. auto.
  - destruct (bin_detector frame br kid y self) as [[e|u] self1] eqn:E.
    + injection H as _ <-. eapply bin_detector_wf; eauto.
    + destruct (bin_detector_wf _ _ _ _ _ _ _ Hwf E) as (Hwf1 & Hd & Hr & Ht).
      destruct (IH self1 Hwf1 H) as (Hwf' & Hd' & Hr' & Ht').
      split; [exact Hwf'|]. repeat split; congruence.
Qed.

Lemma samples_in_range_ext (self self' : QuickMapMaker) (br : list quat)
    (kid : string) :
  dec_edges self' = dec_edges self -> ra_edges self' = ra_edges self ->
  det_offset_dict self' = det_offset_dict self ->
  samples_in_range self' br kid = samples_in_range self br kid.
Proof. intros Hd Hr Ht. unfold samples_in_range. rewrite Hd, Hr, Ht. reflexivity. Qed.

(** Conservation of hits for a batch. *)
Lemma scan_loop_total (frame : G3Frame) (br : list quat)
    (raw : list (string * list R)) (self self' : QuickMapMaker) :
  wf self -> scan_loop frame br raw self = (inr (), self') ->
  total (hits_map self')
  = (total (hits_map self) + batch_in_range self br raw)%Z.
Proof.
  revert self. induction raw as [|[kid y] raw IH]; intros self Hwf H; simpl in H.
  - injection H as <-. unfold batch_in_range, sumZ. simpl. lia.
  - destruct (bin_detector frame br kid y self) as [[e|[]] self1] eqn:E;
      [discriminate|].
    destruct (bin_detector_wf _ _ _ _ _ _ _ Hwf E) as (Hwf1 & Hd & Hr & Ht).
    rewrite (IH self1 Hwf1 H), (bin_detector_total _ _ _ _ _ _ Hwf E).
    unfold batch_in_range, sumZ. cbn [map foldr fst].
    assert (Heq : map (fun entry : string * list R =>
                         Z.of_nat (samples_in_range self1 br entry.1)) raw
                  = map (fun entry : string * list R =>
                           Z.of_nat (samples_in_range self br entry.1)) raw).
    { apply List.map_ext. intros entry.
      rewrite (samples_in_range_ext self self1); auto. }
    rewrite Heq. lia.
Qed.

Lemma scan_loop_hits_mono (frame : G3Frame) (br : list quat)
    (raw : list (string * list R)) (self self' : QuickMapMaker)
    (i j : nat) (h : Z) :
  wf self -> scan_loop frame br raw self = (inr (), self') ->
  cell (hits_map self) i j = Some h ->
  exists h', cell (hits_map self') i j = Some h' /\ (h <= h')%Z.
Proof.
  revert self h. induction raw as [|[kid y] raw IH]; intros self h Hwf H Hc;
    simpl in H.
  - injection H as <-. exists h. split; [exact Hc|lia].
  - destruct (bin_detector frame br kid y self) as [[e|[]] self1] eqn:E;
      [discriminate|].
    destruct (bin_detector_wf _ _ _ _ _ _ _ Hwf E) as (Hwf1 & _).
    destruct (bin_detector_hits_mono _ _ _ _ _ _ i j h Hwf E Hc) as (h1 & Hc1 & Hle).
    destruct (IH self1 h1 Hwf1 H Hc1) as (h' & Hc' & Hle').
    exists h'. split; [exact Hc'|lia].
Qed.

Lemma scan_loop_sky_mono (frame : G3Frame) (br : list quat)
    (raw : list (string * list R)) (self self' : QuickMapMaker)
    (i j : nat) (s : R) :
  wf self -> scan_loop frame br raw self = (inr (), self') ->
  nonneg_signal frame raw ->
  cell (sky_map self) i j = Some s ->
  exists s', cell (sky_map self') i j = Some s' /\ s <= s'.
Proof.
  revert self s. induction raw as [|[kid y] raw IH]; intros self s Hwf H Hy Hc;
    simpl in H.
  - injection H as <-. exists s. split; [exact Hc|lra].
  - destruct (bin_detector frame br kid y self) as [[e|[]] self1] eqn:E;
      [discriminate|].
    inversion Hy as [|? ? Hy1 Hy2]; subst.
    destruct (bin_detector_wf _ _ _ _ _ _ _ Hwf E) as (Hwf1 & _).
    destruct (bin_detector_sky_mono _ _ _ _ _ _ i j s Hwf E Hy1 Hc)
      as (s1 & Hc1 & Hle).
    destruct (IH self1 s1 Hwf1 H Hy2 Hc1) as (s' & Hc' & Hle').
    exists s'. split; [exact Hc'|lra].
Qed.

(** ** The concrete map maker at work *)

Lemma norm_identity : Rotation.norm identity_quat = 1.
Proof.
  unfold Rotation.norm, identity_quat. simpl.
  replace (0 * 0 + 0 * 0 + 0 * 0 + 1 * 1) with 1 by ring. apply sqrt_1.
Qed.

Lemma arctan2_0_0 : arctan2 0 0 = 0.
Proof. unfold arctan2. decide_reals. reflexivity. Qed.

Lemma np_mod_0 (m : R) : np_mod 0 m = 0.
Proof.
  unfold np_mod. replace (0 / m) with (IZR 0) by (unfold Rdiv; ring).
  rewrite Int_part_IZR. ring.
Qed.

(** An unrotated detector under an unrotated boresight points at the pole. *)
Lemma polar_pointing :
  detector_radec [identity_quat] identity_quat = inr ([0], [90]).
Proof.
  unfold detector_radec.
  rewrite (from_quat_unit _ norm_identity). cbn [bind mapM].
  rewrite (mul_unit _ _ norm_identity norm_identity). cbn [bind map].
  f_equal. f_equal.
  - f_equal. unfold ra_of, Rotation.apply, Rotation.compose_quat, identity_quat,
      z_axis. cbn [q0 q1 q2 q3 vx vy vz].
    match goal with |- np_mod (degrees (arctan2 ?y ?x)) _ = _ =>
      replace y with 0 by ring; replace x with 0 by ring end.
    rewrite arctan2_0_0. unfold degrees. rewrite Rmult_0_l. apply np_mod_0.
  - f_equal. unfold dec_of, Rotation.apply, Rotation.compose_quat, identity_quat,
      z_axis. cbn [q0 q1 q2 q3 vx vy vz].
    match goal with |- degrees (arcsin ?z) = _ => replace z with 1 by ring end.
    unfold arcsin, degrees. rewrite asin_1. field. apply PI_neq0.
Qed.

Lemma polar_scan_inputs (raw : list (string * list R)) :
  scan_inputs (polar_scan raw) = inr (raw, [identity_quat]).
Proof.
  unfold scan_inputs, polar_scan. cbn [signal shared_boresight_radec getitem bind map].
  change (vector_first identity_boresight) with identity_quat.
  cbn [mapM]. rewrite (from_quat_unit _ norm_identity). reflexivity.
Qed.

Lemma polar_histogram (w : R) (weights : option (list R)) :
  default [1] weights = [w] ->
  histogram2d [90] [0] [179 / 2; 90; 181 / 2] [- (1 / 2); 0; 1 / 2] weights
  = inr [[0; 0]; [0; 0 + w]].
Proof.
  intros Hw. unfold histogram2d, bincount2d.
  cbn [length Nat.eqb negb monotonic last replicate].
  rewrite Hw. cbn [length Nat.eqb negb zip zip_with foldl].
  unfold deposit, core_bin. cbn [searchsorted_right length].
  decide_reals.
  cbn [Nat.eqb negb pred Nat.leb orb]. reflexivity.
Qed.

(** Binning one sample of value [w] of a calibrated detector. *)
Lemma polar_bin_detector (table : gmap string quat) (raw : list (string * list R))
    (kid : string) (w s : R) (h : Z) :
  table !! kid = Some identity_quat ->
  bin_detector (polar_scan raw) [identity_quat] kid [w] (polar_maker table s h)
  = (inr (), polar_maker table (s + w) (h + 1)).
Proof.
  intros Hk. unfold bin_detector.
  assert (Hy : reconstruct (polar_scan raw) kid [w] = [w]).
  { unfold reconstruct, polar_scan. cbn [scalars]. rewrite lookup_empty.
    reflexivity. }
  rewrite Hy.
  cbv [polar_maker dec_edges ra_edges sky_map hits_map set_sky_map set_hits_map
       det_offset_dict ra0 dec0 xlen ylen res nx ny].
  rewrite Hk. cbn [getitem bind]. rewrite polar_pointing.
  rewrite (polar_histogram w (Some [w]) eq_refl).
  rewrite (polar_histogram 1 None eq_refl).
  unfold grid_add. cbn [zip_with map].
  replace (0 + 1) with (IZR 1) by ring. rewrite int_trunc_0, int_trunc_IZR.
  f_equal. f_equal. repeat f_equal; ring.
Qed.

(** The same for a frame that carries decompression entries: the value
    that is binned is the reconstructed one. *)
Lemma polar_bin_sample (frame : G3Frame) (table : gmap string quat)
    (kid : string) (y_raw : list R) (w s : R) (h : Z) :
  reconstruct frame kid y_raw = [w] ->
  table !! kid = Some identity_quat ->
  bin_detector frame [identity_quat] kid y_raw (polar_maker table s h)
  = (inr (), polar_maker table (s + w) (h + 1)).
Proof.
  intros Hy Hk. unfold bin_detector. rewrite Hy.
  cbv [polar_maker dec_edges ra_edges sky_map hits_map set_sky_map set_hits_map
       det_offset_dict ra0 dec0 xlen ylen res nx ny].
  rewrite Hk. cbn [getitem bind]. rewrite polar_pointing.
  rewrite (polar_histogram w (Some [w]) eq_refl).
  rewrite (polar_histogram 1 None eq_refl).
  unfold grid_add. cbn [zip_with map].
  replace (0 + 1) with (IZR 1) by ring. rewrite int_trunc_0, int_trunc_IZR.
  f_equal. f_equal. repeat f_equal; ring.
Qed.

Lemma compressed_scan_inputs (raw : list (string * list R)) (gain offset : R) :
  scan_inputs (compressed_scan raw gain offset) = inr (raw, [identity_quat]).
Proof.
  unfold scan_inputs, compressed_scan.
  cbn [signal shared_boresight_radec getitem bind map].
  change (vector_first identity_boresight) with identity_quat.
  cbn [mapM]. rewrite (from_quat_unit _ norm_identity). reflexivity.
Qed.

Lemma compressed_scan_reconstruct (raw : list (string * list R))
    (gain offset : R) (y_raw : list R) :
  reconstruct (compressed_scan raw gain offset) "A" y_raw
  = map (fun v => v / gain + offset) y_raw.
Proof. reflexivity. Qed.

Lemma compressed_scan_finite_gain (raw : list (string * list R))
    (gain offset : R) :
  gain <> 0 -> finite_gain (compressed_scan raw gain offset) "A".
Proof.
  intros Hg g o Hgain _.
  assert (E : scalars (compressed_scan raw gain offset)
              !! ("compress_signal_" +:+ "A" +:+ "_gain") = Some gain)
    by reflexivity.
  rewrite E in Hgain. injection Hgain as <-. exact Hg.
Qed.

(** ** [Process], branch by branch *)

Lemma Process_calibration (self : QuickMapMaker) (frame : G3Frame) :
  type frame = Calibration ->
  Process self frame
  = match load_focalplane frame with
    | inl e => {| returned := inl e; self_after := self; shown := None |}
    | inr d =>
        {| returned := inr (Some frame);
           self_after := set_det_offset_dict d self; shown := None |}
    end.
Proof. intros H. unfold Process. rewrite H. reflexivity. Qed.

Lemma Process_scan (self : QuickMapMaker) (frame : G3Frame) :
  type frame = Scan ->
  Process self frame
  = match scan_inputs frame with
    | inl e => {| returned := inl e; self_after := self; shown := None |}
    | inr (raw_signal, boresight_r) =>
        match scan_loop frame boresight_r raw_signal self with
        | (inl e, self') =>
            {| returned := inl e; self_after := self'; shown := None |}
        | (inr _, self') =>
            {| returned := inr (Some frame); self_after := self'; shown := None |}
        end
    end.
Proof. intros H. unfold Process. rewrite H. reflexivity. Qed.

Lemma Process_end (self : QuickMapMaker) (frame : G3Frame) :
  type frame = EndProcessing ->
  Process self frame
  = match map_extent self with
    | inl e => {| returned := inl e; self_after := self; shown := None |}
    | inr extent =>
        {| returned := inr (Some frame); self_after := self;
           shown := Some {| image := final_map self; extent := extent |} |}
    end.
Proof. intros H. unfold Process. rewrite H. reflexivity. Qed.

Lemma Process_other (self : QuickMapMaker) (frame : G3Frame) :
  type frame <> Calibration -> type frame <> Scan ->
  type frame <> EndProcessing ->
  Process self frame
  = {| returned := inr None; self_after := self; shown := None |}.
Proof.
  intros H1 H2 H3. unfold Process.
  destruct (decide (type frame = Calibration)); [contradiction|].
  destruct (decide (type frame = Scan)); [contradiction|].
  destruct (decide (type frame = EndProcessing)); [contradiction|].
  reflexivity.
Qed.

Lemma scan_inputs_signal (frame : G3Frame) (raw : list (string * list R))
    (br : list quat) :
  scan_inputs frame = inr (raw, br) -> signal frame = Some raw.
Proof.
  unfold scan_inputs. destruct (signal frame) as [raw'|]; simpl; [|discriminate].
  destruct (shared_boresight_radec frame) as [bq|]; simpl; [|discriminate].
  destruct (mapM _ _); simpl; [discriminate|]. intros [= <- _]. reflexivity.
Qed.

Lemma scan_loop_unknown (frame : G3Frame) (br : list quat)
    (pre post : list (string * list R)) (kid : string) (y : list R)
    (self : QuickMapMaker) :
  det_offset_dict self !! kid = None ->
  (forall s, (scan_loop frame br pre self).2 = s ->
             det_offset_dict s = det_offset_dict self) ->
  exists e, scan_loop frame br (pre ++ (kid, y) :: post) self
            = (inl e, (scan_loop frame br pre self).2) /\
    ((scan_loop frame br pre self).1 = inr () -> e = KeyError kid).
Proof.
  intros Hk Hdict. rewrite scan_loop_app.
  destruct (scan_loop frame br pre self) as [[e|[]] self1] eqn:E.
  - exists e. split; [reflexivity|]. simpl. discriminate.
  - exists (KeyError kid). split; [|reflexivity].
    cbn [scan_loop]. rewrite bin_detector_unknown; [reflexivity|].
    rewrite (Hdict self1 eq_refl). exact Hk.
Qed.

(** The loop never touches the calibration table or the edges. *)
Lemma bin_detector_fields (frame : G3Frame) (br : list quat) (kid : string)
    (y_raw : list R) (self self' : QuickMapMaker) (r : exn + ()) :
  bin_detector frame br kid y_raw self = (r, self') ->
  det_offset_dict self' = det_offset_dict self /\
  dec_edges self' = dec_edges self /\ ra_edges self' = ra_edges self.
Proof.
  intros H. destruct r as [e|[]].
  - apply bin_detector_inl in H. subst. auto.
  - apply bin_detector_inr in H.
    destruct H as (det_q & ra & dec & dl & rl & _ & _ & _ & _ & _ & _ & _ & ->).
    auto.
Qed.

Lemma scan_loop_fields (frame : G3Frame) (br : list quat)
    (raw : list (string * list R)) (self self' : QuickMapMaker) (r : exn + ()) :
  scan_loop frame br raw self = (r, self') ->
  det_offset_dict self' = det_offset_dict self /\
  dec_edges self' = dec_edges self /\ ra_edges self' = ra_edges self.
Proof.
  revert self. induction raw as [|[kid y] raw IH]; intros self H; simpl in H.
  - injection H as _ <-. auto.
  - destruct (bin_detector frame br kid y self) as [[e|u] self1] eqn:E.
    + injection H as _ <-. eapply bin_detector_fields; eauto.
    + destruct (bin_detector_fields _ _ _ _ _ _ _ E) as (Ht & Hd & Hr).
      destruct (IH self1 H) as (Ht' & Hd' & Hr').
      repeat split; congruence.
Qed.

(** * The claims *)

Lemma mixed_scan_run :
  Process calibrated_maker mixed_scan
  = {| returned := inl (KeyError "B");
       self_after := polar_maker {["A" := identity_quat]} (0 + 5) (0 + 1);
       shown := None |}.
Proof.
  rewrite Process_scan by reflexivity.
  unfold mixed_scan. rewrite polar_scan_inputs.
  unfold calibrated_maker. cbn [scan_loop].
  rewrite polar_bin_detector by apply lookup_singleton_eq.
  rewrite bin_detector_unknown; [reflexivity|].
  apply lookup_singleton_ne. discriminate.
Qed.

(** C1, as stated, fails: a batch that lists the calibrated detector "A"
    before the uncalibrated detector "B" raises [KeyError] for "B", but only
    after the sample of "A" has been added to both grids. *)
Lemma C1_partial_binning :
  det_offset_dict calibrated_maker !! "B" = None /\
  returned (Process calibrated_maker mixed_scan) = inl (KeyError "B") /\
  hits_map (self_after (Process calibrated_maker mixed_scan))
    <> hits_map calibrated_maker /\
  sky_map (self_after (Process calibrated_maker mixed_scan))
    <> sky_map calibrated_maker.
Proof.
  rewrite mixed_scan_run. cbn [returned self_after].
  split; [|split; [|split]].
  - apply lookup_singleton_ne. discriminate.
  - reflexivity.
  - unfold calibrated_maker, polar_maker. cbn [hits_map]. intros H.
    injection H as H. discriminate H.
  - unfold calibrated_maker, polar_maker. cbn [sky_map]. intros H.
    injection H as H. lra.
Qed.

(** C1, amended: a scan batch that lists a detector absent from the
    calibration table raises an exception ([KeyError] for that detector when
    the detectors listed before it were binned without error), bins nothing
    from that detector on, and leaves the object as the detectors listed
    before it left it; the grids are unchanged when the absent detector is
    the first of the batch. *)
Theorem C1_abort_at_first_unknown_detector
    (self : QuickMapMaker) (frame : G3Frame)
    (pre post : list (string * list R)) (kid : string) (y : list R) :
  type frame = Scan ->
  signal frame = Some (pre ++ (kid, y) :: post) ->
  det_offset_dict self !! kid = None ->
  (exists e, returned (Process self frame) = inl e) /\
  (forall br, scan_inputs frame = inr (pre ++ (kid, y) :: post, br) ->
     self_after (Process self frame) = (scan_loop frame br pre self).2 /\
     ((scan_loop frame br pre self).1 = inr () ->
      returned (Process self frame) = inl (KeyError kid))) /\
  (pre = [] -> self_after (Process self frame) = self).
Proof.
  intros Ht Hs Hk. rewrite (Process_scan _ _ Ht).
  assert (Hloop : forall br,
    exists e, scan_loop frame br (pre ++ (kid, y) :: post) self
              = (inl e, (scan_loop frame br pre self).2) /\
      ((scan_loop frame br pre self).1 = inr () -> e = KeyError kid)).
  { intros br. apply scan_loop_unknown; [exact Hk|].
    intros s Hsnd. destruct (scan_loop frame br pre self) as [r s'] eqn:E.
    simpl in Hsnd. subst s'. apply (scan_loop_fields _ _ _ _ _ _ E). }
  destruct (scan_inputs frame) as [e|[raw br]] eqn:Ei.
  - split; [eauto|]. split; [discriminate|]. reflexivity.
  - pose proof (scan_inputs_signal _ _ _ Ei) as Hraw.
    rewrite Hs in Hraw. injection Hraw as <-.
    destruct (Hloop br) as (e & He & Hkey). rewrite He. cbn [returned self_after].
    split; [eauto|]. split.
    + intros br' [= <-]. split; [reflexivity|].
      intros Hok. rewrite (Hkey Hok). reflexivity.
    + intros ->. reflexivity.
Qed.

(** C1 on the batch that lists "A" before the uncalibrated "B". *)
Lemma C1_abort_at_first_unknown_detector_witness :
  (exists e, returned (Process calibrated_maker mixed_scan) = inl e) /\
  (forall br, scan_inputs mixed_scan = inr ([("A", [5])] ++ [("B", [7])], br) ->
     self_after (Process calibrated_maker mixed_scan)
     = (scan_loop mixed_scan br [("A", [5])] calibrated_maker).2 /\
     ((scan_loop mixed_scan br [("A", [5])] calibrated_maker).1 = inr () ->
      returned (Process calibrated_maker mixed_scan) = inl (KeyError "B"))) /\
  ([("A", [5])] = [] ->
   self_after (Process calibrated_maker mixed_scan) = calibrated_maker).
Proof.
  apply (C1_abort_at_first_unknown_detector calibrated_maker mixed_scan
           [("A", [5])] [] "B" [7]).
  - reflexivity.
  - reflexivity.
  - reflexivity.
Defined.

(** C9, as stated, fails: for a frame of another type [Process] falls off
    its last [if] and returns [None], not the frame; and a frame on which an
    exception is raised is not returned at all. *)
Lemma C9_frame_not_always_returned :
  returned (Process calibrated_maker (bare_frame Timepoint))
    <> inr (Some (bare_frame Timepoint)) /\
  returned (Process calibrated_maker mixed_scan) <> inr (Some mixed_scan).
Proof.
  split.
  - rewrite Process_other by discriminate. discriminate.
  - rewrite mixed_scan_run. discriminate.
Qed.

(** C9, amended: whenever [Process] raises no exception, a Calibration,
    Scan or EndProcessing frame is returned as that same frame; for a frame
    of any other type [Process] returns [None] (no frame object), changes no
    attribute of the map maker and plots nothing. *)
Theorem C9_frame_returned_or_none (self : QuickMapMaker) (frame : G3Frame) :
  (type frame = Calibration \/ type frame = Scan \/ type frame = EndProcessing ->
   forall r, returned (Process self frame) = inr r -> r = Some frame) /\
  (type frame <> Calibration -> type frame <> Scan ->
   type frame <> EndProcessing ->
   Process self frame
   = {| returned := inr None; self_after := self; shown := None |}).
Proof.
  split.
  - intros [H|[H|H]] r.
    + rewrite (Process_calibration _ _ H).
      destruct (load_focalplane frame); cbn [returned]; congruence.
    + rewrite (Process_scan _ _ H).
      destruct (scan_inputs frame) as [|[raw br]]; cbn [returned]; [congruence|].
      destruct (scan_loop frame br raw self) as [[|] ?]; cbn [returned];
        congruence.
    + rewrite (Process_end _ _ H).
      destruct (map_extent self); cbn [returned]; congruence.
  - apply Process_other.
Qed.

(** C9 on a scan frame and on a frame of another type. *)
Lemma C9_frame_returned_or_none_witness :
  (forall r, returned (Process calibrated_maker (polar_scan [("A", [5])])) = inr r ->
             r = Some (polar_scan [("A", [5])])) /\
  Process calibrated_maker (bare_frame Timepoint)
  = {| returned := inr None; self_after := calibrated_maker; shown := None |}.
Proof.
  split.
  - apply (proj1 (C9_frame_returned_or_none calibrated_maker
                    (polar_scan [("A", [5])]))).
    right. left. reflexivity.
  - apply (proj2 (C9_frame_returned_or_none calibrated_maker
                    (bare_frame Timepoint))); discriminate.
Defined.

(** The sibling module [FrameCounter] never returns a frame either: for the
    host framework a module that returns [None] lets the frame pass. *)
Lemma FrameCounter_returns_none (self : FrameCounter.t) (frame : G3Frame) :
  (FrameCounter.Process self frame).1 = None.
Proof.
  unfold FrameCounter.Process.
  destruct (decide (Some (type frame) = FrameCounter.previous_type self));
    reflexivity.
Qed.

Lemma mapM_from_quat_ok (l : list quat) :
  Forall (fun q => Rotation.norm q <> 0) l ->
  exists br, mapM Rotation.from_quat l = inr br /\
    length br = length l /\ Forall (fun r => Rotation.norm r = 1) br.
Proof.
  induction 1 as [|q l Hq Hl (br & Hbr & Hlen & Hu)].
  - exists []. repeat split. constructor.
  - destruct (from_quat_ok q Hq) as (r & Hr & Hr1).
    exists (r :: br). cbn [mapM]. rewrite Hr, Hbr. cbn [bind length].
    repeat split; [congruence|]. constructor; assumption.
Qed.

Lemma mapM_from_quat_inv (l br : list quat) :
  mapM Rotation.from_quat l = inr br ->
  length br = length l /\ Forall (fun r => Rotation.norm r = 1) br.
Proof.
  revert br. induction l as [|q l IH]; intros br H; cbn [mapM] in H.
  - injection H as <-. split; [reflexivity|constructor].
  - destruct (Rotation.from_quat q) as [|r] eqn:Er; [discriminate|].
    cbn [bind] in H. destruct (mapM Rotation.from_quat l) as [|br'];
      [discriminate|].
    cbn [bind] in H. injection H as <-.
    destruct (IH br' eq_refl) as [Hlen Hu].
    apply from_quat_inv in Er as [_ Hr].
    split; [simpl; congruence|constructor; assumption].
Qed.

Lemma mapM_from_quat_zero (l : list quat) :
  Exists (fun q => Rotation.norm q = 0) l ->
  mapM Rotation.from_quat l = inl ValueError.
Proof.
  induction l as [|q l IH]; intros H; [inversion H|].
  cbn [mapM]. unfold Rotation.from_quat at 1.
  destruct (Req_dec_T (Rotation.norm q) 0) as [|Hn]; [reflexivity|].
  cbn [bind]. rewrite IH; [reflexivity|].
  inversion H; subst; [contradiction|assumption].
Qed.

Lemma norm_identity_boresight : Rotation.norm identity_boresight = 1.
Proof.
  rewrite <- norm_vector_first. exact norm_identity.
Qed.

(** C10, as stated, fails: an empty signal mapping does not make a scan
    frame acceptable.  The boresight entry is read before the loop, so a
    frame with an empty mapping and no boresight entry raises [KeyError]. *)
Lemma C10_empty_batch_refused :
  type empty_scan_without_boresight = Scan /\
  signal empty_scan_without_boresight = Some [] /\
  Process (polar_maker ∅ 0 0) empty_scan_without_boresight
  = {| returned := inl (KeyError "shared_boresight_radec");
       self_after := polar_maker ∅ 0 0; shown := None |}.
Proof. repeat split. Qed.

(** C10, amended: a scan frame with an empty signal mapping is accepted,
    whatever the calibration table holds, when it carries its boresight
    entry and no boresight quaternion is zero, and it then leaves the whole
    object unchanged.  Without the boresight entry it raises [KeyError], and
    with a zero boresight quaternion [ValueError]; the object is unchanged
    then too. *)
Theorem C10_empty_batch_accepted (self : QuickMapMaker) (frame : G3Frame) :
  type frame = Scan ->
  signal frame = Some [] ->
  (forall boresight_q,
      shared_boresight_radec frame = Some boresight_q ->
      Forall (fun q => Rotation.norm q <> 0) boresight_q ->
      Process self frame
      = {| returned := inr (Some frame); self_after := self; shown := None |}) /\
  (shared_boresight_radec frame = None ->
   Process self frame
   = {| returned := inl (KeyError "shared_boresight_radec");
        self_after := self; shown := None |}) /\
  (forall boresight_q,
      shared_boresight_radec frame = Some boresight_q ->
      Exists (fun q => Rotation.norm q = 0) boresight_q ->
      Process self frame
      = {| returned := inl ValueError; self_after := self; shown := None |}).
Proof.
  intros Ht Hs. rewrite (Process_scan _ _ Ht). unfold scan_inputs. rewrite Hs.
  cbn [getitem bind]. split; [|split].
  - intros boresight_q Hb Hq. rewrite Hb. cbn [getitem bind].
    destruct (mapM_from_quat_ok (map vector_first boresight_q)) as (br & Hbr & _).
    { apply List.Forall_map. eapply Forall_impl; [exact Hq|].
      intros q Hn. simpl. rewrite norm_vector_first. exact Hn. }
    rewrite Hbr. reflexivity.
  - intros ->. reflexivity.
  - intros boresight_q -> Hz. cbn [getitem bind].
    rewrite mapM_from_quat_zero; [reflexivity|].
    apply List.Exists_map. eapply List.Exists_impl; [|exact Hz].
    intros q Hq. simpl. rewrite norm_vector_first. exact Hq.
Qed.

(** C10 on a map maker that has never been calibrated. *)
Lemma C10_empty_batch_accepted_witness :
  det_offset_dict (polar_maker ∅ 0 0) = ∅ /\
  Process (polar_maker ∅ 0 0) (polar_scan [])
  = {| returned := inr (Some (polar_scan []));
       self_after := polar_maker ∅ 0 0; shown := None |}.
Proof.
  split; [reflexivity|].
  apply (proj1 (C10_empty_batch_accepted (polar_maker ∅ 0 0) (polar_scan [])
                  eq_refl eq_refl) [identity_boresight]).
  - reflexivity.
  - constructor; [|constructor].
    rewrite norm_identity_boresight. lra.
Defined.

(** C8: plotting the final map twice, with no scan in between, shows the
    same map both times, and leaves the map maker exactly as it was. *)
Theorem C8_finalize_idempotent
    (self : QuickMapMaker) (frame1 frame2 : G3Frame) :
  type frame1 = EndProcessing -> type frame2 = EndProcessing ->
  self_after (Process self frame1) = self /\
  self_after (Process (self_after (Process self frame1)) frame2) = self /\
  shown (Process (self_after (Process self frame1)) frame2)
  = shown (Process self frame1).
Proof.
  intros H1 H2.
  assert (Hs : forall f, type f = EndProcessing ->
                         self_after (Process self f) = self).
  { intros f Hf. rewrite (Process_end _ _ Hf).
    destruct (map_extent self); reflexivity. }
  rewrite (Hs frame1 H1). split; [reflexivity|]. split; [apply Hs, H2|].
  rewrite (Process_end _ _ H1), (Process_end _ _ H2).
  destruct (map_extent self); reflexivity.
Qed.

(** C8 on the calibrated map maker. *)
Lemma C8_finalize_idempotent_witness :
  self_after (Process calibrated_maker (bare_frame EndProcessing))
  = calibrated_maker /\
  self_after (Process (self_after (Process calibrated_maker
                                     (bare_frame EndProcessing)))
                (bare_frame EndProcessing)) = calibrated_maker /\
  shown (Process (self_after (Process calibrated_maker
                                (bare_frame EndProcessing)))
           (bare_frame EndProcessing))
  = shown (Process calibrated_maker (bare_frame EndProcessing)).
Proof.
  apply (C8_finalize_idempotent calibrated_maker (bare_frame EndProcessing)
           (bare_frame EndProcessing)); reflexivity.
Defined.

(** ** The final map *)

Lemma cell_map {A B : Type} (f : A -> B) (a : list (list A)) (i j : nat) :
  cell (map (map f) a) i j = f <$> cell a i j.
Proof.
  unfold cell. revert i. induction a as [|row a IH]; intros [|i]; simpl; auto.
  clear IH. revert j. induction row as [|c row IH]; intros [|j]; simpl; auto.
Qed.

Lemma cell_zip_with {A B C : Type} (f : A -> B -> C) (a : list (list A))
    (b : list (list B)) (i j : nat) :
  cell (zip_with (zip_with f) a b) i j
  = match cell a i j, cell b i j with
    | Some x, Some y => Some (f x y)
    | _, _ => None
    end.
Proof.
  unfold cell. rewrite lookup_zip_with.
  destruct (a !! i) as [ra|]; simpl; [|reflexivity].
  destruct (b !! i) as [rb|]; simpl.
  - rewrite lookup_zip_with.
    destruct (ra !! j); simpl; [|reflexivity].
    destruct (rb !! j); reflexivity.
  - destruct (ra !! j); reflexivity.
Qed.

(** Writing back, under a mask, what was read under the same mask. *)
Lemma assign_row_select (src : list R) (m : list bool) (more : list R) :
  length m = length src ->
  assign_row (map (fun _ => 0) src) m (select_row src m ++ more)
  = (zip_with (fun s (b : bool) => if b then s else 0) src m, more).
Proof.
  revert m. induction src as [|s src IH]; intros [|b m] Hl; try discriminate.
  - reflexivity.
  - injection Hl as Hl. cbn [map select_row assign_row zip_with].
    destruct b.
    + cbn [app]. rewrite (IH m Hl). reflexivity.
    + rewrite (IH m Hl). reflexivity.
Qed.

Lemma mask_assign_select (a : list (list R)) (mask : list (list bool))
    (more : list R) :
  Forall2 (fun row m => length m = length row) a mask ->
  mask_assign (zeros_like a) mask (mask_select a mask ++ more)
  = zip_with (zip_with (fun s (b : bool) => if b then s else 0)) a mask.
Proof.
  unfold zeros_like, mask_select. induction 1 as [|row m a mask Hl Hall IH].
  - reflexivity.
  - cbn [map zip_with concat mask_assign]. rewrite <- app_assoc.
    rewrite (assign_row_select row m _ Hl). f_equal. exact IH.
Qed.

Lemma shape_Forall2 {A B : Type} (rows cols : nat) (a : list (list A))
    (b : list (list B)) :
  shape rows cols a -> shape rows cols b ->
  Forall2 (fun ra rb => length rb = length ra) a b.
Proof.
  intros [Ha1 Ha2] [Hb1 Hb2]. subst rows.
  revert b Hb1 Hb2. induction Ha2 as [|ra a Hra Ha IH]; intros [|rb b] Hb1 Hb2;
    try discriminate.
  - constructor.
  - inversion Hb2; subst. constructor; [congruence|].
    apply IH; [simpl in Hb1; congruence|assumption].
Qed.

Lemma final_map_cell (self : QuickMapMaker) (i j : nat) :
  wf self ->
  cell (final_map self) i j
  = match cell (sky_map self) i j, cell (hits_map self) i j with
    | Some s, Some h => Some (if decide (0 < h)%Z then s else 0)
    | _, _ => None
    end.
Proof.
  intros (_ & _ & Hsky & Hhits). unfold final_map.
  rewrite <- (app_nil_r (mask_select _ _)).
  rewrite mask_assign_select.
  - rewrite cell_zip_with, cell_map.
    destruct (cell (sky_map self) i j); [|reflexivity].
    destruct (cell (hits_map self) i j) as [h|]; [|reflexivity].
    simpl. destruct (decide (0 < h)%Z).
    + rewrite bool_decide_eq_true_2 by assumption. reflexivity.
    + rewrite bool_decide_eq_false_2 by assumption. reflexivity.
  - apply (shape_Forall2 _ _ _ _ Hsky). destruct Hhits as [Hr Hc]. split.
    + rewrite length_map. exact Hr.
    + apply List.Forall_map. eapply Forall_impl; [exact Hc|].
      intros row Hrow. simpl. rewrite length_map. exact Hrow.
Qed.

Lemma map_extent_wf (self : QuickMapMaker) :
  wf self -> exists ext, map_extent self = inr ext.
Proof.
  intros (Hd & Hr & _). unfold map_extent, first_item, last_item.
  destruct (ra_edges self) as [|r0 rs] eqn:Er; [contradiction|].
  destruct (dec_edges self) as [|d0 ds] eqn:Ed; [contradiction|].
  cbn [head bind].
  destruct (last (r0 :: rs)) as [r1|] eqn:Elr.
  2:{ apply last_None in Elr. discriminate. }
  destruct (last (d0 :: ds)) as [d1|] eqn:Eld.
  2:{ apply last_None in Eld. discriminate. }
  cbn [bind]. eauto.
Qed.

(** C2: at the end of processing the plotted map holds, pixel by pixel, the
    accumulated sum where the pixel was hit and 0 where it was not; the sum
    is not divided by the hit count. *)
Theorem C2_final_map_is_masked_sum (self : QuickMapMaker) (frame : G3Frame) :
  wf self -> type frame = EndProcessing ->
  exists fig,
    shown (Process self frame) = Some fig /\
    returned (Process self frame) = inr (Some frame) /\
    forall i j,
      cell (image fig) i j
      = match cell (sky_map self) i j, cell (hits_map self) i j with
        | Some s, Some h => Some (if decide (0 < h)%Z then s else 0)
        | _, _ => None
        end.
Proof.
  intros Hwf Ht. rewrite (Process_end _ _ Ht).
  destruct (map_extent_wf self Hwf) as [ext ->].
  eexists. split; [reflexivity|]. split; [reflexivity|].
  intros i j. apply final_map_cell, Hwf.
Qed.

Lemma polar_maker_wf (table : gmap string quat) (s : R) (h : Z) :
  wf (polar_maker table s h).
Proof.
  unfold wf, shape, polar_maker. simpl.
  repeat split; try discriminate; repeat constructor.
Qed.

(** C2 on a map maker with sum 5 and 2 hits in one pixel. *)
Lemma C2_final_map_is_masked_sum_witness :
  exists fig,
    shown (Process (polar_maker ∅ 5 2) (bare_frame EndProcessing)) = Some fig /\
    returned (Process (polar_maker ∅ 5 2) (bare_frame EndProcessing))
    = inr (Some (bare_frame EndProcessing)) /\
    forall i j,
      cell (image fig) i j
      = match cell (sky_map (polar_maker ∅ 5 2)) i j,
              cell (hits_map (polar_maker ∅ 5 2)) i j with
        | Some s, Some h => Some (if decide (0 < h)%Z then s else 0)
        | _, _ => None
        end.
Proof.
  apply (C2_final_map_is_masked_sum (polar_maker ∅ 5 2)
           (bare_frame EndProcessing)).
  - apply polar_maker_wf.
  - reflexivity.
Defined.

(** A pixel with sum 5 from 2 hits is shown as 5, a pixel without hits as 0. *)
Example final_map_polar :
  final_map (polar_maker ∅ 5 2) = [[0; 0]; [0; 5]].
Proof. reflexivity. Qed.

(** ** Successful scans *)

Lemma Process_scan_inr (self : QuickMapMaker) (frame : G3Frame)
    (r : option G3Frame) :
  type frame = Scan -> returned (Process self frame) = inr r ->
  exists raw br self',
    scan_inputs frame = inr (raw, br) /\
    scan_loop frame br raw self = (inr (), self') /\
    Process self frame
    = {| returned := inr (Some frame); self_after := self'; shown := None |}.
Proof.
  intros Ht. rewrite (Process_scan _ _ Ht).
  destruct (scan_inputs frame) as [|[raw br]]; [discriminate|].
  destruct (scan_loop frame br raw self) as [[|[]] self'] eqn:E; [discriminate|].
  intros _. exists raw, br, self'. auto.
Qed.

Lemma mapM_length {A B : Type} (f : A -> exn + B) (l : list A) (l' : list B) :
  mapM f l = inr l' -> length l' = length l.
Proof.
  revert l'. induction l as [|x l IH]; intros l' H; cbn [mapM] in H.
  - injection H as <-. reflexivity.
  - destruct (f x); [discriminate|]. cbn [bind] in H.
    destruct (mapM f l) as [|ys]; [discriminate|]. cbn [bind] in H.
    injection H as <-. simpl. f_equal. apply IH. reflexivity.
Qed.

Lemma detector_radec_samples (br : list quat) (det_q : quat) (ra dec : list R) :
  detector_radec br det_q = inr (ra, dec) ->
  length ra = length br /\ length dec = length br.
Proof.
  unfold detector_radec.
  destruct (Rotation.from_quat det_q) as [|det_r]; [discriminate|]. cbn [bind].
  destruct (mapM _ br) as [|cr] eqn:E; [discriminate|]. cbn [bind].
  intros [= <- <-]. rewrite !length_map. apply mapM_length in E. auto.
Qed.

Lemma samples_in_range_le (self : QuickMapMaker) (br : list quat) (kid : string) :
  (samples_in_range self br kid <= length br)%nat.
Proof.
  unfold samples_in_range.
  destruct (det_offset_dict self !! kid) as [det_q|]; [|lia].
  destruct (detector_radec br det_q) as [|[ra dec]] eqn:E; [lia|].
  apply detector_radec_samples in E as [Hra Hdec].
  etransitivity; [apply length_filter|]. rewrite length_zip. lia.
Qed.

Lemma in_range_in_bin (edges : list R) (l v : R) :
  monotonic edges = true -> last edges = Some l ->
  in_range edges v = true <-> exists i, in_bin edges i v.
Proof.
  intros Hm Hl. rewrite <- (core_bin_in_range edges l v Hm Hl). split.
  - intros [i Hi]. exists i. apply (core_bin_in_bin edges l v i Hm Hl), Hi.
  - intros [i Hi]. exists i. apply (core_bin_in_bin edges l v i Hm Hl), Hi.
Qed.

(** C3: a successful scan raises the total hit count, detector by detector,
    by the number of the detector's samples whose pointing lies within the
    edges in both directions; a value is in bin [i] iff
    [edges[i] <= v < edges[i+1]], the last bin being closed on the right;
    samples outside the grid contribute to neither histogram. *)
Theorem C3_hits_conservation (self : QuickMapMaker) (frame : G3Frame)
    (r : option G3Frame) :
  wf self -> type frame = Scan -> returned (Process self frame) = inr r ->
  exists raw br,
    scan_inputs frame = inr (raw, br) /\
    total (hits_map (self_after (Process self frame)))
    = (total (hits_map self) + batch_in_range self br raw)%Z /\
    (forall kid y s s',
        wf s -> bin_detector frame br kid y s = (inr (), s') ->
        total (hits_map s')
        = (total (hits_map s) + Z.of_nat (samples_in_range s br kid))%Z /\
        (samples_in_range s br kid <= length br)%nat) /\
    (forall edges l v,
        monotonic edges = true -> last edges = Some l ->
        (forall i, core_bin edges l v = Some i <-> in_bin edges i v) /\
        (in_range edges v = true <-> exists i, in_bin edges i v)) /\
    (forall xe ye xl yl samples,
        monotonic xe = true -> monotonic ye = true ->
        last xe = Some xl -> last ye = Some yl ->
        bincount2d xe ye xl yl samples
        = bincount2d xe ye xl yl (filter (sample_in_range xe ye) samples)).
Proof.
  intros Hwf Ht Hr.
  destruct (Process_scan_inr _ _ _ Ht Hr) as (raw & br & self' & Hi & Hl & ->).
  exists raw, br. cbn [self_after].
  split; [exact Hi|]. split; [apply (scan_loop_total _ _ _ _ _ Hwf Hl)|].
  split; [|split].
  - intros kid y s s' Hs Hb.
    split; [apply (bin_detector_total _ _ _ _ _ _ Hs Hb)|].
    apply samples_in_range_le.
  - intros edges l v Hm Hlast. split.
    + intros i. apply core_bin_in_bin; assumption.
    + apply (in_range_in_bin edges l v); assumption.
  - intros xe ye xl yl samples Hmx Hmy Hlx Hly.
    apply foldl_deposit_filter; assumption.
Qed.

Lemma single_scan_run (w s : R) (h : Z) :
  Process (polar_maker {["A" := identity_quat]} s h) (single_scan w)
  = {| returned := inr (Some (single_scan w));
       self_after := polar_maker {["A" := identity_quat]} (s + w) (h + 1);
       shown := None |}.
Proof.
  rewrite Process_scan by reflexivity.
  unfold single_scan. rewrite polar_scan_inputs. cbn [scan_loop].
  rewrite polar_bin_detector by apply lookup_singleton_eq. reflexivity.
Qed.

(** C3 on a batch with one sample at the pole. *)
Lemma C3_hits_conservation_witness :
  wf calibrated_maker /\
  returned (Process calibrated_maker (single_scan 5))
  = inr (Some (single_scan 5)) /\
  exists raw br,
    scan_inputs (single_scan 5) = inr (raw, br) /\
    total (hits_map (self_after (Process calibrated_maker (single_scan 5))))
    = (total (hits_map calibrated_maker)
       + batch_in_range calibrated_maker br raw)%Z.
Proof.
  assert (Hwf : wf calibrated_maker) by apply polar_maker_wf.
  assert (Hr : returned (Process calibrated_maker (single_scan 5))
               = inr (Some (single_scan 5))).
  { unfold calibrated_maker. rewrite single_scan_run. reflexivity. }
  split; [exact Hwf|]. split; [exact Hr|].
  destruct (C3_hits_conservation calibrated_maker (single_scan 5)
              (Some (single_scan 5)) Hwf eq_refl Hr)
    as (raw & br & Hi & Htot & _).
  exists raw, br. split; [exact Hi|exact Htot].
Defined.

(** The sample at the pole is the one in-range sample of that batch. *)
Example single_scan_in_range :
  batch_in_range calibrated_maker [identity_quat] [("A", [5])] = 1%Z.
Proof.
  unfold batch_in_range, samples_in_range, calibrated_maker.
  cbn [map fst polar_maker det_offset_dict dec_edges ra_edges].
  rewrite lookup_singleton_eq, polar_pointing.
  cbn [zip zip_with]. rewrite filter_cons, filter_nil.
  destruct (decide _) as [|Hn]; [reflexivity|].
  exfalso. apply Hn. unfold in_range. cbn [head last fst snd length].
  decide_reals. split; reflexivity.
Qed.

(** C7, as stated, fails for the sums: a pixel that holds 5 and receives a
    sample of value -5 ends at 0. *)
Lemma C7_sum_magnitude_shrinks :
  returned (Process (polar_maker {["A" := identity_quat]} 5 1) (single_scan (-5)))
  = inr (Some (single_scan (-5))) /\
  cell (sky_map (polar_maker {["A" := identity_quat]} 5 1)) 1 1 = Some 5 /\
  exists s',
    cell (sky_map (self_after
            (Process (polar_maker {["A" := identity_quat]} 5 1)
               (single_scan (-5))))) 1 1 = Some s' /\
    Rabs s' < Rabs 5.
Proof.
  rewrite single_scan_run. split; [reflexivity|]. split; [reflexivity|].
  exists (5 + -5). split; [reflexivity|].
  replace (5 + -5) with 0 by ring. rewrite Rabs_R0.
  rewrite Rabs_pos_eq; lra.
Qed.

(** C7, amended: during a successful scan no pixel of the hit count
    decreases; no pixel of the sum decreases when no detector of the batch
    is decompressed with a zero gain and every reconstructed sample value of
    the batch is non-negative, and then the magnitude of a non-negative sum
    does not decrease either. *)
Theorem C7_grids_grow (self : QuickMapMaker) (frame : G3Frame)
    (r : option G3Frame) :
  wf self -> type frame = Scan -> returned (Process self frame) = inr r ->
  (forall i j h,
      cell (hits_map self) i j = Some h ->
      exists h', cell (hits_map (self_after (Process self frame))) i j = Some h'
                 /\ (h <= h')%Z) /\
  (forall raw,
      signal frame = Some raw ->
      finite_gains frame raw -> nonneg_signal frame raw ->
      forall i j s,
        cell (sky_map self) i j = Some s ->
        exists s', cell (sky_map (self_after (Process self frame))) i j = Some s'
                   /\ s <= s' /\ (0 <= s -> Rabs s <= Rabs s')).
Proof.
  intros Hwf Ht Hr.
  destruct (Process_scan_inr _ _ _ Ht Hr) as (raw & br & self' & Hi & Hl & ->).
  cbn [self_after]. split.
  - intros i j h Hc. apply (scan_loop_hits_mono _ _ _ _ _ i j h Hwf Hl Hc).
  - intros raw' Hraw _ Hnn i j s Hc.
    apply scan_inputs_signal in Hi. rewrite Hraw in Hi. injection Hi as ->.
    destruct (scan_loop_sky_mono _ _ _ _ _ i j s Hwf Hl Hnn Hc) as (s' & Hc' & Hle).
    exists s'. split; [exact Hc'|]. split; [exact Hle|].
    intros Hs. rewrite !Rabs_pos_eq; lra.
Qed.

(** One compressed sample of detector "A": raw value 8, gain 2, offset 1,
    so that the value 5 is binned. *)
Lemma compressed_scan_run :
  Process calibrated_maker (compressed_scan [("A", [8])] 2 1)
  = {| returned := inr (Some (compressed_scan [("A", [8])] 2 1));
       self_after := polar_maker {["A" := identity_quat]} (0 + (8 / 2 + 1)) (0 + 1);
       shown := None |}.
Proof.
  rewrite Process_scan by reflexivity.
  rewrite compressed_scan_inputs. cbn [scan_loop].
  unfold calibrated_maker.
  rewrite (polar_bin_sample _ _ _ _ (8 / 2 + 1))
    by (reflexivity || apply lookup_singleton_eq).
  reflexivity.
Qed.

(** C7 on a batch with one compressed sample, of reconstructed value 5. *)
Lemma C7_grids_grow_witness :
  wf calibrated_maker /\
  finite_gains (compressed_scan [("A", [8])] 2 1) [("A", [8])] /\
  nonneg_signal (compressed_scan [("A", [8])] 2 1) [("A", [8])] /\
  (forall i j h,
      cell (hits_map calibrated_maker) i j = Some h ->
      exists h', cell (hits_map (self_after
                         (Process calibrated_maker
                            (compressed_scan [("A", [8])] 2 1)))) i j
                 = Some h' /\ (h <= h')%Z) /\
  (forall raw,
      signal (compressed_scan [("A", [8])] 2 1) = Some raw ->
      finite_gains (compressed_scan [("A", [8])] 2 1) raw ->
      nonneg_signal (compressed_scan [("A", [8])] 2 1) raw ->
      forall i j s,
        cell (sky_map calibrated_maker) i j = Some s ->
        exists s', cell (sky_map (self_after
                           (Process calibrated_maker
                              (compressed_scan [("A", [8])] 2 1)))) i j
                   = Some s'
                   /\ s <= s' /\ (0 <= s -> Rabs s <= Rabs s')).
Proof.
  split; [apply polar_maker_wf|]. split.
  { constructor; [|constructor]. apply compressed_scan_finite_gain. lra. }
  split.
  { constructor; [|constructor]. cbn [fst snd].
    rewrite compressed_scan_reconstruct. constructor; [|constructor]. lra. }
  apply (C7_grids_grow calibrated_maker (compressed_scan [("A", [8])] 2 1)
           (Some (compressed_scan [("A", [8])] 2 1))).
  - apply polar_maker_wf.
  - reflexivity.
  - rewrite compressed_scan_run. reflexivity.
Defined.

(** ** Calibration *)

(** The dictionary comprehension keeps, for each name, the last row that
    carries it, among the rows that both columns have. *)
Lemma dict_of_zip_lookup (names : list string) (quats : list quat) (k : string) :
  dict_of_zip names quats !! k
  = snd <$> last (filter (fun p : string * quat => p.1 = k) (zip names quats)).
Proof.
  unfold dict_of_zip. generalize (zip names quats) as l. clear names quats.
  induction l as [|[k' v] l IH] using rev_ind.
  - simpl. apply lookup_empty.
  - rewrite foldl_snoc, filter_app. cbn beta iota.
    rewrite lookup_insert, filter_cons, filter_nil. cbn [fst].
    destruct (decide (k' = k)) as [->|Hne].
    + rewrite last_snoc. reflexivity.
    + rewrite app_nil_r. exact IH.
Qed.

(** C6, as stated, fails for columns of different lengths: [zip] stops at
    the shorter column, no exception is raised, and the table is replaced. *)
Lemma C6_mismatched_columns_accepted :
  length ["A"; "B"] <> length [identity_quat] /\
  returned (Process (polar_maker ∅ 0 0)
              (calibration_frame ["A"; "B"] [identity_quat]))
  = inr (Some (calibration_frame ["A"; "B"] [identity_quat])) /\
  det_offset_dict (self_after (Process (polar_maker ∅ 0 0)
                     (calibration_frame ["A"; "B"] [identity_quat])))
  = {["A" := identity_quat]}.
Proof.
  split; [discriminate|].
  rewrite Process_calibration by reflexivity.
  split; reflexivity.
Qed.

(** C6, amended: a calibration frame whose blob cannot be read raises an
    exception and leaves the map maker, its table included, unchanged; a
    readable blob never raises, leaves both grids unchanged and replaces the
    table wholesale by the rows of the blob (for each name the last row that
    carries it, up to the length of the shorter column). *)
Theorem C6_calibration_replaces_table (self : QuickMapMaker) (frame : G3Frame) :
  type frame = Calibration ->
  (forall e, load_focalplane frame = inl e ->
     Process self frame
     = {| returned := inl e; self_after := self; shown := None |}) /\
  (focalplane frame = Some Unreadable ->
     Process self frame
     = {| returned := inl OSError; self_after := self; shown := None |}) /\
  (forall names quats,
     focalplane frame = Some (FocalPlane names quats) ->
     returned (Process self frame) = inr (Some frame) /\
     sky_map (self_after (Process self frame)) = sky_map self /\
     hits_map (self_after (Process self frame)) = hits_map self /\
     forall k,
       det_offset_dict (self_after (Process self frame)) !! k
       = snd <$> last (filter (fun p : string * quat => p.1 = k)
                         (zip names quats))).
Proof.
  intros Ht. rewrite (Process_calibration _ _ Ht). split; [|split].
  - intros e ->. reflexivity.
  - intros Hb. unfold load_focalplane. rewrite Hb. reflexivity.
  - intros names quats Hb. unfold load_focalplane. rewrite Hb.
    cbn [getitem bind returned self_after set_det_offset_dict sky_map hits_map
         det_offset_dict].
    repeat split. apply dict_of_zip_lookup.
Qed.

(** C6 on a table for "B" that arrives after the table for "A". *)
Lemma C6_calibration_replaces_table_witness :
  (forall e, load_focalplane (calibration_frame ["B"] [identity_quat]) = inl e ->
     Process calibrated_maker (calibration_frame ["B"] [identity_quat])
     = {| returned := inl e; self_after := calibrated_maker; shown := None |}) /\
  (focalplane (calibration_frame ["B"] [identity_quat]) = Some Unreadable ->
     Process calibrated_maker (calibration_frame ["B"] [identity_quat])
     = {| returned := inl OSError; self_after := calibrated_maker;
          shown := None |}) /\
  (forall names quats,
     focalplane (calibration_frame ["B"] [identity_quat])
     = Some (FocalPlane names quats) ->
     returned (Process calibrated_maker (calibration_frame ["B"] [identity_quat]))
     = inr (Some (calibration_frame ["B"] [identity_quat])) /\
     sky_map (self_after (Process calibrated_maker
                            (calibration_frame ["B"] [identity_quat])))
     = sky_map calibrated_maker /\
     hits_map (self_after (Process calibrated_maker
                             (calibration_frame ["B"] [identity_quat])))
     = hits_map calibrated_maker /\
     forall k,
       det_offset_dict (self_after (Process calibrated_maker
                          (calibration_frame ["B"] [identity_quat]))) !! k
       = snd <$> last (filter (fun p : string * quat => p.1 = k)
                         (zip names quats))).
Proof.
  apply (C6_calibration_replaces_table calibrated_maker
           (calibration_frame ["B"] [identity_quat])).
  reflexivity.
Defined.

(** After the new table arrives the old entry for "A" is gone. *)
Example recalibration_forgets :
  det_offset_dict (self_after (Process calibrated_maker
                     (calibration_frame ["B"] [identity_quat])))
  = {["B" := identity_quat]}.
Proof. rewrite Process_calibration by reflexivity. reflexivity. Qed.

Example unreadable_calibration :
  Process calibrated_maker unreadable_frame
  = {| returned := inl OSError; self_after := calibrated_maker; shown := None |}.
Proof. rewrite Process_calibration by reflexivity. reflexivity. Qed.

(** ** Construction *)


Lemma Int_part_ge_1 (r : R) : 1 <= r -> (1 <= Int_part r)%Z.
Proof.
  intros Hr. destruct (base_Int_part r) as [_ Hhi].
  assert (H : IZR 0 < IZR (Int_part r)) by (simpl; lra).
  apply lt_IZR in H. lia.
Qed.

Lemma int_trunc_nonneg (r : R) : 0 <= r -> int_trunc r = Int_part r.
Proof. intros Hr. unfold int_trunc. destruct (Rle_dec 0 r); tauto. Qed.

Lemma lookup_map_seq {B : Type} (f : nat -> B) (n i : nat) :
  (i < n)%nat -> map f (seq 0 n) !! i = Some (f i).
Proof.
  intros Hi. change (map f (seq 0 n)) with (f <$> seq 0 n).
  rewrite list_lookup_fmap, lookup_seq_lt by exact Hi. reflexivity.
Qed.

Lemma lookup_map {A B : Type} (f : A -> B) (l : list A) (i : nat) :
  map f l !! i = f <$> l !! i.
Proof. exact (list_lookup_fmap f l i). Qed.


(** The last of two or more [linspace] values is the endpoint. *)
Lemma linspace_last (start stop : R) (num : Z) (l : list R) :
  (2 <= num)%Z -> linspace start stop num = inr l -> last l = Some stop.
Proof.
  intros Hn. unfold linspace. destruct (Z.ltb_spec num 0); [lia|].
  intros [= <-]. rewrite last_lookup, length_map, length_seq.
  rewrite lookup_map_seq by lia. f_equal.
  replace (pred (Z.to_nat num)) with (Z.to_nat num - 1)%nat by lia.
  assert (0 < INR (Z.to_nat num - 1)) by (apply lt_0_INR; lia).
  field. lra.
Qed.

(** What the constructor builds when it does not raise. *)
Lemma init_inr (ra0 dec0 xlen ylen res qx qy : R) :
  res <> 0 ->
  to_float (xlen / res) = Finite qx -> to_float (ylen / res) = Finite qy ->
  (0 <= int_trunc qx)%Z -> (0 <= int_trunc qy)%Z ->
  __init__ ra0 dec0 xlen ylen res
  = inr {| ra0 := ra0; dec0 := dec0; xlen := xlen; ylen := ylen; res := res;
           nx := int_trunc qx; ny := int_trunc qy;
           ra_edges :=
             map (fun e => e + ra0)
               (map (fun i : nat =>
                       INR i * ((xlen / 2 - - xlen / 2)
                                / INR (Z.to_nat (int_trunc qx + 1) - 1))
                       + - xlen / 2)
                  (seq 0 (Z.to_nat (int_trunc qx + 1))));
           dec_edges :=
             map (fun e => e + dec0)
               (map (fun i : nat =>
                       INR i * ((ylen / 2 - - ylen / 2)
                                / INR (Z.to_nat (int_trunc qy + 1) - 1))
                       + - ylen / 2)
                  (seq 0 (Z.to_nat (int_trunc qy + 1))));
           sky_map :=
             replicate (Z.to_nat (int_trunc qy))
               (replicate (Z.to_nat (int_trunc qx)) 0);
           hits_map :=
             replicate (Z.to_nat (int_trunc qy))
               (replicate (Z.to_nat (int_trunc qx)) 0%Z);
           det_offset_dict := ∅ |}.
Proof.
  intros Hres Hqx Hqy Hx Hy. unfold __init__, truediv.
  destruct (Req_dec_T res 0); [contradiction|]. cbn [bind].
  rewrite Hqx, Hqy. cbn [int bind].
  unfold linspace, zeros.
  destruct (Z.ltb_spec (int_trunc qx + 1) 0); [lia|].
  destruct (Z.ltb_spec (int_trunc qy + 1) 0); [lia|].
  destruct (Z.ltb_spec (int_trunc qy) 0); [lia|].
  destruct (Z.ltb_spec (int_trunc qx) 0); [lia|].
  reflexivity.
Qed.

(** Conversely, a map maker that the constructor returns is of that form. *)
Lemma init_inv (ra0 dec0 xlen ylen res : R) (self : QuickMapMaker) :
  __init__ ra0 dec0 xlen ylen res = inr self ->
  exists cols rows : Z,
    (0 <= cols)%Z /\ (0 <= rows)%Z /\
    nx self = cols /\ ny self = rows /\
    length (ra_edges self) = S (Z.to_nat cols) /\
    length (dec_edges self) = S (Z.to_nat rows) /\
    sky_map self = replicate (Z.to_nat rows) (replicate (Z.to_nat cols) 0) /\
    hits_map self = replicate (Z.to_nat rows) (replicate (Z.to_nat cols) 0%Z).
Proof.
  unfold __init__, truediv.
  destruct (Req_dec_T res 0) as [|_]; [discriminate|]. cbn [bind].
  destruct (to_float (xlen / res)) as [qx|]; [|discriminate]. cbn [int bind].
  destruct (to_float (ylen / res)) as [qy|]; [|discriminate]. cbn [int bind].
  unfold linspace, zeros.
  destruct (Z.ltb_spec (int_trunc qx + 1) 0); [discriminate|].
  cbn [bind].
  destruct (Z.ltb_spec (int_trunc qy + 1) 0); [discriminate|].
  cbn [bind].
  destruct (Z.ltb_spec (int_trunc qy) 0); [discriminate|].
  destruct (Z.ltb_spec (int_trunc qx) 0); [discriminate|].
  cbn [orb bind]. intros [= <-]. cbn [nx ny ra_edges dec_edges sky_map hits_map].
  exists (int_trunc qx), (int_trunc qy).
  rewrite !length_map, !length_seq.
  repeat (split; [assumption || reflexivity || lia|]). reflexivity.
Qed.



Lemma div_nonneg (a b : R) : 0 < b -> 0 <= a -> 0 <= a / b.
Proof.
  intros Hb Ha. unfold Rdiv. apply Rmult_le_pos; [exact Ha|].
  left. apply Rinv_0_lt_compat, Hb.
Qed.

Lemma div_ge_1 (a b : R) : 0 < b -> b <= a -> 1 <= a / b.
Proof.
  intros Hb Ha. replace 1 with (b / b) by (field; lra).
  unfold Rdiv. apply Rmult_le_compat_r; [|exact Ha].
  left. apply Rinv_0_lt_compat, Hb.
Qed.

Lemma round_binary64_ge_1 (x : R) : 1 <= x -> 1 <= round_binary64 x.
Proof.
  intros Hx. rewrite <- bpow_0. apply round_binary64_ge_bpow; [lia|].
  rewrite bpow_0. exact Hx.
Qed.






Lemma double_0_01_pos : 0 < double_0_01 <= 1.
Proof. unfold double_0_01. lra. Qed.


(** The concrete map maker is the one the constructor builds. *)
Lemma polar_maker_constructed :
  __init__ 0 90 1 1 (1 / 2) = inr (polar_maker ∅ 0 0).
Proof.
  assert (Hq : to_float (1 / (1 / 2)) = Finite 2).
  { replace (1 / (1 / 2)) with (IZR 2) by field. apply to_float_IZR. lia. }
  assert (Hn : int_trunc 2 = 2%Z) by apply (int_trunc_IZR 2).
  rewrite (init_inr 0 90 1 1 (1 / 2) 2 2)
    by (try exact Hq; try rewrite Hn; lra || lia).
  rewrite !Hn. unfold polar_maker. f_equal.
  change (Z.to_nat (2 + 1)) with 3%nat. change (Z.to_nat 2) with 2%nat.
  cbn [seq map replicate Nat.sub INR].
  f_equal; repeat f_equal; field.
Qed.

(** ** Pointing *)

Lemma mapM_mul_unit (br : list quat) (d : quat) :
  Forall (fun r => Rotation.norm r = 1) br -> Rotation.norm d = 1 ->
  mapM (fun b => Rotation.mul b d) br
  = inr (map (fun b => Rotation.compose_quat b d) br).
Proof.
  intros Hbr Hd. induction Hbr as [|b br Hb _ IH]; [reflexivity|].
  cbn [mapM map]. rewrite (mul_unit _ _ Hb Hd), IH. reflexivity.
Qed.

Lemma scan_inputs_unit (frame : G3Frame) (raw : list (string * list R))
    (br : list quat) :
  scan_inputs frame = inr (raw, br) ->
  exists boresight_q,
    shared_boresight_radec frame = Some boresight_q /\
    mapM Rotation.from_quat (map vector_first boresight_q) = inr br /\
    length br = length boresight_q /\
    Forall (fun r => Rotation.norm r = 1) br.
Proof.
  unfold scan_inputs. destruct (signal frame); [|discriminate]. cbn [getitem bind].
  destruct (shared_boresight_radec frame) as [bq|]; [|discriminate].
  cbn [getitem bind].
  destruct (mapM _ _) as [|br'] eqn:E; [discriminate|]. cbn [bind].
  intros [= _ <-]. exists bq. split; [reflexivity|]. split; [exact E|].
  apply mapM_from_quat_inv in E as [Hl Hu]. rewrite length_map in Hl. auto.
Qed.

(** The pointing of every sample of a detector, in closed form. *)
Lemma detector_radec_closed (br : list quat) (det_q det_r : quat) :
  Forall (fun r => Rotation.norm r = 1) br ->
  Rotation.from_quat det_q = inr det_r ->
  detector_radec br det_q
  = inr (map (fun b => ra_of (boresight_after_offset b det_r)) br,
         map (fun b => dec_of (boresight_after_offset b det_r)) br).
Proof.
  intros Hbr Hq. unfold detector_radec. rewrite Hq. cbn [bind].
  apply from_quat_inv in Hq as [_ Hd].
  rewrite (mapM_mul_unit _ _ Hbr Hd). cbn [bind].
  rewrite !List.map_map. f_equal. f_equal.
  - apply List.map_ext. intros b. rewrite apply_compose. reflexivity.
  - apply List.map_ext. intros b. rewrite apply_compose. reflexivity.
Qed.

Lemma apply_norm2 (q : quat) (v : vec3) :
  norm2 (Rotation.apply q v) = sumsq q * sumsq q * norm2 v.
Proof. unfold norm2, Rotation.apply, sumsq. simpl. ring. Qed.

Lemma pointing_unit (b det_r : quat) :
  Rotation.norm b = 1 -> Rotation.norm det_r = 1 ->
  norm2 (boresight_after_offset b det_r) = 1.
Proof.
  intros Hb Hd. apply norm_unit_iff in Hb, Hd.
  unfold boresight_after_offset, compose. rewrite !apply_norm2, Hb, Hd.
  unfold norm2, z_axis. simpl. ring.
Qed.

Lemma np_mod_turn (x : R) :
  -360 <= x < 360 -> np_mod x 360 = x \/ np_mod x 360 = x + 360.
Proof.
  intros Hx. unfold np_mod. destruct (Rle_lt_dec 0 x) as [Hpos|Hneg].
  - left. replace (Int_part (x / 360)) with 0%Z; [simpl; ring|].
    apply Int_part_spec. simpl. lra.
  - right. replace (Int_part (x / 360)) with (-1)%Z; [simpl; ring|].
    apply Int_part_spec. simpl. lra.
Qed.

Lemma cos_full_turn (x : R) : cos (x + 2 * PI) = cos x.
Proof. rewrite cos_plus, cos_2PI, sin_2PI. ring. Qed.

Lemma sin_full_turn (x : R) : sin (x + 2 * PI) = sin x.
Proof. rewrite sin_plus, cos_2PI, sin_2PI. ring. Qed.

Lemma arctan2_range (y x : R) : - PI < arctan2 y x <= PI.
Proof.
  destruct (Req_dec x 0) as [Hx|Hx]; [destruct (Req_dec y 0) as [Hy|Hy]|].
  - subst. rewrite arctan2_0_0. pose proof PI_RGT_0. lra.
  - apply (arctan2_angle y x). auto.
  - apply (arctan2_angle y x). auto.
Qed.

(** A unit vector is recovered from the two angles computed for it. *)
Lemma radec_roundtrip (v : vec3) :
  norm2 v = 1 ->
  -90 <= dec_of v <= 90 /\ 0 <= ra_of v < 360 /\
  vx v = cos (dec_of v * (PI / 180)) * cos (ra_of v * (PI / 180)) /\
  vy v = cos (dec_of v * (PI / 180)) * sin (ra_of v * (PI / 180)) /\
  vz v = sin (dec_of v * (PI / 180)).
Proof.
  intros Hv. unfold norm2 in Hv. pose proof PI_RGT_0 as Hpi.
  assert (Hz : -1 <= vz v <= 1) by (split; nra).
  assert (Hdec : dec_of v * (PI / 180) = asin (vz v)).
  { unfold dec_of, degrees, arcsin. field. lra. }
  pose proof (asin_bound (vz v)) as Hab.
  assert (Hrange : -90 <= dec_of v <= 90).
  { unfold dec_of, degrees, arcsin.
    replace (-90) with (- (PI / 2) * (180 / PI)) by (field; lra).
    replace 90 with (PI / 2 * (180 / PI)) by (field; lra).
    assert (0 < 180 / PI) by (apply Rdiv_lt_0_compat; lra).
    split; apply Rmult_le_compat_r; lra. }
  pose proof (arctan2_range (vy v) (vx v)) as Hth.
  set (th := arctan2 (vy v) (vx v)) in *.
  assert (Hdeg : -360 <= degrees th < 360).
  { unfold degrees.
    assert (H180 : 0 < 180 / PI) by (apply Rdiv_lt_0_compat; lra).
    assert (E1 : PI * (180 / PI) = 180) by (field; lra).
    split.
    - assert (- PI * (180 / PI) <= th * (180 / PI))
        by (apply Rmult_le_compat_r; lra). lra.
    - assert (th * (180 / PI) <= PI * (180 / PI))
        by (apply Rmult_le_compat_r; lra). lra. }
  assert (Hra : cos (ra_of v * (PI / 180)) = cos th /\
                sin (ra_of v * (PI / 180)) = sin th).
  { unfold ra_of. fold th. destruct (np_mod_turn _ Hdeg) as [E|E]; rewrite E.
    - replace (degrees th * (PI / 180)) with th by (unfold degrees; field; lra).
      auto.
    - replace ((degrees th + 360) * (PI / 180)) with (th + 2 * PI)
        by (unfold degrees; field; lra).
      split; [apply cos_full_turn|apply sin_full_turn]. }
  destruct Hra as [Hcos Hsin]. rewrite Hcos, Hsin, Hdec.
  rewrite cos_asin, sin_asin by exact Hz.
  assert (Hrad : 1 - (vz v)² = vx v * vx v + vy v * vy v)
    by (unfold Rsqr; lra).
  rewrite Hrad.
  split; [exact Hrange|]. split; [apply np_mod_bounds; lra|].
  destruct (Req_dec (vx v) 0) as [Hx0|Hx0];
    [destruct (Req_dec (vy v) 0) as [Hy0|Hy0]|].
  - rewrite Hx0, Hy0.
    replace (0 * 0 + 0 * 0) with 0 by ring. rewrite sqrt_0.
    repeat split; ring.
  - destruct (arctan2_angle (vy v) (vx v)) as (Ex & Ey & _); [auto|].
    fold th in Ex, Ey. rewrite Ex, Ey. repeat split.
  - destruct (arctan2_angle (vy v) (vx v)) as (Ex & Ey & _); [auto|].
    fold th in Ex, Ey. rewrite Ex, Ey. repeat split.
Qed.

(** A quaternion built from an axis and an angle turns vectors about that
    axis by that angle. *)
Lemma apply_axis_angle (axis : vec3) (angle : R) (v : vec3) :
  norm2 axis = 1 ->
  Rotation.apply (axis_angle axis angle) v = rotate_about axis angle v.
Proof.
  intros Hn. destruct axis as [a b c]. destruct v as [x y z].
  unfold norm2 in Hn. cbn [vx vy vz] in Hn.
  unfold Rotation.apply, axis_angle, rotate_about. cbn [q0 q1 q2 q3 vx vy vz].
  assert (Hs : sin angle = 2 * sin (angle / 2) * cos (angle / 2)).
  { rewrite <- sin_2a. f_equal. field. }
  assert (Hc : cos angle = 1 - 2 * sin (angle / 2) * sin (angle / 2)).
  { rewrite <- cos_2a_sin. f_equal. field. }
  rewrite Hs, Hc.
  pose proof (sin2_cos2 (angle / 2)) as Hsc. unfold Rsqr in Hsc.
  set (S := sin (angle / 2)) in *. set (C := cos (angle / 2)) in *.
  assert (Hsc' : S * S + C * C = 1) by lra.
  assert (F1 : forall t, t * S * S * (a * a + b * b + c * c) = t * S * S)
    by (intros t; rewrite Hn; ring).
  assert (F2 : forall t, t * (S * S + C * C) = t)
    by (intros t; rewrite Hsc'; ring).
  f_equal.
  - pose proof (F1 x). pose proof (F2 x). lra.
  - pose proof (F1 y). pose proof (F2 y). lra.
  - pose proof (F1 z). pose proof (F2 z). lra.
Qed.

(** Every unit quaternion is of that form. *)
Lemma unit_quat_axis_angle (q : quat) :
  Rotation.norm q = 1 ->
  exists axis angle, norm2 axis = 1 /\ q = axis_angle axis angle.
Proof.
  rewrite norm_unit_iff.
  destruct q as [x y z w]. unfold sumsq. cbn [q0 q1 q2 q3]. intros Hq.
  assert (Hw : -1 <= w <= 1) by (split; nra).
  assert (Hs2 : 1 - w² = x * x + y * y + z * z) by (unfold Rsqr; lra).
  assert (Hpos : 0 <= x * x + y * y + z * z) by nra.
  exists (if Req_dec_T (sqrt (1 - w²)) 0 then Vec3 1 0 0
          else Vec3 (x / sqrt (1 - w²)) (y / sqrt (1 - w²)) (z / sqrt (1 - w²))),
         (2 * acos w).
  unfold axis_angle.
  replace (2 * acos w / 2) with (acos w) by field.
  rewrite cos_acos, sin_acos by exact Hw.
  destruct (Req_dec_T (sqrt (1 - w²)) 0) as [E|E].
  - rewrite E. cbn [vx vy vz]. split; [unfold norm2; cbn [vx vy vz]; ring|].
    apply sqrt_eq_0 in E; [|lra].
    assert (x = 0 /\ y = 0 /\ z = 0) as (-> & -> & ->) by (repeat split; nra).
    f_equal; ring.
  - cbn [vx vy vz]. split.
    + unfold norm2. cbn [vx vy vz].
      pose proof (sqrt_sqrt (1 - w²) ltac:(lra)) as Hss.
      set (s := sqrt (1 - w²)) in *.
      replace (x / s * (x / s) + y / s * (y / s) + z / s * (z / s))
        with ((x * x + y * y + z * z) / (s * s)) by (field; exact E).
      rewrite Hss, Hs2. field. rewrite <- Hs2, <- Hss. nra.
    + f_equal; field; exact E.
Qed.

Lemma norm_axis_angle (axis : vec3) (angle : R) :
  norm2 axis = 1 -> Rotation.norm (axis_angle axis angle) = 1.
Proof.
  intros Hn. apply norm_unit_iff. unfold sumsq, axis_angle, norm2 in *.
  cbn [q0 q1 q2 q3].
  pose proof (sin2_cos2 (angle / 2)) as Hsc. unfold Rsqr in Hsc.
  set (S := sin (angle / 2)) in *. set (C := cos (angle / 2)) in *.
  replace (vx axis * S * (vx axis * S) + vy axis * S * (vy axis * S)
           + vz axis * S * (vz axis * S) + C * C)
    with (S * S * (vx axis * vx axis + vy axis * vy axis + vz axis * vz axis)
          + C * C) by ring.
  rewrite Hn. lra.
Qed.

(** C4: for every detector that a scan bins, the pointing of each sample is
    the boresight rotation composed with the detector's offset rotation,
    boresight on the left, applied to (0, 0, 1); [ra] is [atan2(vy, vx)] in
    degrees brought into [0, 360) by a multiple of 360, and [dec] is
    [asin(vz)] in degrees, so that the pointing vector is
    (cos dec cos ra, cos dec sin ra, sin dec).  The two rotations are rotations in the geometric
    sense: each of the two unit quaternions stands for a turn about an axis,
    and whenever the boresight sample is the turn by [angle_b] about
    [axis_b] and the detector's offset the turn by [angle_d] about [axis_d],
    the pointing is (0, 0, 1) turned about [axis_d] by [angle_d] and then
    about [axis_b] by [angle_b]. *)
Theorem C4_pointing (self self' : QuickMapMaker) (frame : G3Frame)
    (raw : list (string * list R)) (br : list quat) (kid : string)
    (y_raw : list R) :
  scan_inputs frame = inr (raw, br) ->
  bin_detector frame br kid y_raw self = (inr (), self') ->
  exists det_q det_r ra_det dec_det,
    det_offset_dict self !! kid = Some det_q /\
    Rotation.from_quat det_q = inr det_r /\
    detector_radec br det_q = inr (ra_det, dec_det) /\
    length ra_det = length br /\ length dec_det = length br /\
    forall n b,
      br !! n = Some b ->
      exists ra dec,
        ra_det !! n = Some ra /\ dec_det !! n = Some dec /\
        0 <= ra < 360 /\
        (exists k : Z,
            ra = degrees (arctan2 (vy (boresight_after_offset b det_r))
                            (vx (boresight_after_offset b det_r)))
                 + 360 * IZR k) /\
        dec = degrees (asin (vz (boresight_after_offset b det_r))) /\
        (-90 <= dec <= 90 /\
         vx (boresight_after_offset b det_r)
         = cos (dec * (PI / 180)) * cos (ra * (PI / 180)) /\
         vy (boresight_after_offset b det_r)
         = cos (dec * (PI / 180)) * sin (ra * (PI / 180)) /\
         vz (boresight_after_offset b det_r) = sin (dec * (PI / 180))) /\
        (exists axis_b angle_b axis_d angle_d,
            norm2 axis_b = 1 /\ norm2 axis_d = 1 /\
            b = axis_angle axis_b angle_b /\
            det_r = axis_angle axis_d angle_d) /\
        (forall axis_b angle_b axis_d angle_d,
            norm2 axis_b = 1 -> norm2 axis_d = 1 ->
            b = axis_angle axis_b angle_b ->
            det_r = axis_angle axis_d angle_d ->
            boresight_after_offset b det_r
            = rotate_about axis_b angle_b
                (rotate_about axis_d angle_d z_axis)).
Proof.
  intros Hi Hb.
  apply scan_inputs_unit in Hi as (bq & _ & _ & _ & Hu).
  apply bin_detector_inr in Hb
    as (det_q & ra & dec & dl & rl & Hq & Hrd & _).
  assert (Hr : exists det_r, Rotation.from_quat det_q = inr det_r).
  { unfold detector_radec in Hrd.
    destruct (Rotation.from_quat det_q) as [|det_r]; [discriminate|]. eauto. }
  destruct Hr as [det_r Hr].
  pose proof (detector_radec_closed br det_q det_r Hu Hr) as Hc.
  rewrite Hc in Hrd. injection Hrd as <- <-.
  exists det_q, det_r. eexists. eexists.
  split; [exact Hq|]. split; [exact Hr|]. split; [exact Hc|].
  rewrite !length_map. split; [reflexivity|]. split; [reflexivity|].
  intros n b Hn. eexists. eexists.
  rewrite !lookup_map, Hn. cbn [fmap option_fmap option_map].
  rewrite Forall_lookup in Hu. pose proof (Hu n b Hn) as Hbu.
  apply from_quat_inv in Hr as [_ Hdu].
  split; [reflexivity|]. split; [reflexivity|].
  split; [apply np_mod_bounds; lra|]. split; [apply np_mod_shift|].
  split; [reflexivity|]. split; [|split].
  - destruct (radec_roundtrip _ (pointing_unit b det_r Hbu Hdu))
      as (Hdec & _ & Hx & Hy & Hz).
    auto.
  - destruct (unit_quat_axis_angle b Hbu) as (ab & tb & Hab & Eb).
    destruct (unit_quat_axis_angle det_r Hdu) as (ad & td & Had & Ed).
    exists ab, tb, ad, td. auto.
  - intros ab tb ad td Hab Had -> ->.
    unfold boresight_after_offset, compose.
    rewrite !apply_axis_angle by assumption. reflexivity.
Qed.

(** The normalised form of a quarter turn given as (axis, 1). *)
Lemma from_quat_quarter_turn (axis : vec3) :
  norm2 axis = 1 ->
  Rotation.from_quat (Quat (vx axis) (vy axis) (vz axis) 1)
  = inr (axis_angle axis (PI / 2)).
Proof.
  intros Hn. unfold Rotation.from_quat, Rotation.norm, norm2 in *.
  cbn [q0 q1 q2 q3].
  replace (vx axis * vx axis + vy axis * vy axis + vz axis * vz axis + 1 * 1)
    with 2 by lra.
  destruct (Req_dec_T (sqrt 2) 0) as [E|_]; [exfalso; exact (sqrt2_neq_0 E)|].
  unfold axis_angle. replace (PI / 2 / 2) with (PI / 4) by field.
  rewrite sin_PI4, cos_PI4. f_equal. f_equal; field; exact sqrt2_neq_0.
Qed.

Lemma norm2_z_axis : norm2 z_axis = 1.
Proof. unfold norm2, z_axis. cbn [vx vy vz]. ring. Qed.

Lemma norm2_x_axis : norm2 x_axis = 1.
Proof. unfold norm2, x_axis. cbn [vx vy vz]. ring. Qed.

(** The detector's quarter turn about x takes (0, 0, 1) to (0, -1, 0), and
    the boresight's quarter turn about z takes that to (1, 0, 0); in the
    other order the result would be (0, -1, 0). *)
Lemma quarter_turns :
  rotate_about z_axis (PI / 2) (rotate_about x_axis (PI / 2) z_axis) = Vec3 1 0 0 /\
  rotate_about x_axis (PI / 2) (rotate_about z_axis (PI / 2) z_axis)
  = Vec3 0 (-1) 0.
Proof.
  unfold rotate_about, z_axis, x_axis. cbn [vx vy vz].
  rewrite cos_PI2, sin_PI2. split; f_equal; ring.
Qed.

Lemma turned_scan_inputs (raw : list (string * list R)) :
  scan_inputs (turned_scan raw) = inr (raw, [axis_angle z_axis (PI / 2)]).
Proof.
  unfold scan_inputs, turned_scan.
  cbn [signal shared_boresight_radec getitem bind map mapM].
  change (vector_first quarter_turn_z_boresight)
    with (Quat (vx z_axis) (vy z_axis) (vz z_axis) 1).
  rewrite (from_quat_quarter_turn _ norm2_z_axis). reflexivity.
Qed.

Lemma arctan2_0_1 : arctan2 0 1 = 0.
Proof.
  unfold arctan2. decide_reals. unfold Rdiv. rewrite Rmult_0_l. apply atan_0.
Qed.

Lemma turned_pointing :
  detector_radec [axis_angle z_axis (PI / 2)] quarter_turn_x_offset
  = inr ([0], [0]).
Proof.
  rewrite (detector_radec_closed _ _ (axis_angle x_axis (PI / 2))).
  - cbn [map]. unfold boresight_after_offset, compose.
    rewrite !apply_axis_angle by (apply norm2_x_axis || apply norm2_z_axis).
    rewrite (proj1 quarter_turns).
    unfold ra_of, dec_of, arcsin, degrees. cbn [vx vy vz].
    rewrite asin_0, arctan2_0_1, !Rmult_0_l, np_mod_0. reflexivity.
  - constructor; [|constructor]. apply norm_axis_angle, norm2_z_axis.
  - apply (from_quat_quarter_turn x_axis norm2_x_axis).
Qed.

Lemma equator_histogram (w : R) (weights : option (list R)) :
  default [1] weights = [w] ->
  histogram2d [0] [0] [- (1 / 2); 0; 1 / 2] [- (1 / 2); 0; 1 / 2] weights
  = inr [[0; 0]; [0; 0 + w]].
Proof.
  intros Hw. unfold histogram2d, bincount2d.
  cbn [length Nat.eqb negb monotonic last replicate].
  rewrite Hw. cbn [length Nat.eqb negb zip zip_with foldl].
  unfold deposit, core_bin. cbn [searchsorted_right length].
  decide_reals. reflexivity.
Qed.

(** Binning one sample of value [w] that points at (ra, dec) = (0, 0). *)
Lemma equator_bin_sample (frame : G3Frame) (table : gmap string quat)
    (br : list quat) (kid : string) (det_q : quat) (y_raw : list R)
    (w s : R) (h : Z) :
  reconstruct frame kid y_raw = [w] ->
  table !! kid = Some det_q ->
  detector_radec br det_q = inr ([0], [0]) ->
  bin_detector frame br kid y_raw (equator_maker table s h)
  = (inr (), equator_maker table (s + w) (h + 1)).
Proof.
  intros Hy Hk Hp. unfold bin_detector. rewrite Hy.
  cbv [equator_maker dec_edges ra_edges sky_map hits_map set_sky_map set_hits_map
       det_offset_dict ra0 dec0 xlen ylen res nx ny].
  rewrite Hk. cbn [getitem bind]. rewrite Hp.
  rewrite (equator_histogram w (Some [w]) eq_refl).
  rewrite (equator_histogram 1 None eq_refl).
  unfold grid_add. cbn [zip_with map].
  replace (0 + 1) with (IZR 1) by ring. rewrite int_trunc_0, int_trunc_IZR.
  f_equal. f_equal. repeat f_equal; ring.
Qed.

(** C4 on a boresight turned a quarter about z and a detector "A" whose
    offset is a quarter turn about x: the sample points at
    (ra, dec) = (0, 0), the direction (1, 0, 0), which only the order
    boresight after offset gives. *)
Lemma C4_pointing_witness :
  rotate_about z_axis (PI / 2) (rotate_about x_axis (PI / 2) z_axis)
  = Vec3 1 0 0 /\
  rotate_about x_axis (PI / 2) (rotate_about z_axis (PI / 2) z_axis)
  = Vec3 0 (-1) 0 /\
  detector_radec [axis_angle z_axis (PI / 2)] quarter_turn_x_offset
  = inr ([0], [0]) /\
  exists det_q det_r ra_det dec_det,
    det_offset_dict (equator_maker {["A" := quarter_turn_x_offset]} 0 0) !! "A"
    = Some det_q /\
    Rotation.from_quat det_q = inr det_r /\
    detector_radec [axis_angle z_axis (PI / 2)] det_q = inr (ra_det, dec_det) /\
    length ra_det = length [axis_angle z_axis (PI / 2)] /\
    length dec_det = length [axis_angle z_axis (PI / 2)] /\
    forall n b,
      [axis_angle z_axis (PI / 2)] !! n = Some b ->
      exists ra dec,
        ra_det !! n = Some ra /\ dec_det !! n = Some dec /\
        0 <= ra < 360 /\
        (exists k : Z,
            ra = degrees (arctan2 (vy (boresight_after_offset b det_r))
                            (vx (boresight_after_offset b det_r)))
                 + 360 * IZR k) /\
        dec = degrees (asin (vz (boresight_after_offset b det_r))) /\
        (-90 <= dec <= 90 /\
         vx (boresight_after_offset b det_r)
         = cos (dec * (PI / 180)) * cos (ra * (PI / 180)) /\
         vy (boresight_after_offset b det_r)
         = cos (dec * (PI / 180)) * sin (ra * (PI / 180)) /\
         vz (boresight_after_offset b det_r) = sin (dec * (PI / 180))) /\
        (exists axis_b angle_b axis_d angle_d,
            norm2 axis_b = 1 /\ norm2 axis_d = 1 /\
            b = axis_angle axis_b angle_b /\
            det_r = axis_angle axis_d angle_d) /\
        (forall axis_b angle_b axis_d angle_d,
            norm2 axis_b = 1 -> norm2 axis_d = 1 ->
            b = axis_angle axis_b angle_b ->
            det_r = axis_angle axis_d angle_d ->
            boresight_after_offset b det_r
            = rotate_about axis_b angle_b
                (rotate_about axis_d angle_d z_axis)).
Proof.
  split; [apply quarter_turns|]. split; [apply quarter_turns|].
  split; [apply turned_pointing|].
  apply (C4_pointing (equator_maker {["A" := quarter_turn_x_offset]} 0 0)
           (equator_maker {["A" := quarter_turn_x_offset]} (0 + 3) (0 + 1))
           (turned_scan [("A", [3])]) [("A", [3])]
           [axis_angle z_axis (PI / 2)] "A" [3]).
  - apply turned_scan_inputs.
  - apply (equator_bin_sample _ _ _ _ quarter_turn_x_offset);
      [reflexivity|apply lookup_singleton_eq|apply turned_pointing].
Defined.

(** ** The shape of the grids is an invariant *)

Lemma Process_wf (self : QuickMapMaker) (frame : G3Frame) :
  wf self -> wf (self_after (Process self frame)).
Proof.
  intros Hwf. unfold Process.
  destruct (decide (type frame = Calibration)).
  { destruct (load_focalplane frame); [exact Hwf|]. exact Hwf. }
  destruct (decide (type frame = Scan)).
  { destruct (scan_inputs frame) as [|[raw br]]; [exact Hwf|].
    destruct (scan_loop frame br raw self) as [[err|u] self'] eqn:E;
      apply (scan_loop_wf _ _ _ _ _ _ Hwf E). }
  destruct (decide (type frame = EndProcessing)).
  { destruct (map_extent self); exact Hwf. }
  exact Hwf.
Qed.

(** ** The two scenarios of the specification *)

(** Boresight along +z, detector without offset: the pointing has
    [dec = 90], outside a grid around the equator, and the sample of value 5
    is dropped. *)
Example scenario_sample_dropped :
  Process (equator_maker {["A" := identity_quat]} 0 0) (single_scan 5)
  = {| returned := inr (Some (single_scan 5));
       self_after := equator_maker {["A" := identity_quat]} 0 0;
       shown := None |}.
Proof.
  rewrite Process_scan by reflexivity.
  unfold single_scan. rewrite polar_scan_inputs. cbn [scan_loop].
  unfold bin_detector.
  assert (Hy : reconstruct (polar_scan [("A", [5])]) "A" [5] = [5]) by reflexivity.
  rewrite Hy.
  cbv [equator_maker dec_edges ra_edges sky_map hits_map set_sky_map set_hits_map
       det_offset_dict ra0 dec0 xlen ylen res nx ny].
  rewrite lookup_singleton_eq. cbn [getitem bind]. rewrite polar_pointing.
  assert (Hh : forall weights w, default [1] weights = [w] ->
             histogram2d [90] [0] [- (1 / 2); 0; 1 / 2] [- (1 / 2); 0; 1 / 2]
               weights = inr [[0; 0]; [0; 0]]).
  { intros weights w Hw. unfold histogram2d, bincount2d.
    cbn [length Nat.eqb negb monotonic last replicate].
    rewrite Hw. cbn [length Nat.eqb negb zip zip_with foldl].
    unfold deposit, core_bin. cbn [searchsorted_right length].
    decide_reals. reflexivity. }
  rewrite (Hh (Some [5]) 5 eq_refl), (Hh None 1 eq_refl).
  unfold grid_add. cbn [zip_with map]. rewrite int_trunc_0.
  f_equal. f_equal. repeat f_equal; ring.
Qed.

Lemma quarter_turn_pointing :
  exists b, Rotation.from_quat (vector_first quarter_turn_boresight) = inr b /\
            detector_radec [b] identity_quat = inr ([0], [0]).
Proof.
  set (q := vector_first quarter_turn_boresight).
  assert (Hss : sumsq q = 2) by (unfold sumsq, q; simpl; ring).
  assert (Hn2 : Rotation.norm q * Rotation.norm q = 2)
    by (rewrite norm_sumsq; exact Hss).
  assert (Hn : Rotation.norm q <> 0) by (intros E; rewrite E in Hn2; lra).
  destruct (from_quat_ok q Hn) as (b & Hb & Hu).
  exists b. split; [exact Hb|].
  unfold detector_radec.
  rewrite (from_quat_unit _ norm_identity). cbn [bind mapM].
  rewrite (mul_unit _ _ Hu norm_identity). cbn [bind map].
  rewrite apply_compose.
  unfold Rotation.from_quat in Hb.
  destruct (Req_dec_T (Rotation.norm q) 0) as [E|_]; [contradiction|].
  injection Hb as <-. set (n := Rotation.norm q) in *.
  assert (Hv : Rotation.apply
                 (Quat (q0 q / n) (q1 q / n) (q2 q / n) (q3 q / n))
                 (Rotation.apply identity_quat z_axis) = Vec3 1 0 0).
  { unfold Rotation.apply, identity_quat, z_axis, q, quarter_turn_boresight,
      vector_first. cbn [q0 q1 q2 q3 vx vy vz]. f_equal.
    - transitivity (2 / (n * n)); [field; exact Hn|rewrite Hn2; field].
    - field. exact Hn.
    - field. exact Hn. }
  change (Quat (q0 q / n) (q1 q / n) (q2 q / n) (q3 q / n))
    with (Quat (0 / n) (1 / n) (0 / n) (1 / n)) in Hv.
  rewrite Hv. unfold ra_of, dec_of, arcsin, degrees. cbn [vx vy vz].
  rewrite asin_0, Rmult_0_l.
  assert (Ha : arctan2 0 1 = 0).
  { unfold arctan2. decide_reals. unfold Rdiv. rewrite Rmult_0_l. apply atan_0. }
  rewrite Ha, Rmult_0_l, np_mod_0. reflexivity.
Qed.

(** Boresight turned so that the pointing is (1, 0, 0), that is
    [ra = dec = 0]: the sample of value 3 lands in pixel (1, 1), which ends
    with one hit and sum 3. *)
Example scenario_sample_binned :
  Process (equator_maker {["A" := identity_quat]} 0 0)
          (equator_scan [("A", [3])])
  = {| returned := inr (Some (equator_scan [("A", [3])]));
       self_after := equator_maker {["A" := identity_quat]} 3 1;
       shown := None |}.
Proof.
  destruct quarter_turn_pointing as (b & Hb & Hp).
  rewrite Process_scan by reflexivity.
  unfold scan_inputs, equator_scan at 1 2.
  cbn [signal shared_boresight_radec getitem bind map mapM]. rewrite Hb.
  cbn [bind scan_loop]. unfold bin_detector.
  assert (Hy : reconstruct (equator_scan [("A", [3])]) "A" [3] = [3])
    by reflexivity.
  rewrite Hy.
  cbv [equator_maker dec_edges ra_edges sky_map hits_map set_sky_map set_hits_map
       det_offset_dict ra0 dec0 xlen ylen res nx ny].
  rewrite lookup_singleton_eq. cbn [getitem bind]. rewrite Hp.
  assert (Hh : forall weights w, default [1] weights = [w] ->
             histogram2d [0] [0] [- (1 / 2); 0; 1 / 2] [- (1 / 2); 0; 1 / 2]
               weights = inr [[0; 0]; [0; 0 + w]]).
  { intros weights w Hw. unfold histogram2d, bincount2d.
    cbn [length Nat.eqb negb monotonic last replicate].
    rewrite Hw. cbn [length Nat.eqb negb zip zip_with foldl].
    unfold deposit, core_bin. cbn [searchsorted_right length].
    decide_reals. reflexivity. }
  rewrite (Hh (Some [3]) 3 eq_refl), (Hh None 1 eq_refl).
  unfold grid_add. cbn [zip_with map].
  replace (0 + 1) with (IZR 1) by ring. rewrite int_trunc_0, int_trunc_IZR.
  f_equal. f_equal. repeat f_equal; ring.
Qed.

Example scenario_final_map :
  final_map (equator_maker {["A" := identity_quat]} 3 1) = [[0; 0]; [0; 3]].
Proof. reflexivity. Qed.

(** * Further properties of the code *)

(** ** What [Process] never touches *)

Lemma bin_detector_geometry (frame : G3Frame) (br : list quat) (kid : string)
    (y_raw : list R) (self self' : QuickMapMaker) (r : exn + ()) :
  bin_detector frame br kid y_raw self = (r, self') ->
  ra0 self' = ra0 self /\ dec0 self' = dec0 self /\
  xlen self' = xlen self /\ ylen self' = ylen self /\ res self' = res self /\
  nx self' = nx self /\ ny self' = ny self.
Proof.
  intros H. destruct r as [e|[]].
  - apply bin_detector_inl in H. subst. repeat split.
  - apply bin_detector_inr in H.
    destruct H as (det_q & ra & dec & dl & rl & _ & _ & _ & _ & _ & _ & _ & ->).
    repeat split.
Qed.

Lemma scan_loop_geometry (frame : G3Frame) (br : list quat)
    (raw : list (string * list R)) (self self' : QuickMapMaker) (r : exn + ()) :
  scan_loop frame br raw self = (r, self') ->
  ra0 self' = ra0 self /\ dec0 self' = dec0 self /\
  xlen self' = xlen self /\ ylen self' = ylen self /\ res self' = res self /\
  nx self' = nx self /\ ny self' = ny self.
Proof.
  revert self. induction raw as [|[kid y] raw IH]; intros self H; simpl in H.
  - injection H as _ <-. repeat split.
  - destruct (bin_detector frame br kid y self) as [[e|u] self1] eqn:E.
    + injection H as _ <-. eapply bin_detector_geometry; eauto.
    + destruct (bin_detector_geometry _ _ _ _ _ _ _ E)
        as (H1 & H2 & H3 & H4 & H5 & H6 & H7).
      destruct (IH self1 H) as (K1 & K2 & K3 & K4 & K5 & K6 & K7).
      repeat split; congruence.
Qed.

Lemma Process_frame_conditions (self : QuickMapMaker) (frame : G3Frame) :
  (ra0 (self_after (Process self frame)) = ra0 self /\
   dec0 (self_after (Process self frame)) = dec0 self /\
   xlen (self_after (Process self frame)) = xlen self /\
   ylen (self_after (Process self frame)) = ylen self /\
   res (self_after (Process self frame)) = res self /\
   nx (self_after (Process self frame)) = nx self /\
   ny (self_after (Process self frame)) = ny self /\
   ra_edges (self_after (Process self frame)) = ra_edges self /\
   dec_edges (self_after (Process self frame)) = dec_edges self) /\
  (type frame <> Calibration ->
   det_offset_dict (self_after (Process self frame)) = det_offset_dict self) /\
  (type frame <> Scan ->
   sky_map (self_after (Process self frame)) = sky_map self /\
   hits_map (self_after (Process self frame)) = hits_map self).
Proof.
  unfold Process.
  destruct (decide (type frame = Calibration)) as [Hc|Hc].
  { destruct (load_focalplane frame); cbn [self_after];
      (split; [repeat split|split; [contradiction|intros _; split; reflexivity]]). }
  destruct (decide (type frame = Scan)) as [Hs|Hs].
  { destruct (scan_inputs frame) as [|[raw br]]; cbn [self_after].
    { split; [repeat split|split; [reflexivity|contradiction]]. }
    destruct (scan_loop frame br raw self) as [[err|u] self'] eqn:E;
      cbn [self_after];
      destruct (scan_loop_geometry _ _ _ _ _ _ E)
        as (H1 & H2 & H3 & H4 & H5 & H6 & H7);
      destruct (scan_loop_fields _ _ _ _ _ _ E) as (Ht & Hd & Hr);
      (split; [repeat split; assumption|split; [intros _; exact Ht|contradiction]]). }
  destruct (decide (type frame = EndProcessing)).
  { destruct (map_extent self); cbn [self_after];
      (split; [repeat split|split; [reflexivity|intros _; split; reflexivity]]). }
  cbn [self_after].
  split; [repeat split|split; [reflexivity|intros _; split; reflexivity]].
Qed.

(** X1: no call of [Process] changes the geometry of the map (centre,
    extent, resolution, bin numbers, edges); only a calibration frame can
    change the table of offsets, and only a scan frame can change the two
    grids. *)
Theorem X1_process_frame_conditions (self : QuickMapMaker) (frame : G3Frame) :
  (ra0 (self_after (Process self frame)) = ra0 self /\
   dec0 (self_after (Process self frame)) = dec0 self /\
   xlen (self_after (Process self frame)) = xlen self /\
   ylen (self_after (Process self frame)) = ylen self /\
   res (self_after (Process self frame)) = res self /\
   nx (self_after (Process self frame)) = nx self /\
   ny (self_after (Process self frame)) = ny self /\
   ra_edges (self_after (Process self frame)) = ra_edges self /\
   dec_edges (self_after (Process self frame)) = dec_edges self) /\
  (type frame <> Calibration ->
   det_offset_dict (self_after (Process self frame)) = det_offset_dict self) /\
  (type frame <> Scan ->
   sky_map (self_after (Process self frame)) = sky_map self /\
   hits_map (self_after (Process self frame)) = hits_map self).
Proof. exact (Process_frame_conditions self frame). Qed.

(** ** Every object that the constructor builds keeps the shape of its grids *)

Lemma init_wf (ra0 dec0 xlen ylen res : R) (self : QuickMapMaker) :
  __init__ ra0 dec0 xlen ylen res = inr self ->
  (0 <= nx self)%Z /\ (0 <= ny self)%Z /\
  length (ra_edges self) = S (Z.to_nat (nx self)) /\
  length (dec_edges self) = S (Z.to_nat (ny self)) /\
  shape (Z.to_nat (ny self)) (Z.to_nat (nx self)) (sky_map self) /\
  shape (Z.to_nat (ny self)) (Z.to_nat (nx self)) (hits_map self) /\
  wf self.
Proof.
  intros Hi. apply init_inv in Hi
    as (cols & rows & Hc & Hr & -> & -> & Hlx & Hly & Hsky & Hhits).
  assert (Hsh : forall (A : Type) (z : A) (k1 k2 : nat),
             shape k1 k2 (replicate k1 (replicate k2 z))).
  { intros A z k1 k2. split; [apply length_replicate|].
    apply Forall_replicate, length_replicate. }
  split; [assumption|]. split; [assumption|].
  split; [exact Hlx|]. split; [exact Hly|].
  rewrite Hsky, Hhits.
  split; [apply Hsh|]. split; [apply Hsh|].
  unfold wf. rewrite Hlx, Hly, Hsky, Hhits. cbn [pred].
  split; [|split; [|split; apply Hsh]].
  - intros E. apply (f_equal length) in E. rewrite Hly in E. discriminate.
  - intros E. apply (f_equal length) in E. rewrite Hlx in E. discriminate.
Qed.

Lemma process_all_snoc (self : QuickMapMaker) (frames : list G3Frame)
    (frame : G3Frame) :
  process_all self (frames ++ [frame])
  = self_after (Process (process_all self frames) frame).
Proof. unfold process_all. rewrite foldl_snoc. reflexivity. Qed.

(** X2: whatever frames an object built by the constructor is fed, and
    whatever the calls raise, both grids keep [ny] rows of [nx] entries and
    the edges keep their [nx + 1] and [ny + 1] entries. *)
Theorem X2_grid_shape_invariant (ra0 dec0 xlen ylen res : R)
    (self : QuickMapMaker) (frames : list G3Frame) :
  __init__ ra0 dec0 xlen ylen res = inr self ->
  wf (process_all self frames) /\
  nx (process_all self frames) = nx self /\
  ny (process_all self frames) = ny self /\
  shape (Z.to_nat (ny self)) (Z.to_nat (nx self))
        (sky_map (process_all self frames)) /\
  shape (Z.to_nat (ny self)) (Z.to_nat (nx self))
        (hits_map (process_all self frames)) /\
  length (ra_edges (process_all self frames)) = S (Z.to_nat (nx self)) /\
  length (dec_edges (process_all self frames)) = S (Z.to_nat (ny self)).
Proof.
  intros Hi. apply init_wf in Hi as (_ & _ & Hlx & Hly & _ & _ & Hwf).
  assert (H : wf (process_all self frames) /\
              nx (process_all self frames) = nx self /\
              ny (process_all self frames) = ny self /\
              ra_edges (process_all self frames) = ra_edges self /\
              dec_edges (process_all self frames) = dec_edges self).
  { induction frames as [|frame frames IH] using rev_ind.
    - split; [exact Hwf|]. repeat split.
    - rewrite process_all_snoc.
      destruct IH as (IH1 & IH2 & IH3 & IH4 & IH5).
      destruct (Process_frame_conditions (process_all self frames) frame)
        as ((_ & _ & _ & _ & _ & K6 & K7 & K8 & K9) & _).
      split; [apply Process_wf, IH1|]. repeat split; congruence. }
  destruct H as (Hw & Hnx & Hny & Hre & Hde).
  pose proof Hw as (_ & _ & Hsky & Hhits).
  rewrite Hre, Hde, Hlx, Hly in Hsky, Hhits. cbn [pred] in Hsky, Hhits.
  rewrite Hre, Hde.
  split; [exact Hw|]. split; [exact Hnx|]. split; [exact Hny|].
  split; [exact Hsky|]. split; [exact Hhits|]. split; assumption.
Qed.

(** X2 on the concrete map maker and a stream of three frames. *)
Lemma X2_grid_shape_invariant_witness :
  wf (process_all (polar_maker ∅ 0 0) polar_stream) /\
  nx (process_all (polar_maker ∅ 0 0) polar_stream) = nx (polar_maker ∅ 0 0) /\
  ny (process_all (polar_maker ∅ 0 0) polar_stream) = ny (polar_maker ∅ 0 0) /\
  shape (Z.to_nat (ny (polar_maker ∅ 0 0))) (Z.to_nat (nx (polar_maker ∅ 0 0)))
        (sky_map (process_all (polar_maker ∅ 0 0) polar_stream)) /\
  shape (Z.to_nat (ny (polar_maker ∅ 0 0))) (Z.to_nat (nx (polar_maker ∅ 0 0)))
        (hits_map (process_all (polar_maker ∅ 0 0) polar_stream)) /\
  length (ra_edges (process_all (polar_maker ∅ 0 0) polar_stream))
  = S (Z.to_nat (nx (polar_maker ∅ 0 0))) /\
  length (dec_edges (process_all (polar_maker ∅ 0 0) polar_stream))
  = S (Z.to_nat (ny (polar_maker ∅ 0 0))).
Proof.
  apply (X2_grid_shape_invariant 0 90 1 1 (1 / 2) (polar_maker ∅ 0 0)
           polar_stream).
  apply polar_maker_constructed.
Defined.

(** ** How a scan fails *)

Lemma scan_loop_inl (frame : G3Frame) (br : list quat)
    (raw : list (string * list R)) (self self' : QuickMapMaker) (e : exn) :
  scan_loop frame br raw self = (inl e, self') ->
  exists pre kid y post,
    raw = pre ++ (kid, y) :: post /\
    scan_loop frame br pre self = (inr (), self') /\
    bin_detector frame br kid y self' = (inl e, self').
Proof.
  revert self. induction raw as [|[kid y] raw IH]; intros self H; simpl in H.
  - discriminate.
  - destruct (bin_detector frame br kid y self) as [[e'|[]] self1] eqn:E.
    + injection H as <- <-. pose proof (bin_detector_inl _ _ _ _ _ _ _ E). subst.
      exists [], kid, y, raw. repeat split. exact E.
    + destruct (IH self1 H) as (pre & kid' & y' & post & -> & Hpre & Hbad).
      exists ((kid, y) :: pre), kid', y', post. split; [reflexivity|].
      split; [|exact Hbad]. simpl. rewrite E. exact Hpre.
Qed.

(** X3: a scan that raises has either failed before the loop, with the
    object untouched, or at one detector of the batch; then the object is
    exactly what the detectors listed before that one made it, and the
    failing detector has changed neither grid: the sums and the hit counts
    are never left out of step. *)
Theorem X3_scan_failure_is_per_detector (self : QuickMapMaker)
    (frame : G3Frame) (e : exn) :
  type frame = Scan -> returned (Process self frame) = inl e ->
  (scan_inputs frame = inl e /\ self_after (Process self frame) = self) \/
  (exists raw br pre kid y post,
      scan_inputs frame = inr (raw, br) /\ raw = pre ++ (kid, y) :: post /\
      scan_loop frame br pre self = (inr (), self_after (Process self frame)) /\
      bin_detector frame br kid y (self_after (Process self frame))
      = (inl e, self_after (Process self frame))).
Proof.
  intros Ht. rewrite (Process_scan _ _ Ht).
  destruct (scan_inputs frame) as [e'|[raw br]] eqn:Ei.
  - cbn [returned self_after]. intros [= ->]. left. split; reflexivity.
  - destruct (scan_loop frame br raw self) as [[e'|[]] self'] eqn:El;
      cbn [returned self_after]; [|discriminate].
    intros [= ->]. right.
    destruct (scan_loop_inl _ _ _ _ _ _ El) as (pre & kid & y & post & Hr & Hp & Hb).
    exists raw, br, pre, kid, y, post. auto.
Qed.

(** X3 on the batch that lists "A" before the uncalibrated "B". *)
Lemma X3_scan_failure_is_per_detector_witness :
  (scan_inputs mixed_scan = inl (KeyError "B") /\
   self_after (Process calibrated_maker mixed_scan) = calibrated_maker) \/
  (exists raw br pre kid y post,
      scan_inputs mixed_scan = inr (raw, br) /\ raw = pre ++ (kid, y) :: post /\
      scan_loop mixed_scan br pre calibrated_maker
      = (inr (), self_after (Process calibrated_maker mixed_scan)) /\
      bin_detector mixed_scan br kid y
        (self_after (Process calibrated_maker mixed_scan))
      = (inl (KeyError "B"), self_after (Process calibrated_maker mixed_scan))).
Proof.
  apply (X3_scan_failure_is_per_detector calibrated_maker mixed_scan
           (KeyError "B")).
  - reflexivity.
  - rewrite mixed_scan_run. reflexivity.
Defined.

(** X4: a scan frame without its ["signal"] entry or without its
    ["shared_boresight_radec"] entry raises [KeyError] for that entry, and a
    boresight with a zero quaternion raises [ValueError]; all three happen
    before the loop, so the object is left exactly as it was, whatever the
    batch holds. *)
Theorem X4_scan_fails_before_loop (self : QuickMapMaker) (frame : G3Frame) :
  type frame = Scan ->
  (signal frame = None ->
   Process self frame
   = {| returned := inl (KeyError "signal"); self_after := self;
        shown := None |}) /\
  (forall raw,
      signal frame = Some raw -> shared_boresight_radec frame = None ->
      Process self frame
      = {| returned := inl (KeyError "shared_boresight_radec");
           self_after := self; shown := None |}) /\
  (forall raw boresight_q,
      signal frame = Some raw ->
      shared_boresight_radec frame = Some boresight_q ->
      Exists (fun q => Rotation.norm q = 0) boresight_q ->
      Process self frame
      = {| returned := inl ValueError; self_after := self; shown := None |}).
Proof.
  intros Ht. rewrite (Process_scan _ _ Ht). unfold scan_inputs.
  split; [|split].
  - intros ->. reflexivity.
  - intros raw -> ->. reflexivity.
  - intros raw bq -> -> Hz. cbn [getitem bind].
    rewrite mapM_from_quat_zero; [reflexivity|].
    apply List.Exists_map. eapply List.Exists_impl; [|exact Hz].
    intros q Hq. simpl. rewrite norm_vector_first. exact Hq.
Qed.

(** X4 on a scan frame that carries nothing but its type. *)
Lemma X4_scan_fails_before_loop_witness :
  (signal (bare_frame Scan) = None ->
   Process calibrated_maker (bare_frame Scan)
   = {| returned := inl (KeyError "signal"); self_after := calibrated_maker;
        shown := None |}) /\
  (forall raw,
      signal (bare_frame Scan) = Some raw ->
      shared_boresight_radec (bare_frame Scan) = None ->
      Process calibrated_maker (bare_frame Scan)
      = {| returned := inl (KeyError "shared_boresight_radec");
           self_after := calibrated_maker; shown := None |}) /\
  (forall raw boresight_q,
      signal (bare_frame Scan) = Some raw ->
      shared_boresight_radec (bare_frame Scan) = Some boresight_q ->
      Exists (fun q => Rotation.norm q = 0) boresight_q ->
      Process calibrated_maker (bare_frame Scan)
      = {| returned := inl ValueError; self_after := calibrated_maker;
           shown := None |}).
Proof.
  apply (X4_scan_fails_before_loop calibrated_maker (bare_frame Scan)).
  reflexivity.
Defined.

(** ** When a detector is binned and when it is refused *)

Lemma reconstruct_length (frame : G3Frame) (kid : string) (y_raw : list R) :
  length (reconstruct frame kid y_raw) = length y_raw.
Proof.
  unfold reconstruct.
  destruct (scalars frame !! _); [|reflexivity].
  destruct (scalars frame !! _); [|reflexivity].
  apply length_map.
Qed.

Lemma detector_radec_ok (br : list quat) (det_q : quat) :
  Forall (fun r => Rotation.norm r = 1) br -> Rotation.norm det_q <> 0 ->
  exists ra dec,
    detector_radec br det_q = inr (ra, dec) /\
    length ra = length br /\ length dec = length br.
Proof.
  intros Hbr Hq. destruct (from_quat_ok det_q Hq) as (det_r & Hr & _).
  rewrite (detector_radec_closed br det_q det_r Hbr Hr).
  eexists. eexists. split; [reflexivity|]. rewrite !length_map. auto.
Qed.

(** With sound edges [np.histogram2d] raises exactly when the number of
    weights differs from the number of samples. *)
Lemma histogram2d_weights (x y xe ye : list R) (w : list R) :
  length x = length y -> monotonic xe = true -> monotonic ye = true ->
  xe <> [] -> ye <> [] ->
  (length w = length x ->
   exists hist, histogram2d x y xe ye (Some w) = inr hist) /\
  (length w <> length x -> histogram2d x y xe ye (Some w) = inl ValueError).
Proof.
  intros Hxy Hmx Hmy Hx Hy. unfold histogram2d.
  destruct (Nat.eqb_spec (length x) (length y)); [|contradiction].
  rewrite Hmx, Hmy. cbn [negb].
  destruct (last xe) as [xl|] eqn:Ex; [|apply last_None in Ex; contradiction].
  destruct (last ye) as [yl|] eqn:Ey; [|apply last_None in Ey; contradiction].
  cbv [default from_option Datatypes.id].
  split; intros Hw; destruct (Nat.eqb_spec (length w) (length x));
    try contradiction; cbn [negb]; eauto.
Qed.

Lemma bin_detector_ok (frame : G3Frame) (br : list quat) (kid : string)
    (y_raw : list R) (self : QuickMapMaker) (det_q : quat) :
  Forall (fun r => Rotation.norm r = 1) br ->
  wf self ->
  monotonic (dec_edges self) = true -> monotonic (ra_edges self) = true ->
  det_offset_dict self !! kid = Some det_q -> Rotation.norm det_q <> 0 ->
  (length y_raw = length br ->
   exists self', bin_detector frame br kid y_raw self = (inr (), self')) /\
  (length y_raw <> length br ->
   bin_detector frame br kid y_raw self = (inl ValueError, self)).
Proof.
  intros Hbr (Hd & Hr & _) Hmd Hmr Hk Hq.
  destruct (detector_radec_ok br det_q Hbr Hq) as (ra & dec & Hrd & Hlra & Hldec).
  unfold bin_detector. rewrite Hk. cbn [getitem bind]. rewrite Hrd.
  destruct (histogram2d_weights dec ra (dec_edges self) (ra_edges self)
              (reconstruct frame kid y_raw)) as [Hok Hbad];
    auto; [congruence|].
  rewrite reconstruct_length, Hldec in Hok, Hbad.
  split; intros Hl.
  - destruct (Hok Hl) as [hist Hh]. rewrite Hh.
    destruct (histogram2d_unweighted _ _ _ _ _ _ Hh) as (dl & rl & _ & _ & Hu).
    cbn [set_sky_map dec_edges ra_edges]. rewrite Hu. eauto.
  - rewrite (Hbad Hl). reflexivity.
Qed.

(** X5: a detector that is calibrated (with a non-zero quaternion) but whose
    number of samples differs from the number of boresight samples is
    refused with [ValueError], and neither grid receives anything from it. *)
Theorem X5_sample_count_mismatch (self : QuickMapMaker) (frame : G3Frame)
    (raw : list (string * list R)) (br : list quat) (kid : string)
    (y_raw : list R) (det_q : quat) :
  scan_inputs frame = inr (raw, br) ->
  wf self ->
  monotonic (dec_edges self) = true -> monotonic (ra_edges self) = true ->
  det_offset_dict self !! kid = Some det_q -> Rotation.norm det_q <> 0 ->
  length y_raw <> length br ->
  bin_detector frame br kid y_raw self = (inl ValueError, self).
Proof.
  intros Hi Hwf Hmd Hmr Hk Hq Hl.
  apply scan_inputs_unit in Hi as (bq & _ & _ & _ & Hu).
  apply (bin_detector_ok frame br kid y_raw self det_q Hu Hwf Hmd Hmr Hk Hq), Hl.
Qed.

Lemma polar_maker_monotonic (table : gmap string quat) (s : R) (h : Z) :
  monotonic (dec_edges (polar_maker table s h)) = true /\
  monotonic (ra_edges (polar_maker table s h)) = true.
Proof. unfold polar_maker. cbn [dec_edges ra_edges monotonic]. decide_reals. auto. Qed.

(** X5 on a detector with two samples under one boresight sample. *)
Lemma X5_sample_count_mismatch_witness :
  bin_detector (polar_scan [("A", [5; 6])]) [identity_quat] "A" [5; 6]
    calibrated_maker
  = (inl ValueError, calibrated_maker).
Proof.
  apply (X5_sample_count_mismatch calibrated_maker (polar_scan [("A", [5; 6])])
           [("A", [5; 6])] [identity_quat] "A" [5; 6] identity_quat).
  - apply polar_scan_inputs.
  - apply polar_maker_wf.
  - apply polar_maker_monotonic.
  - apply polar_maker_monotonic.
  - reflexivity.
  - rewrite norm_identity. lra.
  - simpl. lia.
Defined.

Lemma scan_loop_ok (frame : G3Frame) (br : list quat)
    (raw : list (string * list R)) (self : QuickMapMaker) :
  Forall (fun r => Rotation.norm r = 1) br ->
  wf self ->
  monotonic (dec_edges self) = true -> monotonic (ra_edges self) = true ->
  Forall (fun entry : string * list R =>
            exists det_q, det_offset_dict self !! entry.1 = Some det_q /\
                          Rotation.norm det_q <> 0 /\
                          length entry.2 = length br) raw ->
  exists self', scan_loop frame br raw self = (inr (), self').
Proof.
  intros Hbr. revert self.
  induction raw as [|[kid y] raw IH]; intros self Hwf Hmd Hmr Hall.
  - exists self. reflexivity.
  - inversion Hall as [|? ? (det_q & Hk & Hq & Hl) Hrest]; subst.
    cbn [fst snd] in *.
    destruct (proj1 (bin_detector_ok frame br kid y self det_q
                       Hbr Hwf Hmd Hmr Hk Hq) Hl) as [self1 E].
    cbn [scan_loop]. rewrite E.
    destruct (bin_detector_wf _ _ _ _ _ _ _ Hwf E) as (Hwf1 & Hd1 & Hr1 & Ht1).
    apply IH; [exact Hwf1|congruence|congruence|].
    eapply Forall_impl; [exact Hrest|].
    intros entry (q & Hq1 & Hq2 & Hq3). exists q. rewrite Ht1. auto.
Qed.

(** X6: a scan frame is processed without exception, and returned, as soon
    as its boresight holds no zero quaternion and every detector of the
    batch is calibrated with a non-zero quaternion and has one sample per
    boresight sample (on an object whose grids have their shape and whose
    edges do not decrease). *)
Theorem X6_scan_succeeds (self : QuickMapMaker) (frame : G3Frame)
    (raw : list (string * list R)) (boresight_q : list quat) :
  type frame = Scan ->
  wf self ->
  monotonic (dec_edges self) = true -> monotonic (ra_edges self) = true ->
  signal frame = Some raw ->
  shared_boresight_radec frame = Some boresight_q ->
  Forall (fun q => Rotation.norm q <> 0) boresight_q ->
  Forall (fun entry : string * list R =>
            exists det_q, det_offset_dict self !! entry.1 = Some det_q /\
                          Rotation.norm det_q <> 0 /\
                          length entry.2 = length boresight_q) raw ->
  returned (Process self frame) = inr (Some frame) /\
  shown (Process self frame) = None.
Proof.
  intros Ht Hwf Hmd Hmr Hs Hb Hq Hall. rewrite (Process_scan _ _ Ht).
  destruct (mapM_from_quat_ok (map vector_first boresight_q))
    as (br & Hbr & Hlen & Hu).
  { apply List.Forall_map. eapply Forall_impl; [exact Hq|].
    intros q Hn. simpl. rewrite norm_vector_first. exact Hn. }
  unfold scan_inputs. rewrite Hs, Hb. cbn [getitem bind]. rewrite Hbr.
  cbn [bind]. rewrite length_map in Hlen.
  destruct (scan_loop_ok frame br raw self Hu Hwf Hmd Hmr) as [self' ->].
  { eapply Forall_impl; [exact Hall|].
    intros entry (q & H1 & H2 & H3). exists q. rewrite Hlen. auto. }
  split; reflexivity.
Qed.

(** X6 on a batch with one calibrated detector. *)
Lemma X6_scan_succeeds_witness :
  returned (Process calibrated_maker (single_scan 5)) = inr (Some (single_scan 5))
  /\ shown (Process calibrated_maker (single_scan 5)) = None.
Proof.
  apply (X6_scan_succeeds calibrated_maker (single_scan 5) [("A", [5])]
           [identity_boresight]).
  - reflexivity.
  - apply polar_maker_wf.
  - apply polar_maker_monotonic.
  - apply polar_maker_monotonic.
  - reflexivity.
  - reflexivity.
  - constructor; [|constructor]. rewrite norm_identity_boresight. lra.
  - constructor; [|constructor]. exists identity_quat.
    split; [reflexivity|]. split; [rewrite norm_identity; lra|reflexivity].
Defined.

(** ** What each pixel receives *)

Lemma cell_add_at (i' j' i j : nat) (w : R) (h : list (list R)) :
  cell (add_at i' j' w h) i j
  = (fun c => if decide (i' = i /\ j' = j) then c + w else c) <$> cell h i j.
Proof.
  unfold cell, add_at. rewrite list_lookup_alter.
  destruct (decide (i' = i)) as [->|Hi].
  - destruct (h !! i) as [row|]; [|reflexivity]. cbn [fmap option_fmap option_map mbind option_bind].
    rewrite list_lookup_alter.
    destruct (decide (j' = j)) as [->|Hj].
    + destruct (row !! j); [|reflexivity]. simpl.
      rewrite decide_True by auto. reflexivity.
    + destruct (row !! j); [|reflexivity]. simpl.
      rewrite decide_False by tauto. reflexivity.
  - destruct (h !! i) as [row|]; [|reflexivity]. simpl.
    destruct (row !! j); [|reflexivity]. simpl.
    rewrite decide_False by tauto. reflexivity.
Qed.

Lemma cell_deposit (xe ye : list R) (xl yl : R) (h : list (list R))
    (s : R * R * R) (i j : nat) :
  cell (deposit xe ye xl yl h s) i j
  = (fun c => c + (if lands xe ye xl yl i j s then s.2 else 0)) <$> cell h i j.
Proof.
  destruct s as [[xv yv] w]. unfold deposit, lands. cbn [fst snd].
  destruct (core_bin xe xl xv) as [i'|].
  - destruct (core_bin ye yl yv) as [j'|].
    + rewrite cell_add_at. destruct (cell h i j) as [c|]; [|reflexivity]. simpl.
      destruct (decide (i' = i /\ j' = j)) as [[-> ->]|Hn].
      * rewrite !Nat.eqb_refl. reflexivity.
      * destruct (Nat.eqb_spec i i'), (Nat.eqb_spec j j'); subst; simpl;
          try (exfalso; apply Hn; split; reflexivity); f_equal; ring.
    + destruct (cell h i j); simpl; [f_equal; ring|reflexivity].
  - destruct (cell h i j); simpl; [f_equal; ring|reflexivity].
Qed.

Lemma cell_foldl_deposit (xe ye : list R) (xl yl : R)
    (samples : list (R * R * R)) (h : list (list R)) (i j : nat) :
  cell (foldl (deposit xe ye xl yl) h samples) i j
  = (fun c => c + pixel_weight xe ye xl yl i j samples) <$> cell h i j.
Proof.
  revert h. induction samples as [|s samples IH]; intros h.
  - simpl. destruct (cell h i j); simpl; [f_equal; ring|reflexivity].
  - cbn [foldl]. rewrite IH, cell_deposit.
    destruct (cell h i j); simpl; [|reflexivity]. f_equal. ring.
Qed.

Lemma cell_zero_grid (rows cols i j : nat) :
  (i < rows)%nat -> (j < cols)%nat ->
  cell (replicate rows (replicate cols 0)) i j = Some 0.
Proof.
  intros Hi Hj. unfold cell. rewrite lookup_replicate_2 by exact Hi. simpl.
  apply lookup_replicate_2, Hj.
Qed.

(** Each entry of the histogram is the sum of the weights of the samples
    that land in its pixel. *)
Lemma cell_bincount2d (xe ye : list R) (xl yl : R) (samples : list (R * R * R))
    (i j : nat) :
  (i < pred (length xe))%nat -> (j < pred (length ye))%nat ->
  cell (bincount2d xe ye xl yl samples) i j
  = Some (pixel_weight xe ye xl yl i j samples).
Proof.
  intros Hi Hj. unfold bincount2d.
  rewrite cell_foldl_deposit, cell_zero_grid by assumption. simpl. f_equal. ring.
Qed.

Lemma pixel_weight_count (xe ye : list R) (xl yl : R) (i j : nat)
    (samples : list (R * R * R)) :
  Forall (fun s : R * R * R => s.2 = 1) samples ->
  pixel_weight xe ye xl yl i j samples
  = INR (pixel_count xe ye xl yl i j samples).
Proof.
  unfold pixel_count. induction 1 as [|s samples Hs _ IH].
  - reflexivity.
  - cbn [pixel_weight foldr]. fold (pixel_weight xe ye xl yl i j samples).
    rewrite filter_cons, IH.
    destruct (lands xe ye xl yl i j s) eqn:E.
    + rewrite decide_True by reflexivity. cbn [length]. rewrite S_INR, Hs. ring.
    + rewrite decide_False by discriminate. ring.
Qed.

Lemma pixel_count_weights (xe ye : list R) (xl yl : R) (i j : nat)
    (l : list (R * R)) (w w' : list R) :
  length w = length l -> length w' = length l ->
  pixel_count xe ye xl yl i j (zip l w) = pixel_count xe ye xl yl i j (zip l w').
Proof.
  unfold pixel_count. revert w w'.
  induction l as [|p l IH]; intros [|a w] [|a' w'] Hw Hw'; try discriminate.
  - reflexivity.
  - injection Hw as Hw. injection Hw' as Hw'.
    cbn [zip zip_with]. rewrite !filter_cons.
    change (lands xe ye xl yl i j (p, a)) with (lands xe ye xl yl i j (p, a')).
    destruct (decide (lands xe ye xl yl i j (p, a') = true));
      cbn [length]; rewrite (IH w w') by assumption; reflexivity.
Qed.

Lemma pixel_weight_unhit (xe ye : list R) (xl yl : R) (i j : nat)
    (samples : list (R * R * R)) :
  pixel_count xe ye xl yl i j samples = O ->
  pixel_weight xe ye xl yl i j samples = 0.
Proof.
  unfold pixel_count. induction samples as [|s samples IH]; [reflexivity|].
  rewrite filter_cons. cbn [pixel_weight foldr].
  fold (pixel_weight xe ye xl yl i j samples).
  destruct (lands xe ye xl yl i j s) eqn:E.
  - rewrite decide_True by reflexivity. discriminate.
  - rewrite decide_False by discriminate. intros H. rewrite (IH H). ring.
Qed.

(** A sample lands in the pixel whose two bins hold its coordinates. *)
Lemma lands_in_bin (xe ye : list R) (xl yl : R) (i j : nat) (s : R * R * R) :
  monotonic xe = true -> monotonic ye = true ->
  last xe = Some xl -> last ye = Some yl ->
  lands xe ye xl yl i j s = true <-> in_bin xe i s.1.1 /\ in_bin ye j s.1.2.
Proof.
  intros Hmx Hmy Hlx Hly.
  rewrite <- (core_bin_in_bin xe xl s.1.1 i Hmx Hlx).
  rewrite <- (core_bin_in_bin ye yl s.1.2 j Hmy Hly).
  unfold lands.
  destruct (core_bin xe xl s.1.1) as [i'|]; [|split; [discriminate|intros [? _]; discriminate]].
  destruct (core_bin ye yl s.1.2) as [j'|]; [|split; [discriminate|intros [_ ?]; discriminate]].
  rewrite andb_true_iff, !Nat.eqb_eq. split.
  - intros [-> ->]. auto.
  - intros [[= ->] [= ->]]. auto.
Qed.

(** The effect of one successful pass on every pixel. *)
Lemma bin_detector_cells (frame : G3Frame) (br : list quat) (kid : string)
    (y_raw : list R) (self self' : QuickMapMaker) :
  wf self -> bin_detector frame br kid y_raw self = (inr (), self') ->
  exists det_q ra dec dl rl,
    det_offset_dict self !! kid = Some det_q /\
    detector_radec br det_q = inr (ra, dec) /\
    monotonic (dec_edges self) = true /\ monotonic (ra_edges self) = true /\
    last (dec_edges self) = Some dl /\ last (ra_edges self) = Some rl /\
    forall i j h s,
      cell (hits_map self) i j = Some h -> cell (sky_map self) i j = Some s ->
      cell (hits_map self') i j
      = Some (h + Z.of_nat (pixel_count (dec_edges self) (ra_edges self) dl rl
                              i j (zip (zip dec ra) (reconstruct frame kid y_raw))))%Z
      /\
      cell (sky_map self') i j
      = Some (s + pixel_weight (dec_edges self) (ra_edges self) dl rl i j
                    (zip (zip dec ra) (reconstruct frame kid y_raw))).
Proof.
  intros Hwf H. apply bin_detector_inr in H.
  destruct H as (det_q & ra & dec & dl & rl & Hq & Hrd & Hmd & Hmr & Hdl & Hrl
                 & Hlen & ->).
  exists det_q, ra, dec, dl, rl. repeat (split; [assumption|]).
  intros i j h s Hh Hs.
  destruct Hwf as (_ & _ & Hsky & Hhits).
  destruct (proj1 (cell_Some_shape _ _ (hits_map self) i j Hhits)) as [Hi Hj];
    [eauto|].
  cbn [set_hits_map set_sky_map hits_map sky_map].
  rewrite !cell_grid_add, Hh, Hs, cell_trunc, !cell_bincount2d by assumption.
  split; [|reflexivity].
  cbn [fmap option_fmap option_map]. f_equal. f_equal.
  assert (Hzl : length (zip dec ra) = length dec).
  { rewrite length_zip. apply detector_radec_length in Hrd. lia. }
  rewrite pixel_weight_count, int_trunc_INR.
  - f_equal. apply pixel_count_weights; [rewrite length_replicate|]; congruence.
  - apply Forall_lookup. intros n smp Hn.
    apply lookup_zip_with_Some in Hn as (p & w & -> & _ & Hw).
    apply lookup_replicate in Hw as [-> _]. reflexivity.
Qed.

(** X7: a successful pass for one detector adds to each pixel's hit count
    the number of the detector's samples whose dec lies in the pixel's row
    bin and whose ra lies in its column bin, and adds to the pixel's sum the
    reconstructed values of exactly those samples (the detector not being
    decompressed with a zero gain). *)
Theorem X7_pixel_receives_its_samples (frame : G3Frame) (br : list quat)
    (kid : string) (y_raw : list R) (self self' : QuickMapMaker) :
  wf self -> finite_gain frame kid ->
  bin_detector frame br kid y_raw self = (inr (), self') ->
  exists det_q ra dec dl rl,
    det_offset_dict self !! kid = Some det_q /\
    detector_radec br det_q = inr (ra, dec) /\
    last (dec_edges self) = Some dl /\ last (ra_edges self) = Some rl /\
    (forall i j smp,
        lands (dec_edges self) (ra_edges self) dl rl i j smp = true
        <-> in_bin (dec_edges self) i smp.1.1 /\ in_bin (ra_edges self) j smp.1.2)
    /\
    forall i j h s,
      cell (hits_map self) i j = Some h -> cell (sky_map self) i j = Some s ->
      cell (hits_map self') i j
      = Some (h + Z.of_nat (pixel_count (dec_edges self) (ra_edges self) dl rl
                              i j (zip (zip dec ra) (reconstruct frame kid y_raw))))%Z
      /\
      cell (sky_map self') i j
      = Some (s + pixel_weight (dec_edges self) (ra_edges self) dl rl i j
                    (zip (zip dec ra) (reconstruct frame kid y_raw))).
Proof.
  intros Hwf _ H.
  destruct (bin_detector_cells _ _ _ _ _ _ Hwf H)
    as (det_q & ra & dec & dl & rl & Hq & Hrd & Hmd & Hmr & Hdl & Hrl & Hcells).
  exists det_q, ra, dec, dl, rl.
  split; [exact Hq|]. split; [exact Hrd|]. split; [exact Hdl|].
  split; [exact Hrl|]. split; [|exact Hcells].
  intros i j smp. apply lands_in_bin; assumption.
Qed.

(** X7 on a compressed sample at the pole: raw value 8, gain 2, offset 1. *)
Lemma X7_pixel_receives_its_samples_witness :
  reconstruct (compressed_scan [("A", [8])] 2 1) "A" [8] = [8 / 2 + 1] /\
  exists det_q ra dec dl rl,
    det_offset_dict calibrated_maker !! "A" = Some det_q /\
    detector_radec [identity_quat] det_q = inr (ra, dec) /\
    last (dec_edges calibrated_maker) = Some dl /\
    last (ra_edges calibrated_maker) = Some rl /\
    (forall i j smp,
        lands (dec_edges calibrated_maker) (ra_edges calibrated_maker) dl rl
          i j smp = true
        <-> in_bin (dec_edges calibrated_maker) i smp.1.1 /\
            in_bin (ra_edges calibrated_maker) j smp.1.2)
    /\
    forall i j h s,
      cell (hits_map calibrated_maker) i j = Some h ->
      cell (sky_map calibrated_maker) i j = Some s ->
      cell (hits_map (polar_maker {["A" := identity_quat]}
                        (0 + (8 / 2 + 1)) (0 + 1))) i j
      = Some (h + Z.of_nat
                    (pixel_count (dec_edges calibrated_maker)
                       (ra_edges calibrated_maker) dl rl i j
                       (zip (zip dec ra)
                          (reconstruct (compressed_scan [("A", [8%R])] 2 1)
                             "A" [8%R]))))%Z
      /\
      cell (sky_map (polar_maker {["A" := identity_quat]}
                       (0 + (8 / 2 + 1)) (0 + 1))) i j
      = Some (s + pixel_weight (dec_edges calibrated_maker)
                    (ra_edges calibrated_maker) dl rl i j
                    (zip (zip dec ra)
                       (reconstruct (compressed_scan [("A", [8])] 2 1)
                          "A" [8]))).
Proof.
  split; [reflexivity|].
  apply (X7_pixel_receives_its_samples (compressed_scan [("A", [8])] 2 1)
           [identity_quat] "A" [8] calibrated_maker
           (polar_maker {["A" := identity_quat]} (0 + (8 / 2 + 1)) (0 + 1))).
  - apply polar_maker_wf.
  - apply compressed_scan_finite_gain. lra.
  - apply polar_bin_sample; [reflexivity|apply lookup_singleton_eq].
Defined.

(** ** A pixel without hits holds no signal *)

Lemma bin_detector_unhit (frame : G3Frame) (br : list quat) (kid : string)
    (y_raw : list R) (self self' : QuickMapMaker) (r : exn + ()) :
  wf self -> unhit_is_zero self ->
  bin_detector frame br kid y_raw self = (r, self') -> unhit_is_zero self'.
Proof.
  intros Hwf Hinv H. destruct r as [e|[]].
  { apply bin_detector_inl in H. subst. exact Hinv. }
  destruct (bin_detector_wf _ _ _ _ _ _ _ Hwf H) as (Hwf' & Hd & Hr & _).
  destruct (bin_detector_cells _ _ _ _ _ _ Hwf H)
    as (det_q & ra & dec & dl & rl & _ & _ & _ & _ & _ & _ & Hcells).
  intros i j h' s' Hh' Hs'.
  pose proof Hwf as (_ & _ & Hsky & Hhits).
  pose proof Hwf' as (_ & _ & _ & Hhits').
  rewrite Hd, Hr in Hhits'.
  destruct (proj1 (cell_Some_shape _ _ _ i j Hhits')) as [Hi Hj]; [eauto|].
  destruct (proj2 (cell_Some_shape _ _ _ i j Hhits)) as [h Hh]; [auto|].
  destruct (proj2 (cell_Some_shape _ _ _ i j Hsky)) as [s Hs]; [auto|].
  destruct (Hcells i j h s Hh Hs) as [Eh Es].
  rewrite Eh in Hh'. rewrite Es in Hs'. injection Hh' as <-. injection Hs' as <-.
  destruct (Hinv i j h s Hh Hs) as [Hpos Hzero].
  split; [lia|]. intros Hsum.
  rewrite Hzero by lia. rewrite pixel_weight_unhit by lia. ring.
Qed.

Lemma scan_loop_unhit (frame : G3Frame) (br : list quat)
    (raw : list (string * list R)) (self self' : QuickMapMaker) (r : exn + ()) :
  wf self -> unhit_is_zero self ->
  scan_loop frame br raw self = (r, self') -> unhit_is_zero self'.
Proof.
  revert self. induction raw as [|[kid y] raw IH]; intros self Hwf Hinv H;
    simpl in H.
  - injection H as _ <-. exact Hinv.
  - destruct (bin_detector frame br kid y self) as [[e|u] self1] eqn:E.
    + injection H as _ <-. eapply bin_detector_unhit; eauto.
    + apply (IH self1); [|eapply bin_detector_unhit; eauto|exact H].
      apply (bin_detector_wf _ _ _ _ _ _ _ Hwf E).
Qed.

Lemma Process_unhit (self : QuickMapMaker) (frame : G3Frame) :
  wf self -> unhit_is_zero self ->
  unhit_is_zero (self_after (Process self frame)).
Proof.
  intros Hwf Hinv. unfold Process.
  destruct (decide (type frame = Calibration)).
  { destruct (load_focalplane frame); exact Hinv. }
  destruct (decide (type frame = Scan)).
  { destruct (scan_inputs frame) as [|[raw br]]; [exact Hinv|].
    destruct (scan_loop frame br raw self) as [[err|u] self'] eqn:E;
      apply (scan_loop_unhit _ _ _ _ _ _ Hwf Hinv E). }
  destruct (decide (type frame = EndProcessing)).
  { destruct (map_extent self); exact Hinv. }
  exact Hinv.
Qed.

Lemma init_unhit (ra0 dec0 xlen ylen res : R) (self : QuickMapMaker) :
  __init__ ra0 dec0 xlen ylen res = inr self -> unhit_is_zero self.
Proof.
  intros Hi. apply init_inv in Hi
    as (cols & rows & _ & _ & _ & _ & _ & _ & Hsky & Hhits).
  intros i j h s. rewrite Hsky, Hhits.
  unfold cell. intros Hh Hs.
  destruct (replicate _ (replicate _ 0%Z) !! i) as [hrow|] eqn:Eh; [|discriminate].
  destruct (replicate _ (replicate _ 0) !! i) as [srow|] eqn:Es; [|discriminate].
  apply lookup_replicate in Eh as [-> _]. apply lookup_replicate in Es as [-> _].
  simpl in Hh, Hs.
  apply lookup_replicate in Hh as [-> _]. apply lookup_replicate in Hs as [-> _].
  split; [lia|reflexivity].
Qed.

Lemma process_all_invariants (ra0 dec0 xlen ylen res : R)
    (self : QuickMapMaker) (frames : list G3Frame) :
  __init__ ra0 dec0 xlen ylen res = inr self ->
  wf (process_all self frames) /\ unhit_is_zero (process_all self frames).
Proof.
  intros Hi. induction frames as [|frame frames [IHw IHu]] using rev_ind.
  - split; [apply (init_wf _ _ _ _ _ _ Hi)|apply (init_unhit _ _ _ _ _ _ Hi)].
  - rewrite process_all_snoc. split; [apply Process_wf, IHw|].
    apply Process_unhit; assumption.
Qed.

Lemma grid_ext {A : Type} (rows cols : nat) (a b : list (list A)) :
  shape rows cols a -> shape rows cols b ->
  (forall i j, cell a i j = cell b i j) -> a = b.
Proof.
  intros [Ha1 Ha2] [Hb1 Hb2] Hcell. apply list_eq. intros i.
  destruct (a !! i) as [ra|] eqn:Ea.
  - destruct (lookup_lt_is_Some_2 b i) as [rb Eb].
    { apply lookup_lt_Some in Ea. lia. }
    rewrite Eb. f_equal. apply list_eq. intros j.
    specialize (Hcell i j). unfold cell in Hcell. rewrite Ea, Eb in Hcell.
    exact Hcell.
  - symmetry. apply lookup_ge_None. apply lookup_ge_None in Ea. lia.
Qed.

Lemma zip_with_shape {A B C : Type} (f : A -> B -> C) (rows cols : nat)
    (a : list (list A)) (b : list (list B)) :
  shape rows cols a -> shape rows cols b ->
  shape rows cols (zip_with (zip_with f) a b).
Proof.
  intros [Ha1 Ha2] [Hb1 Hb2]. split.
  - rewrite length_zip_with. lia.
  - apply Forall_lookup. intros i row Hrow.
    apply lookup_zip_with_Some in Hrow as (ra & rb & -> & Hra & Hrb).
    rewrite Forall_lookup in Ha2. rewrite Forall_lookup in Hb2.
    rewrite length_zip_with, (Ha2 i ra Hra), (Hb2 i rb Hrb). lia.
Qed.

Lemma map_shape {A B : Type} (f : A -> B) (rows cols : nat) (a : list (list A)) :
  shape rows cols a -> shape rows cols (map (map f) a).
Proof.
  intros [Hr Hc]. split.
  - rewrite length_map. exact Hr.
  - apply List.Forall_map. eapply Forall_impl; [exact Hc|].
    intros row Hrow. simpl. rewrite length_map. exact Hrow.
Qed.

Lemma final_map_shape (self : QuickMapMaker) :
  wf self ->
  shape (pred (length (dec_edges self))) (pred (length (ra_edges self)))
        (final_map self).
Proof.
  intros (_ & _ & Hsky & Hhits). unfold final_map.
  rewrite <- (app_nil_r (mask_select _ _)).
  rewrite mask_assign_select.
  - apply zip_with_shape; [exact Hsky|apply map_shape, Hhits].
  - apply (shape_Forall2 _ _ _ _ Hsky). apply map_shape, Hhits.
Qed.

(** X8: in an object built by the constructor, after any stream of frames,
    no pixel has a negative hit count and a pixel without hits has sum 0;
    hence the map that the end of processing plots is the accumulated
    [sky_map] itself: the mask on [hits_map > 0] never changes an entry. *)
Theorem X8_unhit_pixels_hold_zero (ra0 dec0 xlen ylen res : R)
    (self : QuickMapMaker) (frames : list G3Frame) :
  __init__ ra0 dec0 xlen ylen res = inr self ->
  unhit_is_zero (process_all self frames) /\
  final_map (process_all self frames) = sky_map (process_all self frames).
Proof.
  intros Hi.
  destruct (process_all_invariants _ _ _ _ _ _ frames Hi) as [Hwf Hinv].
  split; [exact Hinv|].
  set (obj := process_all self frames) in *.
  pose proof Hwf as (_ & _ & Hsky & Hhits).
  apply (grid_ext _ _ _ _ (final_map_shape obj Hwf) Hsky).
  intros i j. rewrite (final_map_cell obj i j Hwf).
  destruct (cell (sky_map obj) i j) as [s|] eqn:Es; [|reflexivity].
  destruct (proj2 (cell_Some_shape _ _ _ i j Hhits)) as [h Eh].
  { apply (cell_Some_shape _ _ _ i j Hsky). eauto. }
  rewrite Eh. destruct (Hinv i j h s Eh Es) as [Hpos Hzero].
  destruct (decide (0 < h)%Z); [reflexivity|].
  rewrite Hzero by lia. reflexivity.
Qed.

(** X8 on the concrete map maker and a stream of three frames. *)
Lemma X8_unhit_pixels_hold_zero_witness :
  unhit_is_zero (process_all (polar_maker ∅ 0 0) polar_stream) /\
  final_map (process_all (polar_maker ∅ 0 0) polar_stream)
  = sky_map (process_all (polar_maker ∅ 0 0) polar_stream).
Proof.
  apply (X8_unhit_pixels_hold_zero 0 90 1 1 (1 / 2) (polar_maker ∅ 0 0)
           polar_stream).
  apply polar_maker_constructed.
Defined.

(** The stream ends with one hit and sum 5 in the pixel of the pole. *)
Example polar_stream_run :
  process_all (polar_maker ∅ 0 0) polar_stream
  = polar_maker {["A" := identity_quat]} (0 + 5) (0 + 1).
Proof.
  unfold process_all, polar_stream. cbn [foldl].
  rewrite (Process_calibration _ (calibration_frame _ _)) by reflexivity.
  cbn [load_focalplane calibration_frame focalplane getitem bind self_after].
  change (set_det_offset_dict (dict_of_zip ["A"] [identity_quat])
            (polar_maker ∅ 0 0))
    with (polar_maker {["A" := identity_quat]} 0 0).
  rewrite single_scan_run. cbn [self_after].
  rewrite Process_end by reflexivity.
  destruct (map_extent _); reflexivity.
Qed.

(** ** From the calibration blob to the lookup in the loop *)

Lemma filter_zip_absent (names : list string) (quats : list quat) (k : string) :
  k ∉ names ->
  filter (fun p : string * quat => p.1 = k) (zip names quats) = [].
Proof.
  revert quats. induction names as [|n names IH]; intros [|q quats] Hk;
    try reflexivity.
  cbn [zip zip_with]. rewrite filter_cons. cbn [fst].
  rewrite not_elem_of_cons in Hk. destruct Hk as [Hne Hk].
  rewrite decide_False by congruence. apply IH, Hk.
Qed.

Lemma dict_of_zip_row (names : list string) (quats : list quat) (i : nat)
    (name : string) (q : quat) :
  NoDup names -> names !! i = Some name -> quats !! i = Some q ->
  dict_of_zip names quats !! name = Some q.
Proof.
  intros Hnd Hn Hq. rewrite dict_of_zip_lookup.
  revert quats i Hn Hq. induction Hnd as [|n names Hnotin Hnd IH];
    intros quats i Hn Hq; [discriminate|].
  destruct quats as [|q0 quats]; [discriminate|].
  cbn [zip zip_with]. rewrite filter_cons. cbn [fst].
  destruct i as [|i]; simpl in Hn, Hq.
  - injection Hn as ->. injection Hq as ->.
    rewrite decide_True by reflexivity.
    rewrite (filter_zip_absent names quats name Hnotin). reflexivity.
  - assert (Hne : n <> name).
    { intros ->. apply Hnotin. apply list_elem_of_lookup. eauto. }
    rewrite decide_False by exact Hne. apply (IH quats i Hn Hq).
Qed.

Lemma dict_of_zip_absent (names : list string) (quats : list quat) (k : string) :
  k ∉ take (length quats) names -> dict_of_zip names quats !! k = None.
Proof.
  intros Hk. rewrite dict_of_zip_lookup.
  assert (Hz : zip names quats = zip (take (length quats) names) quats).
  { clear Hk. revert quats. induction names as [|n names IH]; intros [|q quats];
      try reflexivity.
    cbn [length take zip zip_with]. f_equal. apply IH. }
  rewrite Hz, filter_zip_absent by exact Hk. reflexivity.
Qed.

(** X9: after a calibration frame whose names are distinct, the table maps
    the name of every row that has a quaternion to that row's quaternion,
    and has no entry for any other name (rows beyond the shorter column
    included); a scan then raises [KeyError] for a detector exactly when its
    name is not among those rows. *)
Theorem X9_calibration_then_lookup (self : QuickMapMaker) (frame : G3Frame)
    (names : list string) (quats : list quat) :
  type frame = Calibration ->
  focalplane frame = Some (FocalPlane names quats) ->
  NoDup names ->
  (forall i name q,
      names !! i = Some name -> quats !! i = Some q ->
      det_offset_dict (self_after (Process self frame)) !! name = Some q) /\
  (forall k,
      k ∉ take (length quats) names ->
      det_offset_dict (self_after (Process self frame)) !! k = None /\
      forall scan br y,
        bin_detector scan br k y (self_after (Process self frame))
        = (inl (KeyError k), self_after (Process self frame))).
Proof.
  intros Ht Hb Hnd. rewrite (Process_calibration _ _ Ht).
  unfold load_focalplane. rewrite Hb.
  cbn [getitem bind self_after set_det_offset_dict det_offset_dict]. split.
  - intros i name q Hn Hq. apply (dict_of_zip_row names quats i); assumption.
  - intros k Hk. pose proof (dict_of_zip_absent names quats k Hk) as Hnone.
    split; [exact Hnone|]. intros scan br y.
    apply bin_detector_unknown. exact Hnone.
Qed.

(** X9 on a blob with the rows "A" and "B". *)
Lemma X9_calibration_then_lookup_witness :
  (forall i name q,
      ["A"; "B"] !! i = Some name ->
      [identity_quat; Quat 0 1 0 1] !! i = Some q ->
      det_offset_dict
        (self_after (Process (polar_maker ∅ 0 0)
           (calibration_frame ["A"; "B"] [identity_quat; Quat 0 1 0 1])))
        !! name = Some q) /\
  (forall k,
      k ∉ take (length [identity_quat; Quat 0 1 0 1]) ["A"; "B"] ->
      det_offset_dict
        (self_after (Process (polar_maker ∅ 0 0)
           (calibration_frame ["A"; "B"] [identity_quat; Quat 0 1 0 1])))
        !! k = None /\
      forall scan br y,
        bin_detector scan br k y
          (self_after (Process (polar_maker ∅ 0 0)
             (calibration_frame ["A"; "B"] [identity_quat; Quat 0 1 0 1])))
        = (inl (KeyError k),
           self_after (Process (polar_maker ∅ 0 0)
             (calibration_frame ["A"; "B"] [identity_quat; Quat 0 1 0 1])))).
Proof.
  apply (X9_calibration_then_lookup (polar_maker ∅ 0 0)
           (calibration_frame ["A"; "B"] [identity_quat; Quat 0 1 0 1])
           ["A"; "B"] [identity_quat; Quat 0 1 0 1]).
  - reflexivity.
  - reflexivity.
  - apply (bool_decide_unpack _). reflexivity.
Defined.

(** ** The edges that the constructor lays out *)

Lemma axis_edges (len c : R) (n : Z) :
  (1 <= n)%Z ->
  let edges :=
    map (fun e => e + c)
      (map (fun i : nat =>
              INR i * ((len / 2 - - len / 2) / INR (Z.to_nat (n + 1) - 1))
              + - len / 2)
         (seq 0 (Z.to_nat (n + 1)))) in
  head edges = Some (c - len / 2) /\
  last edges = Some (c + len / 2) /\
  (forall i a b, edges !! i = Some a -> edges !! S i = Some b ->
                 b - a = len / IZR n).
Proof.
  intros Hn edges.
  assert (Hm : 1 <= IZR n) by (apply IZR_le in Hn; exact Hn).
  assert (HK : INR (Z.to_nat (n + 1) - 1) = IZR n).
  { rewrite INR_IZR_INZ. f_equal. lia. }
  assert (Hsize : Z.to_nat (n + 1) = S (Z.to_nat n)) by lia.
  assert (Hlook : forall i, (i < S (Z.to_nat n))%nat ->
            edges !! i = Some (INR i * ((len / 2 - - len / 2) / IZR n)
                               + - len / 2 + c)).
  { intros i Hi. unfold edges. rewrite lookup_map, lookup_map_seq by lia.
    rewrite HK. reflexivity. }
  assert (Hlast : INR (Z.to_nat n) = IZR n).
  { rewrite INR_IZR_INZ. f_equal. lia. }
  split; [|split].
  - rewrite head_lookup, Hlook by lia. f_equal. simpl. field. lra.
  - rewrite last_lookup. unfold edges at 1. rewrite !length_map, length_seq, Hsize.
    cbn [pred]. rewrite Hlook by lia. f_equal. rewrite Hlast. field. lra.
  - intros i a b Ha Hb.
    assert (Hi : (S i < S (Z.to_nat n))%nat).
    { apply lookup_lt_Some in Hb. unfold edges in Hb.
      rewrite !length_map, length_seq in Hb. lia. }
    rewrite Hlook in Ha by lia. rewrite Hlook, S_INR in Hb by lia.
    injection Ha as <-. injection Hb as <-. field. lra.
Qed.

Lemma bpow_m53 : bpow (-53) = / 9007199254740992.
Proof. apply (bpow_neg_IZR 53). lia. Qed.

(** The width of a pixel when the number of pixels is the integer part of
    the rounded quotient. *)
Lemma pixel_width (len r : R) :
  0 < r -> r <= len ->
  (1 <= Int_part (round_binary64 (len / r)))%Z /\
  r <= (1 + bpow (-53)) * (len / IZR (Int_part (round_binary64 (len / r)))) /\
  len / IZR (Int_part (round_binary64 (len / r))) < 2 * r /\
  (round_binary64 (len / r) = len / r ->
   r <= len / IZR (Int_part (round_binary64 (len / r)))).
Proof.
  intros Hr Hlen.
  pose proof (div_ge_1 _ _ Hr Hlen) as Hq1.
  pose proof (round_binary64_ge_1 _ Hq1) as Hrq1.
  pose proof (Int_part_ge_1 _ Hrq1) as Hn.
  assert (Herr : Rabs (round_binary64 (len / r) - len / r)
                 <= len / r * bpow (-53)).
  { apply round_binary64_error.
    pose proof (bpow_le (-1022) 0 ltac:(lia)) as H. rewrite bpow_0 in H. lra. }
  apply Rabs_le_inv in Herr. rewrite bpow_m53 in *.
  destruct (base_Int_part (round_binary64 (len / r))) as [Hlo Hhi].
  assert (Hq : len = len / r * r) by (field; lra).
  set (q := len / r) in *. set (rq := round_binary64 q) in *.
  set (n := Int_part rq) in *.
  assert (Hm : 1 <= IZR n) by (apply IZR_le in Hn; exact Hn).
  assert (Hd : len / IZR n * IZR n = len) by (field; lra).
  set (d := len / IZR n) in *.
  split; [exact Hn|]. split; [|split].
  - destruct (Rle_lt_dec r ((1 + / 9007199254740992) * d)) as [|Hlt];
      [assumption|exfalso].
    assert (H1 : IZR n * r <= (1 + / 9007199254740992) * q * r)
      by (apply Rmult_le_compat_r; lra).
    assert (H2 : (1 + / 9007199254740992) * d * IZR n < r * IZR n)
      by (apply Rmult_lt_compat_r; lra).
    nra.
  - assert (Hq2 : q < 2 * IZR n).
    { destruct (Z.eq_dec n 1%Z) as [E|E].
      - rewrite E. destruct (Rlt_le_dec q (2 * 1)) as [|Hge]; [assumption|exfalso].
        assert (H2 : bpow 1 <= rq).
        { apply round_binary64_ge_bpow; [lia|].
          rewrite (bpow_IZR 1) by lia. eval_IZR. lra. }
        rewrite (bpow_IZR 1) in H2 by lia. rewrite E in Hlo, Hhi.
        revert H2 Hlo Hhi. eval_IZR. lra.
      - assert (H2 : 2 <= IZR n) by (apply IZR_le; lia). lra. }
    destruct (Rlt_le_dec d (2 * r)) as [|Hge]; [assumption|exfalso].
    assert (H1 : 2 * r * IZR n <= d * IZR n)
      by (apply Rmult_le_compat_r; lra).
    assert (H2 : q * r < 2 * IZR n * r) by (apply Rmult_lt_compat_r; lra).
    lra.
  - intros Ex. fold rq in Ex. rewrite Ex in Hlo.
    destruct (Rle_lt_dec r d) as [|Hlt]; [assumption|exfalso].
    assert (H1 : d * IZR n < r * IZR n) by (apply Rmult_lt_compat_r; lra).
    assert (H2 : IZR n * r <= q * r) by (apply Rmult_le_compat_r; lra).
    lra.
Qed.

Lemma div_swap (a b m : R) :
  0 < b -> 1 <= m -> a / m = b <-> a / b = m.
Proof.
  intros Hb Hm. split; intros E.
  - assert (Ha : a = b * m) by (rewrite <- E; field; lra). subst a. field. lra.
  - assert (Ha : a = m * b) by (rewrite <- E; field; lra). subst a. field. lra.
Qed.

(** X10: with a positive resolution and a width and a height of at least
    one pixel (and quotients that a float can hold), the constructed edges
    run exactly from [ra0 - xlen/2] to [ra0 + xlen/2] and from
    [dec0 - ylen/2] to [dec0 + ylen/2] (the extent that the final plot is
    given), in equal steps of [xlen/nx] and [ylen/ny].  A pixel is less
    than twice [res] wide; it is at least [res] wide when the quotient
    [xlen/res] is a float, and up to the rounding of that quotient (a factor
    [1 + 2^-53]) in general; it is exactly [res] wide only when [res]
    divides the length. *)
Theorem X10_edges_span_the_map (ra0 dec0 xlen ylen res : R) :
  0 < res -> res <= xlen -> res <= ylen ->
  to_float (xlen / res) <> Infinity -> to_float (ylen / res) <> Infinity ->
  exists self,
    __init__ ra0 dec0 xlen ylen res = inr self /\
    map_extent self
    = inr (ra0 - xlen / 2, ra0 + xlen / 2, dec0 - ylen / 2, dec0 + ylen / 2) /\
    (forall i a b, ra_edges self !! i = Some a -> ra_edges self !! S i = Some b ->
                   b - a = xlen / IZR (nx self)) /\
    (forall i a b, dec_edges self !! i = Some a -> dec_edges self !! S i = Some b ->
                   b - a = ylen / IZR (ny self)) /\
    (res <= (1 + bpow (-53)) * (xlen / IZR (nx self)) /\
     xlen / IZR (nx self) < 2 * res) /\
    (res <= (1 + bpow (-53)) * (ylen / IZR (ny self)) /\
     ylen / IZR (ny self) < 2 * res) /\
    (round_binary64 (xlen / res) = xlen / res -> res <= xlen / IZR (nx self)) /\
    (round_binary64 (ylen / res) = ylen / res -> res <= ylen / IZR (ny self)) /\
    (xlen / IZR (nx self) = res <-> xlen / res = IZR (nx self)) /\
    (ylen / IZR (ny self) = res <-> ylen / res = IZR (ny self)).
Proof.
  intros Hres Hx Hy Hfx Hfy.
  destruct (to_float (xlen / res)) as [qx|] eqn:Eqx; [|contradiction].
  destruct (to_float (ylen / res)) as [qy|] eqn:Eqy; [|contradiction].
  apply to_float_inv in Eqx as Eqx'. destruct Eqx' as [Hqx _].
  apply to_float_inv in Eqy as Eqy'. destruct Eqy' as [Hqy _].
  destruct (pixel_width xlen res Hres Hx) as (Hnx1 & Hxlo & Hxhi & Hxe).
  destruct (pixel_width ylen res Hres Hy) as (Hny1 & Hylo & Hyhi & Hye).
  rewrite <- Hqx in Hnx1, Hxlo, Hxhi, Hxe.
  rewrite <- Hqy in Hny1, Hylo, Hyhi, Hye.
  assert (Hqx0 : 0 <= qx).
  { rewrite Hqx. apply round_binary64_nonneg, div_nonneg; lra. }
  assert (Hqy0 : 0 <= qy).
  { rewrite Hqy. apply round_binary64_nonneg, div_nonneg; lra. }
  destruct (axis_edges xlen ra0 _ Hnx1) as (Hxh & Hxl & Hxs).
  destruct (axis_edges ylen dec0 _ Hny1) as (Hyh & Hyl & Hys).
  pose proof (IZR_le _ _ Hnx1) as Hnx1'. pose proof (IZR_le _ _ Hny1) as Hny1'.
  eexists. split.
  { apply (init_inr _ _ _ _ _ qx qy); [lra|exact Eqx|exact Eqy| |];
      rewrite int_trunc_nonneg by assumption; lia. }
  cbn [nx ny ra_edges dec_edges]. unfold map_extent, first_item, last_item.
  cbn [ra_edges dec_edges].
  rewrite !(int_trunc_nonneg _ Hqx0), !(int_trunc_nonneg _ Hqy0).
  rewrite Hxh, Hxl, Hyh, Hyl. cbn [bind]. rewrite <- Hqx, <- Hqy.
  split; [reflexivity|]. split; [exact Hxs|]. split; [exact Hys|].
  split; [split; assumption|]. split; [split; assumption|].
  split; [exact Hxe|]. split; [exact Hye|].
  split; apply div_swap; assumption.
Qed.

(** X10 on the default arguments: 100 pixels of width 1/100, a little less
    than the float [0.01]. *)
Lemma X10_edges_span_the_map_witness :
  1 / 100 < double_0_01 /\
  exists self,
    __init__ 0 0 1 1 double_0_01 = inr self /\
    map_extent self = inr (0 - 1 / 2, 0 + 1 / 2, 0 - 1 / 2, 0 + 1 / 2) /\
    (forall i a b, ra_edges self !! i = Some a -> ra_edges self !! S i = Some b ->
                   b - a = 1 / IZR (nx self)) /\
    (forall i a b, dec_edges self !! i = Some a -> dec_edges self !! S i = Some b ->
                   b - a = 1 / IZR (ny self)) /\
    (double_0_01 <= (1 + bpow (-53)) * (1 / IZR (nx self)) /\
     1 / IZR (nx self) < 2 * double_0_01) /\
    (double_0_01 <= (1 + bpow (-53)) * (1 / IZR (ny self)) /\
     1 / IZR (ny self) < 2 * double_0_01) /\
    (round_binary64 (1 / double_0_01) = 1 / double_0_01 ->
     double_0_01 <= 1 / IZR (nx self)) /\
    (round_binary64 (1 / double_0_01) = 1 / double_0_01 ->
     double_0_01 <= 1 / IZR (ny self)) /\
    (1 / IZR (nx self) = double_0_01 <-> 1 / double_0_01 = IZR (nx self)) /\
    (1 / IZR (ny self) = double_0_01 <-> 1 / double_0_01 = IZR (ny self)).
Proof.
  split; [unfold double_0_01; lra|].
  apply (X10_edges_span_the_map 0 0 1 1 double_0_01);
    try apply double_0_01_pos;
    rewrite (proj1 default_quotient); discriminate.
Defined.

(** ** The angles are the spherical coordinates of the pointing vector *)



(** ** Quaternions need not be normalised *)

Lemma sumsq_scale (k : R) (q : quat) :
  sumsq (scale_quat k q) = k * k * sumsq q.
Proof. unfold sumsq, scale_quat. simpl. ring. Qed.

Lemma norm_scale (k : R) (q : quat) :
  Rotation.norm (scale_quat k q) = Rabs k * Rotation.norm q.
Proof.
  unfold Rotation.norm. fold (sumsq (scale_quat k q)). fold (sumsq q).
  rewrite sumsq_scale, sqrt_mult by (try apply sumsq_nonneg; nra).
  f_equal. fold (Rsqr k). apply sqrt_Rsqr_abs.
Qed.

Lemma from_quat_scale_pos (k : R) (q : quat) :
  0 < k -> Rotation.from_quat (scale_quat k q) = Rotation.from_quat q.
Proof.
  intros Hk. unfold Rotation.from_quat. rewrite norm_scale, Rabs_pos_eq by lra.
  destruct (Req_dec_T (Rotation.norm q) 0) as [E|E].
  - rewrite E, Rmult_0_r. destruct (Req_dec_T 0 0); [reflexivity|contradiction].
  - destruct (Req_dec_T (k * Rotation.norm q) 0) as [E'|E'].
    + exfalso. apply Rmult_integral in E'. destruct E'; [lra|contradiction].
    + unfold scale_quat. cbn [q0 q1 q2 q3]. f_equal. f_equal; field; split; lra || assumption.
Qed.

Lemma from_quat_scale_neg (k : R) (q r : quat) :
  k < 0 -> Rotation.from_quat q = inr r ->
  Rotation.from_quat (scale_quat k q) = inr (scale_quat (-1) r).
Proof.
  intros Hk Hr. unfold Rotation.from_quat in *.
  rewrite norm_scale, Rabs_left by lra.
  destruct (Req_dec_T (Rotation.norm q) 0) as [E|E]; [discriminate|].
  injection Hr as <-.
  destruct (Req_dec_T (- k * Rotation.norm q) 0) as [E'|E'].
  - exfalso. apply Rmult_integral in E'. destruct E'; [lra|contradiction].
  - unfold scale_quat. cbn [q0 q1 q2 q3]. f_equal. f_equal; field; split; lra || assumption.
Qed.

Lemma apply_negated (r : quat) (v : vec3) :
  Rotation.apply (scale_quat (-1) r) v = Rotation.apply r v.
Proof. unfold Rotation.apply, scale_quat. simpl. f_equal; ring. Qed.

Lemma detector_radec_scale (br : list quat) (det_q : quat) (k : R) :
  Forall (fun r => Rotation.norm r = 1) br -> k <> 0 ->
  detector_radec br (scale_quat k det_q) = detector_radec br det_q.
Proof.
  intros Hbr Hk.
  destruct (Rtotal_order k 0) as [Hneg|[->|Hpos]]; [|contradiction|].
  - destruct (Req_dec (Rotation.norm det_q) 0) as [Hz|Hnz].
    + unfold detector_radec, Rotation.from_quat.
      rewrite norm_scale, Hz, Rmult_0_r.
      destruct (Req_dec_T 0 0); [reflexivity|contradiction].
    + destruct (from_quat_ok det_q Hnz) as (r & Hr & _).
      rewrite (detector_radec_closed br _ _ Hbr (from_quat_scale_neg k _ _ Hneg Hr)).
      rewrite (detector_radec_closed br _ _ Hbr Hr).
      unfold boresight_after_offset, compose.
      f_equal. f_equal; apply List.map_ext; intros b; rewrite apply_negated;
        reflexivity.
  - unfold detector_radec. rewrite from_quat_scale_pos by exact Hpos. reflexivity.
Qed.

(** X12: the pointing of a detector does not depend on the scale or on the
    sign of its calibration quaternion: [k * q] gives the same [ra_det] and
    [dec_det] as [q] for every non-zero [k] (and the same refusal when [q]
    is zero); likewise a boresight sample may be scaled by any positive
    factor. *)
Theorem X12_quaternion_scale_is_irrelevant (frame : G3Frame)
    (raw : list (string * list R)) (br : list quat) (det_q : quat) (k : R) :
  scan_inputs frame = inr (raw, br) -> k <> 0 ->
  detector_radec br (scale_quat k det_q) = detector_radec br det_q /\
  (0 < k ->
   forall boresight_q,
     mapM Rotation.from_quat (map vector_first (map (scale_quat k) boresight_q))
     = mapM Rotation.from_quat (map vector_first boresight_q)).
Proof.
  intros Hi Hk. apply scan_inputs_unit in Hi as (bq & _ & _ & _ & Hu).
  split; [apply detector_radec_scale; assumption|].
  intros Hpos boresight_q.
  induction boresight_q as [|q l IH]; [reflexivity|].
  cbn [map mapM]. rewrite IH.
  change (vector_first (scale_quat k q)) with (scale_quat k (vector_first q)).
  rewrite from_quat_scale_pos by exact Hpos. reflexivity.
Qed.

(** X12 on the identity quaternion, doubled and reversed. *)
Lemma X12_quaternion_scale_is_irrelevant_witness :
  detector_radec [identity_quat] (scale_quat (-2) identity_quat)
  = detector_radec [identity_quat] identity_quat /\
  (0 < -2 ->
   forall boresight_q,
     mapM Rotation.from_quat (map vector_first (map (scale_quat (-2)) boresight_q))
     = mapM Rotation.from_quat (map vector_first boresight_q)).
Proof.
  apply (X12_quaternion_scale_is_irrelevant (single_scan 5) [("A", [5])]
           [identity_quat] identity_quat (-2)).
  - apply polar_scan_inputs.
  - lra.
Defined.

(** ** A scan that misses the map *)

Lemma filter_weighted_le (xe ye : list R) (l : list (R * R)) (w : list R) :
  (length (filter (sample_in_range xe ye) (zip l w))
   <= length (filter (fun p : R * R =>
                        in_range xe p.1 = true /\ in_range ye p.2 = true) l))%nat.
Proof.
  revert w. induction l as [|p l IH]; intros [|a w]; cbn [zip zip_with];
    try (rewrite filter_nil; cbn [length]; lia).
  rewrite !filter_cons. unfold sample_in_range at 1. cbn [fst snd].
  specialize (IH w).
  destruct (decide (in_range xe p.1 = true /\ in_range ye p.2 = true));
    cbn [length]; lia.
Qed.

Lemma grid_add_zeros (rows cols : nat) (a : list (list R)) :
  shape rows cols a ->
  grid_add Rplus a (replicate rows (replicate cols 0)) = a.
Proof.
  intros Ha.
  apply (grid_ext rows cols); [apply grid_add_shape; [exact Ha|apply zero_grid_shape]|exact Ha|].
  intros i j. rewrite cell_grid_add.
  destruct (cell a i j) as [s|] eqn:Es; [|reflexivity].
  destruct (proj1 (cell_Some_shape _ _ a i j Ha)) as [Hi Hj]; [eauto|].
  rewrite cell_zero_grid by assumption. f_equal. ring.
Qed.

Lemma grid_add_trunc_zeros (rows cols : nat) (a : list (list Z)) :
  shape rows cols a ->
  grid_add Z.add a (map (map int_trunc) (replicate rows (replicate cols 0))) = a.
Proof.
  intros Ha.
  apply (grid_ext rows cols);
    [apply grid_add_shape; [exact Ha|apply trunc_shape, zero_grid_shape]|exact Ha|].
  intros i j. rewrite cell_grid_add, cell_trunc.
  destruct (cell a i j) as [h|] eqn:Eh; [|reflexivity].
  destruct (proj1 (cell_Some_shape _ _ a i j Ha)) as [Hi Hj]; [eauto|].
  rewrite cell_zero_grid by assumption. simpl. rewrite int_trunc_0. f_equal. lia.
Qed.

Lemma bin_detector_misses (frame : G3Frame) (br : list quat) (kid : string)
    (y_raw : list R) (self self' : QuickMapMaker) :
  wf self -> bin_detector frame br kid y_raw self = (inr (), self') ->
  samples_in_range self br kid = O -> self' = self.
Proof.
  intros Hwf H Hzero. apply bin_detector_inr in H.
  destruct H as (det_q & ra & dec & dl & rl & Hq & Hrd & Hmd & Hmr & Hdl & Hrl
                 & _ & ->).
  unfold samples_in_range in Hzero. rewrite Hq, Hrd in Hzero.
  assert (Hnil : forall w,
             filter (sample_in_range (dec_edges self) (ra_edges self))
               (zip (zip dec ra) w) = []).
  { intros w. apply nil_length_inv.
    pose proof (filter_weighted_le (dec_edges self) (ra_edges self)
                  (zip dec ra) w). lia. }
  unfold bincount2d.
  rewrite (foldl_deposit_filter _ _ _ _
             (zip (zip dec ra) (replicate (length dec) 1)) _ Hmd Hmr Hdl Hrl),
          (foldl_deposit_filter _ _ _ _
             (zip (zip dec ra) (reconstruct frame kid y_raw)) _ Hmd Hmr Hdl Hrl),
          !Hnil.
  cbn [foldl]. destruct Hwf as (_ & _ & Hsky & Hhits).
  rewrite (grid_add_zeros _ _ _ Hsky), (grid_add_trunc_zeros _ _ _ Hhits).
  destruct self. reflexivity.
Qed.

Lemma batch_in_range_zero (self : QuickMapMaker) (br : list quat)
    (kid : string) (y : list R) (raw : list (string * list R)) :
  batch_in_range self br ((kid, y) :: raw) = 0%Z ->
  samples_in_range self br kid = O /\ batch_in_range self br raw = 0%Z.
Proof.
  unfold batch_in_range, sumZ. cbn [map foldr fst].
  assert (Hpos : forall l : list (string * list R),
             (0 <= foldr Z.add 0
                     (map (fun entry : string * list R =>
                             Z.of_nat (samples_in_range self br entry.1)) l))%Z).
  { induction l as [|e l IH]; cbn [map foldr]; lia. }
  specialize (Hpos raw). lia.
Qed.

Lemma scan_loop_misses (frame : G3Frame) (br : list quat)
    (raw : list (string * list R)) (self self' : QuickMapMaker) :
  wf self -> scan_loop frame br raw self = (inr (), self') ->
  batch_in_range self br raw = 0%Z -> self' = self.
Proof.
  induction raw as [|[kid y] raw IH]; intros Hwf H Hzero; simpl in H.
  - injection H as <-. reflexivity.
  - destruct (bin_detector frame br kid y self) as [[e|[]] self1] eqn:E;
      [discriminate|].
    apply batch_in_range_zero in Hzero as [Hk Hrest].
    pose proof (bin_detector_misses _ _ _ _ _ _ Hwf E Hk). subst self1.
    apply IH; assumption.
Qed.

(** X13: a scan that is processed without exception and none of whose
    pointings lies inside the grid leaves the whole object, both grids
    included, exactly as it was. *)
Theorem X13_scan_off_the_map_changes_nothing (self : QuickMapMaker)
    (frame : G3Frame) (raw : list (string * list R)) (br : list quat)
    (r : option G3Frame) :
  wf self -> type frame = Scan -> scan_inputs frame = inr (raw, br) ->
  returned (Process self frame) = inr r ->
  batch_in_range self br raw = 0%Z ->
  self_after (Process self frame) = self.
Proof.
  intros Hwf Ht Hi Hr Hzero.
  destruct (Process_scan_inr _ _ _ Ht Hr) as (raw' & br' & self' & Hi' & Hl & ->).
  rewrite Hi in Hi'. injection Hi' as <- <-. cbn [self_after].
  apply (scan_loop_misses _ _ _ _ _ Hwf Hl Hzero).
Qed.

Lemma equator_maker_wf (table : gmap string quat) (s : R) (h : Z) :
  wf (equator_maker table s h).
Proof.
  unfold wf, shape, equator_maker. simpl.
  repeat split; try discriminate; repeat constructor.
Qed.

(** X13 on the first scenario: the pointing at the pole misses the grid
    around the equator. *)
Lemma X13_scan_off_the_map_changes_nothing_witness :
  self_after (Process (equator_maker {["A" := identity_quat]} 0 0) (single_scan 5))
  = equator_maker {["A" := identity_quat]} 0 0.
Proof.
  apply (X13_scan_off_the_map_changes_nothing
           (equator_maker {["A" := identity_quat]} 0 0) (single_scan 5)
           [("A", [5])] [identity_quat] (Some (single_scan 5))).
  - apply equator_maker_wf.
  - reflexivity.
  - apply polar_scan_inputs.
  - rewrite scenario_sample_dropped. reflexivity.
  - unfold batch_in_range, samples_in_range, equator_maker.
    cbn [map fst det_offset_dict dec_edges ra_edges].
    rewrite lookup_singleton_eq, polar_pointing.
    cbn [zip zip_with]. rewrite filter_cons, filter_nil.
    destruct (decide _) as [[Hd _]|]; [|reflexivity].
    exfalso. revert Hd. unfold in_range. cbn [head last fst snd length].
    decide_reals. rewrite andb_false_r. discriminate.
Defined.

(** ** A batch may be split over two frames *)

Lemma bin_detector_scalars (f f' : G3Frame) (br : list quat) (kid : string)
    (y_raw : list R) (self : QuickMapMaker) :
  scalars f = scalars f' ->
  bin_detector f br kid y_raw self = bin_detector f' br kid y_raw self.
Proof.
  intros Hs. unfold bin_detector, reconstruct. rewrite Hs. reflexivity.
Qed.

Lemma scan_loop_scalars (f f' : G3Frame) (br : list quat)
    (raw : list (string * list R)) (self : QuickMapMaker) :
  scalars f = scalars f' ->
  scan_loop f br raw self = scan_loop f' br raw self.
Proof.
  intros Hs. revert self. induction raw as [|[kid y] raw IH]; intros self;
    [reflexivity|].
  cbn [scan_loop]. rewrite (bin_detector_scalars f f' _ _ _ _ Hs).
  destruct (bin_detector f' br kid y self) as [[e|u] self1]; [reflexivity|].
  apply IH.
Qed.

Lemma scan_inputs_boresight (f f' : G3Frame) (raw raw' : list (string * list R))
    (br : list quat) :
  shared_boresight_radec f' = shared_boresight_radec f ->
  signal f' = Some raw' ->
  scan_inputs f = inr (raw, br) -> scan_inputs f' = inr (raw', br).
Proof.
  intros Hb Hs. unfold scan_inputs. rewrite Hb, Hs.
  destruct (signal f); [|discriminate]. cbn [getitem bind].
  destruct (shared_boresight_radec f); [|discriminate]. cbn [getitem bind].
  destruct (mapM _ _); [discriminate|]. cbn [bind]. intros [= _ <-]. reflexivity.
Qed.

(** X14: when a first scan frame is processed without exception, a second
    scan frame with the same boresight and the same decompression entries
    leaves the object exactly as one frame holding the detectors of both,
    in that order, would have left it, and raises exactly when that one
    frame would. *)
Theorem X14_batch_split_over_two_frames (self : QuickMapMaker)
    (f1 f2 f : G3Frame) (raw1 raw2 : list (string * list R))
    (r : option G3Frame) :
  type f1 = Scan -> type f2 = Scan -> type f = Scan ->
  scalars f1 = scalars f -> scalars f2 = scalars f ->
  shared_boresight_radec f = shared_boresight_radec f1 ->
  shared_boresight_radec f2 = shared_boresight_radec f1 ->
  signal f1 = Some raw1 -> signal f2 = Some raw2 ->
  signal f = Some (raw1 ++ raw2) ->
  returned (Process self f1) = inr r ->
  self_after (Process (self_after (Process self f1)) f2)
  = self_after (Process self f) /\
  forall e,
    returned (Process (self_after (Process self f1)) f2) = inl e
    <-> returned (Process self f) = inl e.
Proof.
  intros Ht1 Ht2 Ht Hs1 Hs2 Hb Hb2 Hr1 Hr2 Hr H1.
  destruct (Process_scan_inr _ _ _ Ht1 H1) as (raw & br & s1 & Hi1 & Hl1 & ->).
  pose proof (scan_inputs_signal _ _ _ Hi1) as E. rewrite Hr1 in E.
  injection E as <-. cbn [self_after].
  rewrite (Process_scan _ _ Ht2), (Process_scan _ _ Ht).
  rewrite (scan_inputs_boresight f1 f2 raw1 raw2 br Hb2 Hr2 Hi1).
  rewrite (scan_inputs_boresight f1 f raw1 (raw1 ++ raw2) br Hb Hr Hi1).
  rewrite scan_loop_app.
  rewrite <- (scan_loop_scalars f1 f br raw1 self Hs1), Hl1.
  rewrite (scan_loop_scalars f2 f br raw2 s1 Hs2).
  destruct (scan_loop f br raw2 s1) as [[e'|u] s2]; cbn [self_after returned].
  - split; [reflexivity|]. intros e. tauto.
  - split; [reflexivity|]. intros e. split; discriminate.
Qed.

Lemma polar_scan_one (table : gmap string quat) (kid : string) (w s : R)
    (h : Z) :
  table !! kid = Some identity_quat ->
  Process (polar_maker table s h) (polar_scan [(kid, [w])])
  = {| returned := inr (Some (polar_scan [(kid, [w])]));
       self_after := polar_maker table (s + w) (h + 1);
       shown := None |}.
Proof.
  intros Hk. rewrite Process_scan by reflexivity.
  rewrite polar_scan_inputs. cbn [scan_loop].
  rewrite polar_bin_detector by exact Hk. reflexivity.
Qed.

(** X14 on the detectors "A" and "B", in one frame and in two. *)
Lemma X14_batch_split_over_two_frames_witness :
  self_after (Process (self_after (Process two_detector_maker
                                     (polar_scan [("A", [5])])))
                (polar_scan [("B", [7])]))
  = self_after (Process two_detector_maker mixed_scan) /\
  forall e,
    returned (Process (self_after (Process two_detector_maker
                                     (polar_scan [("A", [5])])))
                (polar_scan [("B", [7])])) = inl e
    <-> returned (Process two_detector_maker mixed_scan) = inl e.
Proof.
  apply (X14_batch_split_over_two_frames two_detector_maker
           (polar_scan [("A", [5])]) (polar_scan [("B", [7])]) mixed_scan
           [("A", [5])] [("B", [7])] (Some (polar_scan [("A", [5])])));
    try reflexivity.
  unfold two_detector_maker. rewrite polar_scan_one by reflexivity. reflexivity.
Defined.

(** ** The frame counter *)

Lemma run_length_snoc (frames : list G3Frame) (f : G3Frame) :
  trailing_run (type f) (frames ++ [f])
  = S (trailing_run (type f) frames).
Proof.
  unfold trailing_run. rewrite reverse_app. cbn [reverse app run_length].
  change (reverse [f]) with [f]. cbn [app run_length].
  destruct (decide (type f = type f)); [reflexivity|congruence].
Qed.

Lemma count_all_snoc (self : FrameCounter.t) (frames : list G3Frame)
    (f : G3Frame) :
  count_all self (frames ++ [f])
  = (FrameCounter.Process (count_all self frames) f).2.
Proof. unfold count_all. rewrite foldl_snoc. reflexivity. Qed.

(** The counter after a stream that ends with [f]. *)
Lemma count_all_last (frames : list G3Frame) (f : G3Frame) :
  count_all FrameCounter.__init__ (frames ++ [f])
  = {| FrameCounter.previous_type := Some (type f);
       FrameCounter.num_repeats := Z.of_nat (trailing_run (type f) frames) |}.
Proof.
  revert f. induction frames as [|g frames IH] using rev_ind; intros f.
  - reflexivity.
  - rewrite count_all_snoc, IH. unfold FrameCounter.Process.
    cbn [FrameCounter.previous_type FrameCounter.num_repeats].
    destruct (decide (Some (type f) = Some (type g))) as [E|E]; cbn [snd].
    + injection E as E. rewrite E, run_length_snoc. f_equal. lia.
    + f_equal. unfold trailing_run. rewrite reverse_app.
      change (reverse [g]) with [g]. cbn [app run_length].
      destruct (decide (type g = type f)) as [E'|_]; [congruence|reflexivity].
Qed.

(** X15: after any stream of frames that ends with the frame [f], the counter
    remembers the type of [f], and [num_repeats + 1] is the number of frames
    of that type that end the stream ([f] included).  For [f] the counter
    printed the type with that number when the run has two frames or more; at
    the first frame of a run it printed an empty line and the bare type,
    followed by one more empty line for an [EndProcessing] frame.  The call
    returned no frame. *)
Theorem X15_counter_tracks_the_run (frames : list G3Frame) (f : G3Frame) :
  FrameCounter.previous_type (count_all FrameCounter.__init__ (frames ++ [f]))
  = Some (type f) /\
  (FrameCounter.num_repeats (count_all FrameCounter.__init__ (frames ++ [f]))
   + 1)%Z
  = Z.of_nat (trailing_run (type f) (frames ++ [f])) /\
  prints (count_all FrameCounter.__init__ frames) f
  = (if decide (trailing_run (type f) (frames ++ [f]) = 1%nat) then
       EmptyLine :: TypeLine (type f) None ::
         (if decide (type f = EndProcessing) then [EmptyLine] else [])
     else
       [TypeLine (type f)
          (Some (Z.of_nat (trailing_run (type f) (frames ++ [f]))))]) /\
  (FrameCounter.Process (count_all FrameCounter.__init__ frames) f).1 = None.
Proof.
  rewrite count_all_last, run_length_snoc.
  cbn [FrameCounter.previous_type FrameCounter.num_repeats].
  split; [reflexivity|]. split; [lia|]. split.
  - destruct frames as [|g frames _] using rev_ind.
    + reflexivity.
    + rewrite count_all_last. unfold prints.
      cbn [FrameCounter.previous_type FrameCounter.num_repeats].
      destruct (decide (Some (type f) = Some (type g))) as [E|E].
      * injection E as E. rewrite E, run_length_snoc.
        destruct (decide (S (S (trailing_run (type g) frames)) = 1%nat));
          [lia|].
        replace (Z.of_nat (S (S (trailing_run (type g) frames))))
          with (Z.of_nat (trailing_run (type g) frames) + 1 + 1)%Z by lia.
        reflexivity.
      * unfold trailing_run. rewrite reverse_app.
        change (reverse [g]) with [g]. cbn [app run_length].
        destruct (decide (type g = type f)) as [E'|_]; [congruence|].
        reflexivity.
  - unfold FrameCounter.Process.
    destruct (decide (Some (type f)
                      = FrameCounter.previous_type
                          (count_all FrameCounter.__init__ frames)));
      reflexivity.
Qed.
